(** * Pika server core: metric query planner, rollup, ingestion, agent
      registration and property store.

    A shallow embedding of [internal/service/agent_service.go] and
    [internal/service/property_service.go], with the properties the
    specification states about them.

    Conventions.  Go's [int] and [int64] are modelled by [Z].  Where the
    source computes on values that a caller or the configuration supplies
    (the range and the durations of the query planner, the interval of the
    public IP schedule), the 64-bit wrap-around is written out with
    [wrap64], and [float64] arithmetic rounds as binary64 does ([Float64]).
    The rollup computes on clock readings, the three bucket widths and a
    retention period that does not reach back before the epoch, where
    nothing wraps.  Go's integer division truncates towards zero and is
    written [Z.quot] (notation [÷]).  Strings are [string]; database tables
    keyed by a primary key are [gmap]s. *)

From Stdlib Require Import ZArith QArith Qround Qpower Lqa Lia List Sorted
  SpecFloat.
From stdpp Require Import gmap strings list.

Local Open Scope Z_scope.

(** A Go result [(value, err)]: either a value with a nil error, or an
    error. *)
Inductive result (A : Type) : Type :=
| Ok (a : A)
| Err (e : string).

Arguments Ok {A} a.
Arguments Err {A} e.

Definition isOk {A : Type} (r : result A) : bool :=
  match r with Ok _ => true | Err _ => false end.

(** The value an [int64] computation leaves when its mathematical result is
    [z]: the representative of [z] modulo 2^64 between -2^63 and 2^63 - 1. *)
Definition wrap64 (z : Z) : Z := (z + 2 ^ 63) mod 2 ^ 64 - 2 ^ 63.

(** ** Go's [float64] *)

Module Float64.

(** A finite [float64] is modelled by the rational it denotes, and an
    operation by the exact operation followed by [round], the rounding of
    IEEE 754 binary64: to the nearest number with a 53-bit significand, ties
    to the even significand.  The exponent range is left out: the planner
    only converts [int64] values and divides them by 1000 and by a positive
    [int], so every value it meets is zero or lies between 2^-73 and 2^63
    in magnitude, where binary64 neither overflows nor loses significand
    bits. *)

Definition pow2 (e : Z) : Q := (2 ^ e)%Q.

(** The nearest integer, the even one of two that are equally near. *)
Definition roundHalfEven (y : Q) : Z :=
  let f := Qfloor y in
  match (y - inject_Z f ?= 1 # 2)%Q with
  | Lt => f
  | Gt => f + 1
  | Eq => if Z.even f then f else f + 1
  end.

(** The binade of a positive rational: the [b] with [2^b <= x < 2^(b+1)].
    The difference [a] of the bit lengths of numerator and denominator has
    [2^(a-1) < x < 2^(a+1)]. *)
Definition binade (x : Q) : Z :=
  let a := Z.log2 (Qnum x) - Z.log2 (Zpos (Qden x)) in
  if Qle_bool (pow2 a) x then a else a - 1.

(** A positive [x] lies between two neighbours [m * 2^e] and
    [(m + 1) * 2^e] with [2^52 <= m < 2^53]. *)
Definition roundPositive (x : Q) : Q :=
  let e := binade x - 52 in
  (inject_Z (roundHalfEven (x / pow2 e)) * pow2 e)%Q.

Definition round (x : Q) : Q :=
  match (x ?= 0)%Q with
  | Eq => 0%Q
  | Gt => roundPositive x
  | Lt => (- roundPositive (- x))%Q
  end.

(** [float64(z)] for an integer [z], and [a / b]. *)
Definition ofInt (z : Z) : Q := round (inject_Z z).

Definition div (a b : Q) : Q := round (a / b).

(** The value of a finite binary64 number of the Standard Library's
    specification of IEEE 754, to compare [round] with it. *)
Definition ofSpecFloat (x : spec_float) : Q :=
  match x with
  | S754_finite s m e =>
      ((if s then -1 else 1) * inject_Z (Zpos m) * pow2 e)%Q
  | _ => 0%Q
  end.

End Float64.

(** ** Query planner: choice of the aggregation interval *)

Module Planner.

(** [models.MetricsConfig]. *)
Record MetricsConfig := mkMetricsConfig {
  RetentionHours : Z;
  MaxQueryPoints : Z
}.

Definition defaultMetricsRetentionHours : Z := 24 * 7.
Definition defaultMaxQueryPoints : Z := 720.

Definition allowedIntervals : list Z :=
  [1; 2; 5;
   10; 15; 30;
   60; 120; 300;
   600; 900; 1800;
   3600; 7200; 14400].

(** The [for _, candidate := range allowedIntervals] loop of [alignInterval]:
    the first candidate that is at least [interval], if the loop returns. *)
Fixpoint firstCandidate (interval : Z) (candidates : list Z) : option Z :=
  match candidates with
  | [] => None
  | candidate :: rest =>
      if interval <=? candidate then Some candidate
      else firstCandidate interval rest
  end.

Definition alignInterval (interval : Z) : Z :=
  match firstCandidate interval allowedIntervals with
  | Some candidate => candidate
  | None => List.last allowedIntervals 0
  end.

Definition maxInt (a b : Z) : Z := if a >? b then a else b.

(** [calculateBaseInterval]; [end - start] is an [int64] subtraction. *)
Definition calculateBaseInterval (start end_ : Z) : Z :=
  let duration := wrap64 (end_ - start) ÷ 1000 in
  if duration <=? 60 then 2
  else if duration <=? 5 * 60 then 5
  else if duration <=? 15 * 60 then 15
  else if duration <=? 30 * 60 then 30
  else if duration <=? 60 * 60 then 60
  else if duration <=? 3 * 60 * 60 then 180
  else if duration <=? 6 * 60 * 60 then 300
  else if duration <=? 12 * 60 * 60 then 600
  else if duration <=? 24 * 60 * 60 then 900
  else if duration <=? 3 * 24 * 60 * 60 then 1800
  else if duration <=? 7 * 24 * 60 * 60 then 3600
  else if duration <=? 14 * 24 * 60 * 60 then 7200
  else 14400.

(** [float64(end-start) / 1000]: the [int64] difference wraps around, its
    conversion to [float64] and the division round. *)
Definition durationSeconds (start end_ : Z) : Q :=
  Float64.div (Float64.ofInt (wrap64 (end_ - start))) 1000.

(** [int(math.Ceil(durationSeconds / float64(maxPoints)))].  [math.Ceil] is
    exact, and its result is below 2^54 in magnitude, so the conversion to
    [int] is exact too. *)
Definition requiredInterval (start end_ maxPoints : Z) : Z :=
  Qceiling (Float64.div (durationSeconds start end_) (Float64.ofInt maxPoints)).

Definition adjustIntervalForMaxPoints (start end_ interval maxPoints : Z) : Z :=
  let interval := if interval <=? 0 then 1 else interval in
  if maxPoints <=? 0 then alignInterval interval
  else if Qle_bool (durationSeconds start end_) 0 then alignInterval interval
  else
    let required := requiredInterval start end_ maxPoints in
    alignInterval (maxInt interval required).

(** [getMetricsConfig]: [loaded] is what [propertyService.GetMetricsConfig]
    returned, [None] when the service has no property service. *)
Definition getMetricsConfig (loaded : option MetricsConfig) : MetricsConfig :=
  let cfg := mkMetricsConfig defaultMetricsRetentionHours defaultMaxQueryPoints in
  match loaded with
  | None => cfg
  | Some l =>
      let cfg :=
        if RetentionHours l >? 0
        then mkMetricsConfig (RetentionHours l) (MaxQueryPoints cfg) else cfg in
      if MaxQueryPoints l >? 0
      then mkMetricsConfig (RetentionHours cfg) (MaxQueryPoints l) else cfg
  end.

Definition DetermineInterval (loaded : option MetricsConfig)
    (start end_ requested : Z) : Z :=
  let cfg := getMetricsConfig loaded in
  let interval := requested in
  let interval :=
    if interval <=? 0 then calculateBaseInterval start end_ else interval in
  adjustIntervalForMaxPoints start end_ interval (MaxQueryPoints cfg).

(** [time.Hour], a [time.Duration]: nanoseconds. *)
Definition Hour : Z := 3600000000000.

(** [time.Now().Add(-retentionDuration).UnixMilli()] in
    [normalizeTimeRange].  [now] is the reading of [time.Now()] in
    nanoseconds since the epoch.  The product
    [time.Duration(cfg.RetentionHours) * time.Hour] and the negation are
    [int64] operations and wrap around; [Add] adds the nanoseconds to the
    wall clock, and [UnixMilli] is the floor of the milliseconds. *)
Definition retentionBoundary (loaded : option MetricsConfig) (now : Z) : Z :=
  let cfg := getMetricsConfig loaded in
  let retentionDuration := wrap64 (RetentionHours cfg * Hour) in
  (now + wrap64 (- retentionDuration)) / 1000000.

(** [normalizeTimeRange]; [now] is the reading of [time.Now()] in
    nanoseconds, [start + 1000] an [int64] addition. *)
Definition normalizeTimeRange (loaded : option MetricsConfig)
    (now start end_ : Z) : Z * Z :=
  let retentionBoundary := retentionBoundary loaded now in
  let start := if start <? retentionBoundary then retentionBoundary else start in
  let end_ := if end_ <=? start then wrap64 (start + 1000) else end_ in
  (start, end_).

(** The first two statements of [GetMetrics]: the effective interval of a
    query. *)
Definition effectiveInterval (loaded : option MetricsConfig)
    (now start end_ requested : Z) : Z :=
  let '(start, end_) := normalizeTimeRange loaded now start end_ in
  DetermineInterval loaded start end_ requested.

(** [CalculateInterval], the exported table of the first planner. *)
Definition CalculateInterval (start end_ : Z) : Z :=
  let duration := wrap64 (end_ - start) ÷ 1000 in
  if duration <=? 60 then 2
  else if duration <=? 300 then 5
  else if duration <=? 900 then 15
  else if duration <=? 1800 then 30
  else 60.

(** [defaultIntervalWithLimit]. *)
Definition defaultIntervalWithLimit (start end_ : Z) : Z :=
  let base := calculateBaseInterval start end_ in
  adjustIntervalForMaxPoints start end_ base defaultMaxQueryPoints.

(** [r] is [x] rounded up to the nearest member of the allowed set. *)
Definition roundedUp (x r : Z) : Prop :=
  r ∈ allowedIntervals ∧ x <= r ∧
  ∀ c, c ∈ allowedIntervals → x <= c → r <= c.

(** The interval [DetermineInterval] starts from: the one the caller asks
    for or, when none is supplied, the base interval of the range. *)
Definition chosenInterval (start end_ requested : Z) : Z :=
  if requested <=? 0 then calculateBaseInterval start end_ else requested.

(** The required interval in the words of the specification (section 4.5,
    step 3), [⌈(end − start)/maxPoints⌉] with the range taken in seconds,
    in exact arithmetic. *)
Definition specRequired (start end_ maxPoints : Z) : Z :=
  Qceiling (inject_Z (end_ - start) / 1000 / inject_Z maxPoints).

(** The interval [adjustIntervalForMaxPoints] raises the chosen one to: the
    required interval as the code computes it, which a range that is not
    positive as an [int64] difference leaves out. *)
Definition raisedInterval (loaded : option MetricsConfig)
    (start end_ requested : Z) : Z :=
  let cfg := getMetricsConfig loaded in
  let chosen := chosenInterval start end_ requested in
  if 0 <? wrap64 (end_ - start)
  then Z.max chosen (requiredInterval start end_ (MaxQueryPoints cfg))
  else chosen.

End Planner.

(** ** Downsampler: one rollup tick for one (kind, bucket width) *)

Module Rollup.

(** [models.AggregationProgress]; the rollup reads its [LastBucket] only. *)
Record AggregationProgress := mkProgress { LastBucket : Z }.

Section WithAggregateTables.

(** The contents of the aggregate tables, written by the [aggregateFn]s of
    the metric repository only. *)
Variable Agg : Type.

(** [type aggregateFn func(ctx, bucketSeconds int, start, end int64) error],
    with its effect on the aggregate tables made explicit. *)
Definition aggregateFn : Type := Z -> Z -> Z -> Agg -> result Agg.

(** The state a tick works on: the [aggregation_progress] table, keyed
    [(metricType, bucketSeconds)], the aggregate tables and the error log. *)
Record State := mkState {
  progress : gmap (string * Z) Z;
  aggregates : Agg;
  logs : list string
}.

(** Modelled from the spec: [metricRepo.GetAggregationProgress] belongs to
    [internal/repo/metric_repo.go], which is missing here; it loads the
    [lastBucket] stored for the key (step 1 of the rollup), and returns a
    nil row when there is none.  [fault] is the error of the read, when the
    database fails it. *)
Definition GetAggregationProgress (fault : option string) (st : State)
    (metricType : string) (bucketSeconds : Z)
    : result (option AggregationProgress) :=
  match fault with
  | Some e => Err e
  | None => Ok (mkProgress <$> progress st !! (metricType, bucketSeconds))
  end.

(** Modelled from the spec: [metricRepo.UpsertAggregationProgress] belongs
    to the same missing file; it stores [lastBucket] under the key (step 6
    of the rollup).  [fault] is the error of the write, when the database
    refuses it; a refused write changes nothing. *)
Definition UpsertAggregationProgress (fault : option string) (st : State)
    (metricType : string) (bucketSeconds lastBucket : Z) : result State :=
  match fault with
  | Some e => Err e
  | None =>
      Ok (mkState (<[(metricType, bucketSeconds) := lastBucket]> (progress st))
                  (aggregates st) (logs st))
  end.

(** [getAggregationStart]; [now] is the reading of [time.Now()] in
    milliseconds, [readFault] the error of the progress read, if it fails,
    and [retention] the retention period in milliseconds. *)
Definition getAggregationStart (now : Z) (readFault : option string)
    (st : State) (metricType : string) (bucketSeconds retention bucketMs : Z)
    : Z :=
  let fallback :=
    let start := now - retention in
    (start ÷ bucketMs) * bucketMs in
  match GetAggregationProgress readFault st metricType bucketSeconds with
  | Ok (Some progress) =>
      if LastBucket progress >? 0 then LastBucket progress + bucketMs
      else fallback
  | Ok None => fallback
  | Err _ => fallback
  end.

(** [aggregateMetric].  [now1] is the clock read by [getAggregationStart],
    [now2] the clock read for [endBucket]; subtracting
    [time.Duration(bucketSeconds)*time.Second] from a clock subtracts
    [bucketSeconds * 1000] from its milliseconds.  [readFault] and
    [upsertFault] are the errors of the progress read and of the progress
    write, if they fail. *)
Definition aggregateMetric (now1 now2 : Z) (readFault upsertFault : option string)
    (metricType : string) (bucketSeconds retention : Z) (fn : aggregateFn)
    (st : State) : State :=
  let bucketMs := bucketSeconds * 1000 in
  let start :=
    getAggregationStart now1 readFault st metricType bucketSeconds retention
      bucketMs in
  let endBucket := ((now2 - bucketSeconds * 1000) ÷ bucketMs) * bucketMs in
  if endBucket <=? start then st
  else
    let end_ := endBucket + bucketMs - 1 in
    match fn bucketSeconds start end_ (aggregates st) with
    | Err e =>
        mkState (progress st) (aggregates st)
                (logs st ++ ["aggregate metric failed"%string])
    | Ok agg =>
        let st := mkState (progress st) agg (logs st) in
        match UpsertAggregationProgress upsertFault st metricType
                bucketSeconds endBucket with
        | Err e =>
            mkState (progress st) (aggregates st)
                    (logs st ++ ["update aggregation progress failed"%string])
        | Ok st => st
        end
    end.

(** The window [aggregateMetric] hands to its aggregation function:
    [None] when the tick returns before calling it. *)
Definition tickWindow (now1 now2 : Z) (readFault : option string)
    (metricType : string) (bucketSeconds retention : Z) (st : State)
    : option (Z * Z) :=
  let bucketMs := bucketSeconds * 1000 in
  let start :=
    getAggregationStart now1 readFault st metricType bucketSeconds retention
      bucketMs in
  let endBucket := ((now2 - bucketSeconds * 1000) ÷ bucketMs) * bucketMs in
  if endBucket <=? start then None else Some (start, endBucket + bucketMs - 1).

(** The same tick, following the words of the specification (section 4.4,
    steps 1 to 4), with mathematical floor division [/]: the start by the
    stored progress, the last closed bucket, and the window, if the tick is
    not skipped. *)
Definition specStart (now : Z) (st : State) (metricType : string)
    (bucketSeconds retention : Z) : Z :=
  let bucketMs := bucketSeconds * 1000 in
  match progress st !! (metricType, bucketSeconds) with
  | Some lastBucket => lastBucket + bucketSeconds * 1000
  | None => ((now - retention) / bucketMs) * bucketMs
  end.

Definition specEndBucket (now bucketSeconds : Z) : Z :=
  let bucketMs := bucketSeconds * 1000 in
  ((now - bucketSeconds * 1000) / bucketMs) * bucketMs.

Definition specWindow (now1 now2 : Z) (st : State) (metricType : string)
    (bucketSeconds retention : Z) : option (Z * Z) :=
  let start := specStart now1 st metricType bucketSeconds retention in
  let endBucket := specEndBucket now2 bucketSeconds in
  if endBucket <=? start then None
  else Some (start, endBucket + bucketSeconds * 1000 - 1).

(** The start of the window as the code chooses it: by the stored progress
    when the progress read succeeds, and at the retention boundary, aligned
    down to the bucket width, when it fails. *)
Definition startAfterRead (now : Z) (readFault : option string) (st : State)
    (metricType : string) (bucketSeconds retention : Z) : Z :=
  match readFault with
  | None => specStart now st metricType bucketSeconds retention
  | Some _ =>
      let bucketMs := bucketSeconds * 1000 in
      ((now - retention) / bucketMs) * bucketMs
  end.

(** The last closed bucket, as [aggregateMetric] computes its [endBucket]
    from its second clock reading. *)
Definition lastClosedBucket (now bucketSeconds : Z) : Z :=
  let bucketMs := bucketSeconds * 1000 in
  ((now - bucketSeconds * 1000) ÷ bucketMs) * bucketMs.

(** Monotonic progress in the words of the specification: a [lastBucket]
    that a tick stores in place of another one is strictly greater. *)
Definition storesGreater (st st' : State) (key : string * Z) : Prop :=
  ∀ previous lastBucket,
    progress st !! key = Some previous ->
    progress st' !! key = Some lastBucket ->
    lastBucket ≠ previous ->
    previous < lastBucket.

(** The bucket widths of [runAggregation]. *)
Definition buckets : list Z := [60; 300; 3600].

End WithAggregateTables.

Arguments mkState {Agg} _ _ _.
Arguments progress {Agg} _.
Arguments aggregates {Agg} _.
Arguments logs {Agg} _.
Arguments GetAggregationProgress {Agg} _ _ _ _.
Arguments UpsertAggregationProgress {Agg} _ _ _ _ _.
Arguments getAggregationStart {Agg} _ _ _ _ _ _ _.
Arguments aggregateMetric {Agg} _ _ _ _ _ _ _ _ _.
Arguments tickWindow {Agg} _ _ _ _ _ _ _.
Arguments specStart {Agg} _ _ _ _ _.
Arguments specWindow {Agg} _ _ _ _ _ _.
Arguments startAfterRead {Agg} _ _ _ _ _ _.
Arguments storesGreater {Agg} _ _ _.

Section RunAggregation.

Context {Agg : Type}.

(** What one call of [aggregateMetric] meets: its two clock readings, the
    error of the progress read, if the database fails it, and the error of
    the progress write, if the database refuses it. *)
Record TickEnv := mkTickEnv {
  now1 : Z;
  now2 : Z;
  readFault : option string;
  upsertFault : option string
}.

(** The kinds [runAggregation] rolls up, in the order of its calls. *)
Definition kinds : list string :=
  ["cpu"; "memory"; "disk"; "network"; "network_connection"; "disk_io";
   "gpu"; "temperature"]%string.

(** [runAggregation]: for every bucket width, one [aggregateMetric] per
    kind.  [aggregator kind] is the [metricRepo.Aggregate<Kind>ToAgg] of the
    kind, [env bucket kind] what the call for that bucket and kind meets.
    The retention period is handed on in milliseconds; as a
    [time.Duration] it is a whole number of hours that does not wrap while
    [RetentionHours < 2562048], which every clock that is not before the
    retention boundary ensures. *)
Definition runAggregation (loaded : option Planner.MetricsConfig)
    (env : Z -> string -> TickEnv) (aggregator : string -> aggregateFn Agg)
    (st : State Agg) : State Agg :=
  let cfg := Planner.getMetricsConfig loaded in
  let retention := Planner.RetentionHours cfg * 3600000 in
  foldl
    (fun st bucket =>
       foldl
         (fun st kind =>
            let e := env bucket kind in
            aggregateMetric (now1 e) (now2 e) (readFault e) (upsertFault e)
              kind bucket retention (aggregator kind) st)
         st kinds)
    st buckets.

(** Every stored [lastBucket] is a positive multiple of its bucket width. *)
Definition alignedProgress (st : State Agg) : Prop :=
  ∀ metricType bucketSeconds lastBucket,
    progress st !! (metricType, bucketSeconds) = Some lastBucket ->
    0 < lastBucket ∧ lastBucket mod (bucketSeconds * 1000) = 0.

End RunAggregation.

End Rollup.

(** ** Query planner: routing between aggregate and raw tables *)

Module Query.

Section WithMetricRepo.

(** Rows of the raw tables and of the aggregate tables. *)
Variables RawRow AggRow : Type.

(** [metricRepo.Get<Kind>Metrics(ctx, agentID, start, end, interval)] and
    [metricRepo.Get<Kind>MetricsAgg(ctx, agentID, start, end, bucketSeconds)];
    the first argument names the kind of the method. *)
Variable queryRaw : string -> string -> Z -> Z -> Z -> result (list RawRow).
Variable queryAgg : string -> string -> Z -> Z -> Z -> result (list AggRow).

(** What [GetMetrics] returns in its [interface{}]. *)
Inductive MetricsData :=
| AggData (metrics : list AggRow)
| RawData (metrics : list RawRow)
| NilData.

Definition aggCapable : list string :=
  ["cpu"; "memory"; "disk"; "network"; "network_connection"; "disk_io";
   "gpu"; "temperature"]%string.

Definition isAggCapable (metricType : string) : bool :=
  bool_decide (metricType ∈ aggCapable).

(** The choice of [bucketSeconds] and [useAgg]. *)
Definition chooseBucket (metricType : string) (interval : Z) : Z * bool :=
  if isAggCapable metricType then
    if interval >=? 3600 then (3600, true)
    else if interval >=? 300 then (300, true)
    else if interval >=? 60 then (60, true)
    else (0, false)
  else (0, false).

(** The body shared by the eight cases of the [switch metricType]. *)
Definition readKind (kind agentID : string) (start end_ interval : Z)
    (bucketSeconds : Z) (useAgg : bool) : result MetricsData :=
  let raw :=
    match queryRaw kind agentID start end_ interval with
    | Ok metrics => Ok (RawData metrics)
    | Err e => Err e
    end in
  if useAgg then
    match queryAgg kind agentID start end_ bucketSeconds with
    | Ok metrics =>
        if (0 <? length metrics)%nat then Ok (AggData metrics) else raw
    | Err _ => raw
    end
  else raw.

Definition GetMetrics (loaded : option Planner.MetricsConfig) (now : Z)
    (agentID metricType : string) (start end_ interval : Z)
    : result MetricsData :=
  let '(start, end_) := Planner.normalizeTimeRange loaded now start end_ in
  let interval := Planner.DetermineInterval loaded start end_ interval in
  let '(bucketSeconds, useAgg) := chooseBucket metricType interval in
  let case kind := readKind kind agentID start end_ interval bucketSeconds useAgg in
  if String.eqb metricType "cpu" then case "cpu"%string
  else if String.eqb metricType "memory" then case "memory"%string
  else if String.eqb metricType "disk" then case "disk"%string
  else if String.eqb metricType "network" then case "network"%string
  else if String.eqb metricType "network_connection"
       then case "network_connection"%string
  else if String.eqb metricType "disk_io" then case "disk_io"%string
  else if String.eqb metricType "gpu" then case "gpu"%string
  else if String.eqb metricType "temperature" then case "temperature"%string
  else Ok NilData.

End WithMetricRepo.

Arguments AggData {RawRow AggRow} _.
Arguments RawData {RawRow AggRow} _.
Arguments NilData {RawRow AggRow}.
Arguments readKind {RawRow AggRow} _ _ _ _ _ _ _ _ _.
Arguments GetMetrics {RawRow AggRow} _ _ _ _ _ _ _ _ _.

(** Modelled from the spec: the [Get<Kind>MetricsAgg] methods belong to
    [internal/repo/metric_repo.go], which is missing here.  An aggregate
    table holds one row per agent, bucket width and [bucketStart] (section
    3; for a kind without partition key), and the read of a range returns
    the rows of the agent and of the bucket width whose [bucketStart] lies
    in the range, in the order of the table. *)
Module AggregateRow.
Record t := mk {
  AgentID : string;
  BucketSeconds : Z;
  BucketStart : Z
}.
End AggregateRow.

Definition queryAggregateTable (table : list AggregateRow.t)
    (kind agentID : string) (start end_ bucketSeconds : Z)
    : result (list AggregateRow.t) :=
  Ok (filter
        (fun row =>
           AggregateRow.AgentID row = agentID ∧
           AggregateRow.BucketSeconds row = bucketSeconds ∧
           start <= AggregateRow.BucketStart row ∧
           AggregateRow.BucketStart row <= end_)
        table).

(** The aggregate rows of an agent whose samples have been rolled up at one
    bucket width without a gap: [n] buckets from [first] on. *)
Definition rolledUp (agentID : string) (bucketSeconds first : Z) (n : nat)
    : list AggregateRow.t :=
  map (fun i =>
         AggregateRow.mk agentID bucketSeconds
           (first + Z.of_nat i * (bucketSeconds * 1000)))
      (seq 0 n).

Section AsSpecified.

Context {RawRow AggRow : Type}.
Variable queryRaw : string -> string -> Z -> Z -> Z -> result (list RawRow).
Variable queryAgg : string -> string -> Z -> Z -> Z -> result (list AggRow).

(** The routing rule in the words of the specification (section 4.5, step
    5), for the query [GetMetrics(agentID, metricType, start, end,
    requested)] issued at [now]: the bucket follows the effective interval,
    and an empty aggregate result falls back to the raw rows of the same
    range. *)
Definition routesAsSpecified (loaded : option Planner.MetricsConfig)
    (now : Z) (agentID metricType : string) (start end_ requested : Z)
    : Prop :=
  let range := Planner.normalizeTimeRange loaded now start end_ in
  let interval := Planner.effectiveInterval loaded now start end_ requested in
  let answer :=
    GetMetrics queryRaw queryAgg loaded now agentID metricType start end_
      requested in
  let raw :=
    match queryRaw metricType agentID range.1 range.2 interval with
    | Ok metrics => Ok (RawData metrics)
    | Err e => Err e
    end in
  let bucket :=
    if 3600 <=? interval then Some 3600
    else if 300 <=? interval then Some 300
    else if 60 <=? interval then Some 60
    else None in
  match bucket with
  | None => answer = raw
  | Some bucketSeconds =>
      match queryAgg metricType agentID range.1 range.2 bucketSeconds with
      | Ok [] => answer = raw
      | Ok metrics => answer = Ok (AggData metrics)
      | Err _ => True
      end
  end.

(** The number of rows of an answer. *)
Definition rowCount (answer : result (MetricsData RawRow AggRow)) : nat :=
  match answer with
  | Ok (AggData metrics) => length metrics
  | Ok (RawData metrics) => length metrics
  | Ok NilData => 0
  | Err _ => 0
  end.

(** The plan of a query in the words of the specification (section 4.5,
    steps 2 to 4, and section 8): the effective interval is the requested
    or base interval, raised to the required one and rounded up to the
    nearest allowed member, and the answer has at most [maxQueryPoints]
    rows. *)
Definition plansAsSpecified (loaded : option Planner.MetricsConfig)
    (now : Z) (agentID metricType : string) (start end_ requested : Z)
    : Prop :=
  let cfg := Planner.getMetricsConfig loaded in
  let range := Planner.normalizeTimeRange loaded now start end_ in
  let chosen := Planner.chosenInterval range.1 range.2 requested in
  let required :=
    Planner.specRequired range.1 range.2 (Planner.MaxQueryPoints cfg) in
  Planner.roundedUp (Z.max chosen required)
    (Planner.effectiveInterval loaded now start end_ requested) ∧
  Z.of_nat
    (rowCount
       (GetMetrics queryRaw queryAgg loaded now agentID metricType start end_
          requested))
  <= Planner.MaxQueryPoints cfg.

End AsSpecified.

End Query.

(** ** Agent registration *)

Module Registry.

(** [protocol.AgentInfo], the payload of a [register] message. *)
Module AgentInfo.
Record t := mk {
  ID : string;
  Name : string;
  Hostname : string;
  OS : string;
  Arch : string;
  Version : string
}.
End AgentInfo.

(** [models.Agent]: the columns [RegisterAgent] reads or writes. *)
Module Agent.
Record t := mk {
  ID : string;
  Name : string;
  Hostname : string;
  IP : string;
  OS : string;
  Arch : string;
  Version : string;
  Status : Z;
  LastSeenAt : Z;
  CreatedAt : Z;
  UpdatedAt : Z
}.
End Agent.

(** The [agents] table, keyed by the primary key [ID], and the log. *)
Record State := mkState {
  agents : gmap string Agent.t;
  logs : list string
}.

(** Modelled from the spec: [repo.AgentRepo] is missing here; its
    [FindById] returns the row of the primary key or a not-found error. *)
Definition FindById (st : State) (id : string) : result Agent.t :=
  match agents st !! id with
  | Some agent => Ok agent
  | None => Err "record not found"
  end.

(** Modelled from the spec: [AgentRepo.UpdateById] (missing here) rewrites
    the row of the agent's primary key in place.  [fault] is the error of a
    write the database refuses; a refused write changes nothing. *)
Definition UpdateById (fault : option string) (st : State) (agent : Agent.t)
    : result State :=
  match fault with
  | Some e => Err e
  | None =>
      match agents st !! Agent.ID agent with
      | Some _ => Ok (mkState (<[Agent.ID agent := agent]> (agents st)) (logs st))
      | None => Ok st
      end
  end.

(** Modelled from the spec: [AgentRepo.Create] (missing here) inserts a row
    and fails on a primary key that is taken. *)
Definition Create (fault : option string) (st : State) (agent : Agent.t)
    : result State :=
  match fault with
  | Some e => Err e
  | None =>
      match agents st !! Agent.ID agent with
      | Some _ => Err "UNIQUE constraint failed: agents.id"
      | None => Ok (mkState (<[Agent.ID agent := agent]> (agents st)) (logs st))
      end
  end.

Definition logInfo (msg : string) (st : State) : State :=
  mkState (agents st) (logs st ++ [msg]).

(** Rows of the [agents] table sit under their own [ID]. *)
Definition keyedById (st : State) : Prop :=
  ∀ id agent, agents st !! id = Some agent -> Agent.ID agent = id.

(** [RegisterAgent].  [validKey] is the verdict of
    [apiKeyService.ValidateApiKey] on the key, [now] the reading of
    [time.Now().UnixMilli()], [fault] the error of the repository write, if
    it fails.  The result is the returned agent (or error) and the state
    afterwards. *)
Definition RegisterAgent (validKey : string -> result unit) (now : Z)
    (fault : option string) (st : State) (ip : string) (info : AgentInfo.t)
    (apiKey : string) : result Agent.t * State :=
  match validKey apiKey with
  | Err e =>
      (Err e, logInfo "agent registration failed: invalid api key" st)
  | Ok _ =>
      if String.eqb (AgentInfo.ID info) "" then
        (Err "agent ID 不能为空", st)
      else
        match FindById st (AgentInfo.ID info) with
        | Ok existingAgent =>
            let existingAgent :=
              Agent.mk (Agent.ID existingAgent)
                       (Agent.Name existingAgent)
                       (AgentInfo.Hostname info)
                       ip
                       (AgentInfo.OS info)
                       (AgentInfo.Arch info)
                       (AgentInfo.Version info)
                       1
                       now
                       (Agent.CreatedAt existingAgent)
                       now in
            match UpdateById fault st existingAgent with
            | Err e => (Err e, st)
            | Ok st => (Ok existingAgent, logInfo "agent re-registered" st)
            end
        | Err _ =>
            let agent :=
              Agent.mk (AgentInfo.ID info)
                       (AgentInfo.Name info)
                       (AgentInfo.Hostname info)
                       ip
                       (AgentInfo.OS info)
                       (AgentInfo.Arch info)
                       (AgentInfo.Version info)
                       1
                       now
                       now
                       now in
            match Create fault st agent with
            | Err e => (Err e, st)
            | Ok st => (Ok agent, logInfo "agent registered successfully" st)
            end
        end
  end.

End Registry.

(** ** Metric ingestion *)

(** The payloads of the [protocol] package, with the fields the ingester
    copies.  Numeric fields are integers here: the ingester only moves
    them. *)
Module protocol.

Inductive MetricType :=
| MetricTypeCPU
| MetricTypeMemory
| MetricTypeDisk
| MetricTypeNetwork
| MetricTypeNetworkConnection
| MetricTypeDiskIO
| MetricTypeHost
| MetricTypeGPU
| MetricTypeTemperature
| MetricTypeMonitor
| MetricTypeOther (name : string).

Module CPUData.
Record t := mk { UsagePercent : Z; LogicalCores : Z; PhysicalCores : Z;
                 ModelName : string }.
End CPUData.

Module MemoryData.
Record t := mk { Total : Z; Used : Z; Free : Z; UsagePercent : Z;
                 SwapTotal : Z; SwapUsed : Z; SwapFree : Z }.
End MemoryData.

Module DiskData.
Record t := mk { MountPoint : string; Total : Z; Used : Z; Free : Z;
                 UsagePercent : Z }.
End DiskData.

Module NetworkData.
Record t := mk { Interface : string; BytesSentRate : Z; BytesRecvRate : Z;
                 BytesSentTotal : Z; BytesRecvTotal : Z }.
End NetworkData.

Module NetworkConnectionData.
Record t := mk { Established : Z; SynSent : Z; SynRecv : Z; FinWait1 : Z;
                 FinWait2 : Z; TimeWait : Z; Close : Z; CloseWait : Z;
                 LastAck : Z; Listen : Z; Closing : Z; Total : Z }.
End NetworkConnectionData.

Module DiskIOData.
Record t := mk { Device : string; ReadCount : Z; WriteCount : Z;
                 ReadBytes : Z; WriteBytes : Z; ReadBytesRate : Z;
                 WriteBytesRate : Z; ReadTime : Z; WriteTime : Z; IoTime : Z;
                 IopsInProgress : Z }.
End DiskIOData.

Module HostInfoData.
Record t := mk { OS : string; Platform : string; PlatformVersion : string;
                 KernelVersion : string; KernelArch : string; Uptime : Z;
                 BootTime : Z; Procs : Z }.
End HostInfoData.

Module GPUData.
Record t := mk { Index : Z; Name : string; Utilization : Z; MemoryTotal : Z;
                 MemoryUsed : Z; MemoryFree : Z; Temperature : Z;
                 PowerUsage : Z; FanSpeed : Z }.
End GPUData.

Module TemperatureData.
Record t := mk { SensorKey : string; Temperature : Z }.
End TemperatureData.

Module MonitorData.
Record t := mk { ID : string; Type_ : string; Target : string;
                 Status : string; StatusCode : Z; ResponseTime : Z;
                 Error : string; Message : string; ContentMatch : bool;
                 CertExpiryTime : Z; CertDaysLeft : Z; CheckedAt : Z }.
End MonitorData.

(** A [json.RawMessage], represented by what [json.Unmarshal] makes of it at
    each of the types [HandleMetricData] decodes into.  A disk I/O payload
    decodes into a slice of pointers, whose elements may be nil. *)
Record RawMessage := mkRawMessage {
  asCPUData : result CPUData.t;
  asMemoryData : result MemoryData.t;
  asDiskDataList : result (list DiskData.t);
  asNetworkDataList : result (list NetworkData.t);
  asNetworkConnectionData : result NetworkConnectionData.t;
  asDiskIODataList : result (list (option DiskIOData.t));
  asHostInfoData : result HostInfoData.t;
  asGPUDataList : result (list GPUData.t);
  asTemperatureDataList : result (list TemperatureData.t);
  asMonitorDataList : result (list MonitorData.t)
}.

End protocol.

(** The rows of the raw metric tables ([models] package). *)
Module models.

Module CPUMetric.
Record t := mk { AgentID : string; UsagePercent : Z; LogicalCores : Z;
                 PhysicalCores : Z; ModelName : string; Timestamp : Z }.
End CPUMetric.

Module MemoryMetric.
Record t := mk { AgentID : string; Total : Z; Used : Z; Free : Z;
                 UsagePercent : Z; SwapTotal : Z; SwapUsed : Z; SwapFree : Z;
                 Timestamp : Z }.
End MemoryMetric.

Module DiskMetric.
Record t := mk { AgentID : string; MountPoint : string; Total : Z; Used : Z;
                 Free : Z; UsagePercent : Z; Timestamp : Z }.
End DiskMetric.

Module NetworkMetric.
Record t := mk { AgentID : string; Interface : string; BytesSentRate : Z;
                 BytesRecvRate : Z; BytesSentTotal : Z; BytesRecvTotal : Z;
                 Timestamp : Z }.
End NetworkMetric.

Module NetworkConnectionMetric.
Record t := mk { AgentID : string; Established : Z; SynSent : Z; SynRecv : Z;
                 FinWait1 : Z; FinWait2 : Z; TimeWait : Z; Close : Z;
                 CloseWait : Z; LastAck : Z; Listen : Z; Closing : Z;
                 Total : Z; Timestamp : Z }.
End NetworkConnectionMetric.

Module DiskIOMetric.
Record t := mk { AgentID : string; Device : string; ReadCount : Z;
                 WriteCount : Z; ReadBytes : Z; WriteBytes : Z;
                 ReadBytesRate : Z; WriteBytesRate : Z; ReadTime : Z;
                 WriteTime : Z; IoTime : Z; IopsInProgress : Z;
                 Timestamp : Z }.
End DiskIOMetric.

Module HostMetric.
Record t := mk { AgentID : string; OS : string; Platform : string;
                 PlatformVersion : string; KernelVersion : string;
                 KernelArch : string; Uptime : Z; BootTime : Z; Procs : Z;
                 Timestamp : Z }.
End HostMetric.

Module GPUMetric.
Record t := mk { AgentID : string; Index : Z; Name : string; Utilization : Z;
                 MemoryTotal : Z; MemoryUsed : Z; MemoryFree : Z;
                 Temperature : Z; PowerDraw : Z; FanSpeed : Z;
                 PerformanceState : string; Timestamp : Z }.
End GPUMetric.

Module TemperatureMetric.
Record t := mk { AgentID : string; SensorKey : string; SensorLabel : string;
                 Temperature : Z; Timestamp : Z }.
End TemperatureMetric.

Module MonitorMetric.
Record t := mk { AgentId : string; MonitorId : string; Type_ : string;
                 Target : string; Status : string; StatusCode : Z;
                 ResponseTime : Z; Error : string; Message : string;
                 ContentMatch : bool; CertExpiryTime : Z; CertDaysLeft : Z;
                 Timestamp : Z }.
End MonitorMetric.

(** A row of any of the raw tables. *)
Inductive MetricRow :=
| CPURow (m : CPUMetric.t)
| MemoryRow (m : MemoryMetric.t)
| DiskRow (m : DiskMetric.t)
| NetworkRow (m : NetworkMetric.t)
| NetworkConnectionRow (m : NetworkConnectionMetric.t)
| DiskIORow (m : DiskIOMetric.t)
| HostRow (m : HostMetric.t)
| GPURow (m : GPUMetric.t)
| TemperatureRow (m : TemperatureMetric.t)
| MonitorRow (m : MonitorMetric.t).

Definition timestamp (row : MetricRow) : Z :=
  match row with
  | CPURow m => CPUMetric.Timestamp m
  | MemoryRow m => MemoryMetric.Timestamp m
  | DiskRow m => DiskMetric.Timestamp m
  | NetworkRow m => NetworkMetric.Timestamp m
  | NetworkConnectionRow m => NetworkConnectionMetric.Timestamp m
  | DiskIORow m => DiskIOMetric.Timestamp m
  | HostRow m => HostMetric.Timestamp m
  | GPURow m => GPUMetric.Timestamp m
  | TemperatureRow m => TemperatureMetric.Timestamp m
  | MonitorRow m => MonitorMetric.Timestamp m
  end.

End models.

Module Ingest.

Import protocol models.

(** The raw tables (rows in insertion order), the outcome of the repository
    writes still to come (head first, [Some e] for a write the database
    refuses; once the list is used up, writes succeed), and the error log. *)
Record State := mkState {
  rows : list MetricRow;
  faults : list (option string);
  logs : list string
}.

(** Modelled from the spec: the [metricRepo.Save<Kind>Metric] methods are
    missing here; each inserts one immutable raw row, or returns the error
    of the database and inserts nothing. *)
Definition Save (row : MetricRow) (st : State) : result unit * State :=
  match faults st with
  | Some e :: rest => (Err e, mkState (rows st) rest (logs st))
  | None :: rest => (Ok tt, mkState (rows st ++ [row]) rest (logs st))
  | [] => (Ok tt, mkState (rows st ++ [row]) [] (logs st))
  end.

Definition logError (msg : string) (st : State) : State :=
  mkState (rows st) (faults st) (logs st ++ [msg]).

Definition logWarn (msg : string) (st : State) : State :=
  mkState (rows st) (faults st) (logs st ++ [msg]).

(** How a call of [HandleMetricData] ends: it returns its error result, or
    it panics on a nil pointer. *)
Inductive outcome :=
| Returned (err : result unit)
| Panicked.

(** The rows built in the ten cases of the [switch]. *)
Definition cpuMetric (now : Z) (agentID : string) (cpuData : CPUData.t) :=
  CPUMetric.mk agentID (CPUData.UsagePercent cpuData)
    (CPUData.LogicalCores cpuData) (CPUData.PhysicalCores cpuData)
    (CPUData.ModelName cpuData) now.

Definition memoryMetric (now : Z) (agentID : string) (memData : MemoryData.t) :=
  MemoryMetric.mk agentID (MemoryData.Total memData) (MemoryData.Used memData)
    (MemoryData.Free memData) (MemoryData.UsagePercent memData)
    (MemoryData.SwapTotal memData) (MemoryData.SwapUsed memData)
    (MemoryData.SwapFree memData) now.

Definition diskMetric (now : Z) (agentID : string) (diskData : DiskData.t) :=
  DiskMetric.mk agentID (DiskData.MountPoint diskData)
    (DiskData.Total diskData) (DiskData.Used diskData)
    (DiskData.Free diskData) (DiskData.UsagePercent diskData) now.

Definition networkMetric (now : Z) (agentID : string) (netData : NetworkData.t) :=
  NetworkMetric.mk agentID (NetworkData.Interface netData)
    (NetworkData.BytesSentRate netData) (NetworkData.BytesRecvRate netData)
    (NetworkData.BytesSentTotal netData) (NetworkData.BytesRecvTotal netData)
    now.

Definition networkConnectionMetric (now : Z) (agentID : string)
    (connData : NetworkConnectionData.t) :=
  NetworkConnectionMetric.mk agentID
    (NetworkConnectionData.Established connData)
    (NetworkConnectionData.SynSent connData)
    (NetworkConnectionData.SynRecv connData)
    (NetworkConnectionData.FinWait1 connData)
    (NetworkConnectionData.FinWait2 connData)
    (NetworkConnectionData.TimeWait connData)
    (NetworkConnectionData.Close connData)
    (NetworkConnectionData.CloseWait connData)
    (NetworkConnectionData.LastAck connData)
    (NetworkConnectionData.Listen connData)
    (NetworkConnectionData.Closing connData)
    (NetworkConnectionData.Total connData) now.

Definition diskIOMetric (now : Z) (agentID : string)
    (diskIOData : DiskIOData.t) :=
  DiskIOMetric.mk agentID (DiskIOData.Device diskIOData)
    (DiskIOData.ReadCount diskIOData) (DiskIOData.WriteCount diskIOData)
    (DiskIOData.ReadBytes diskIOData) (DiskIOData.WriteBytes diskIOData)
    (DiskIOData.ReadBytesRate diskIOData)
    (DiskIOData.WriteBytesRate diskIOData)
    (DiskIOData.ReadTime diskIOData) (DiskIOData.WriteTime diskIOData)
    (DiskIOData.IoTime diskIOData) (DiskIOData.IopsInProgress diskIOData) now.

Definition hostMetric (now : Z) (agentID : string) (hostData : HostInfoData.t) :=
  HostMetric.mk agentID (HostInfoData.OS hostData)
    (HostInfoData.Platform hostData) (HostInfoData.PlatformVersion hostData)
    (HostInfoData.KernelVersion hostData) (HostInfoData.KernelArch hostData)
    (HostInfoData.Uptime hostData) (HostInfoData.BootTime hostData)
    (HostInfoData.Procs hostData) now.

Definition gpuMetric (now : Z) (agentID : string) (gpuData : GPUData.t) :=
  GPUMetric.mk agentID (GPUData.Index gpuData) (GPUData.Name gpuData)
    (GPUData.Utilization gpuData) (GPUData.MemoryTotal gpuData)
    (GPUData.MemoryUsed gpuData) (GPUData.MemoryFree gpuData)
    (GPUData.Temperature gpuData) (GPUData.PowerUsage gpuData)
    (GPUData.FanSpeed gpuData) "" now.

Definition temperatureMetric (now : Z) (agentID : string)
    (tempData : TemperatureData.t) :=
  TemperatureMetric.mk agentID (TemperatureData.SensorKey tempData)
    (TemperatureData.SensorKey tempData)
    (TemperatureData.Temperature tempData) now.

(** The monitor row takes no clock: its timestamp is the probe's
    [CheckedAt]. *)
Definition monitorMetric (agentID : string) (monitorData : MonitorData.t) :=
  MonitorMetric.mk agentID (MonitorData.ID monitorData)
    (MonitorData.Type_ monitorData) (MonitorData.Target monitorData)
    (MonitorData.Status monitorData) (MonitorData.StatusCode monitorData)
    (MonitorData.ResponseTime monitorData) (MonitorData.Error monitorData)
    (MonitorData.Message monitorData) (MonitorData.ContentMatch monitorData)
    (MonitorData.CertExpiryTime monitorData)
    (MonitorData.CertDaysLeft monitorData)
    (MonitorData.CheckedAt monitorData).

(** One turn of a [for _, x := range list] loop: save the row, log the
    error if there is one, go on. *)
Definition saveOrLog (msg : string) (row : MetricRow) (st : State) : State :=
  match Save row st with
  | (Err _, st) => logError msg st
  | (Ok _, st) => st
  end.

(** The loop over a slice of values. *)
Fixpoint saveEach {D : Type} (mkRow : D -> MetricRow) (msg : string)
    (l : list D) (st : State) : State :=
  match l with
  | [] => st
  | d :: rest => saveEach mkRow msg rest (saveOrLog msg (mkRow d) st)
  end.

(** The loop over a slice of pointers (disk I/O): reading a field of a nil
    element panics; the flag tells whether the loop ran to its end. *)
Fixpoint saveEachPtr {D : Type} (mkRow : D -> MetricRow) (msg : string)
    (l : list (option D)) (st : State) : bool * State :=
  match l with
  | [] => (true, st)
  | None :: _ => (false, st)
  | Some d :: rest => saveEachPtr mkRow msg rest (saveOrLog msg (mkRow d) st)
  end.

(** [HandleMetricData]; [now] is the reading of [time.Now().UnixMilli()]
    taken on entry. *)
Definition HandleMetricData (now : Z) (st : State) (agentID : string)
    (metricType : MetricType) (data : RawMessage) : outcome * State :=
  match metricType with
  | MetricTypeCPU =>
      match asCPUData data with
      | Err e => (Returned (Err e), st)
      | Ok cpuData =>
          let '(r, st) := Save (CPURow (cpuMetric now agentID cpuData)) st in
          (Returned r, st)
      end
  | MetricTypeMemory =>
      match asMemoryData data with
      | Err e => (Returned (Err e), st)
      | Ok memData =>
          let '(r, st) := Save (MemoryRow (memoryMetric now agentID memData)) st in
          (Returned r, st)
      end
  | MetricTypeDisk =>
      match asDiskDataList data with
      | Err e => (Returned (Err e), st)
      | Ok diskDataList =>
          (Returned (Ok tt),
           saveEach (fun d => DiskRow (diskMetric now agentID d))
             "failed to save disk metric" diskDataList st)
      end
  | MetricTypeNetwork =>
      match asNetworkDataList data with
      | Err e => (Returned (Err e), st)
      | Ok networkDataList =>
          (Returned (Ok tt),
           saveEach (fun d => NetworkRow (networkMetric now agentID d))
             "failed to save network metric" networkDataList st)
      end
  | MetricTypeNetworkConnection =>
      match asNetworkConnectionData data with
      | Err e => (Returned (Err e), st)
      | Ok connData =>
          let '(r, st) :=
            Save (NetworkConnectionRow
                    (networkConnectionMetric now agentID connData)) st in
          (Returned r, st)
      end
  | MetricTypeDiskIO =>
      match asDiskIODataList data with
      | Err e => (Returned (Err e), st)
      | Ok diskIODataList =>
          match saveEachPtr (fun d => DiskIORow (diskIOMetric now agentID d))
                  "failed to save disk io metric" diskIODataList st with
          | (true, st) => (Returned (Ok tt), st)
          | (false, st) => (Panicked, st)
          end
      end
  | MetricTypeHost =>
      match asHostInfoData data with
      | Err e => (Returned (Err e), st)
      | Ok hostData =>
          let '(r, st) := Save (HostRow (hostMetric now agentID hostData)) st in
          (Returned r, st)
      end
  | MetricTypeGPU =>
      match asGPUDataList data with
      | Err e => (Returned (Err e), st)
      | Ok gpuDataList =>
          (Returned (Ok tt),
           saveEach (fun d => GPURow (gpuMetric now agentID d))
             "failed to save gpu metric" gpuDataList st)
      end
  | MetricTypeTemperature =>
      match asTemperatureDataList data with
      | Err e => (Returned (Err e), st)
      | Ok tempDataList =>
          (Returned (Ok tt),
           saveEach (fun d => TemperatureRow (temperatureMetric now agentID d))
             "failed to save temperature metric" tempDataList st)
      end
  | MetricTypeMonitor =>
      match asMonitorDataList data with
      | Err e => (Returned (Err e), st)
      | Ok monitorDataList =>
          (Returned (Ok tt),
           saveEach (fun d => MonitorRow (monitorMetric agentID d))
             "failed to save monitor metric" monitorDataList st)
      end
  | MetricTypeOther _ =>
      (Returned (Ok tt), logWarn "unknown metric type" st)
  end.

(** The array-carrying kinds, and the rows of a frame of such a kind: one
    per element of the decoded array, in order ([None] for a nil element,
    from which no row can be built). *)
Definition isArrayKind (metricType : MetricType) : bool :=
  match metricType with
  | MetricTypeDisk | MetricTypeNetwork | MetricTypeDiskIO | MetricTypeGPU
  | MetricTypeTemperature | MetricTypeMonitor => true
  | _ => false
  end.

Definition elementRows (now : Z) (agentID : string) (metricType : MetricType)
    (data : RawMessage) : result (list (option MetricRow)) :=
  let each {D} (mkRow : D -> MetricRow) (r : result (list D)) :=
    match r with
    | Ok l => Ok (map (fun d => Some (mkRow d)) l)
    | Err e => Err e
    end in
  match metricType with
  | MetricTypeDisk =>
      each (fun d => DiskRow (diskMetric now agentID d)) (asDiskDataList data)
  | MetricTypeNetwork =>
      each (fun d => NetworkRow (networkMetric now agentID d))
           (asNetworkDataList data)
  | MetricTypeDiskIO =>
      match asDiskIODataList data with
      | Ok l =>
          Ok (map (fmap (fun d => DiskIORow (diskIOMetric now agentID d))) l)
      | Err e => Err e
      end
  | MetricTypeGPU =>
      each (fun d => GPURow (gpuMetric now agentID d)) (asGPUDataList data)
  | MetricTypeTemperature =>
      each (fun d => TemperatureRow (temperatureMetric now agentID d))
           (asTemperatureDataList data)
  | MetricTypeMonitor =>
      each (fun d => MonitorRow (monitorMetric agentID d))
           (asMonitorDataList data)
  | _ => Err "not an array-carrying kind"
  end.

(** The outcomes of the next [n] writes: those foretold by the state, then
    successes. *)
Definition outcomes (fs : list (option string)) (n : nat)
    : list (option string) :=
  take n fs ++ replicate (n - length fs) None.

(** The rows that reach the table when the rows [l] are written one after
    the other against the write outcomes [fs]: those whose write is not
    refused, in order. *)
Definition accepted (fs : list (option string)) (l : list MetricRow)
    : list MetricRow :=
  map snd (filter (fun p => fst p = None) (zip (outcomes fs (length l)) l)).

(** The number of refused writes among the next [n]. *)
Definition refusedCount (fs : list (option string)) (n : nat) : nat :=
  length (filter (fun f => f <> None) (outcomes fs n)).

(** How the timestamp of a stored row relates to the frame it comes from:
    the server's clock, except for a synthetic-monitor result, which carries
    the [CheckedAt] of the element it is built from. *)
Definition stampedFor (now : Z) (agentID : string) (metricType : MetricType)
    (data : RawMessage) (row : MetricRow) : Prop :=
  match metricType with
  | MetricTypeMonitor =>
      ∃ monitorDataList monitorData,
        asMonitorDataList data = Ok monitorDataList ∧
        monitorData ∈ monitorDataList ∧
        row = MonitorRow (monitorMetric agentID monitorData) ∧
        timestamp row = MonitorData.CheckedAt monitorData
  | _ => timestamp row = now
  end.

(** The agent a stored row is attributed to. *)
Definition agentID (row : MetricRow) : string :=
  match row with
  | CPURow m => CPUMetric.AgentID m
  | MemoryRow m => MemoryMetric.AgentID m
  | DiskRow m => DiskMetric.AgentID m
  | NetworkRow m => NetworkMetric.AgentID m
  | NetworkConnectionRow m => NetworkConnectionMetric.AgentID m
  | DiskIORow m => DiskIOMetric.AgentID m
  | HostRow m => HostMetric.AgentID m
  | GPURow m => GPUMetric.AgentID m
  | TemperatureRow m => TemperatureMetric.AgentID m
  | MonitorRow m => MonitorMetric.AgentId m
  end.

(** The error of [json.Unmarshal] at the type the kind of the frame decodes
    into, if decoding fails. *)
Definition decodeError (metricType : MetricType) (data : RawMessage)
    : option string :=
  let error {A} (r : result A) :=
    match r with Ok _ => None | Err e => Some e end in
  match metricType with
  | MetricTypeCPU => error (asCPUData data)
  | MetricTypeMemory => error (asMemoryData data)
  | MetricTypeDisk => error (asDiskDataList data)
  | MetricTypeNetwork => error (asNetworkDataList data)
  | MetricTypeNetworkConnection => error (asNetworkConnectionData data)
  | MetricTypeDiskIO => error (asDiskIODataList data)
  | MetricTypeHost => error (asHostInfoData data)
  | MetricTypeGPU => error (asGPUDataList data)
  | MetricTypeTemperature => error (asTemperatureDataList data)
  | MetricTypeMonitor => error (asMonitorDataList data)
  | MetricTypeOther _ => None
  end.

(** The row of a frame of a kind that carries a single value (CPU, memory,
    connection totals, host snapshot). *)
Definition scalarRow (now : Z) (agent : string) (metricType : MetricType)
    (data : RawMessage) : result MetricRow :=
  let one {D} (mkRow : D -> MetricRow) (r : result D) :=
    match r with Ok d => Ok (mkRow d) | Err e => Err e end in
  match metricType with
  | MetricTypeCPU =>
      one (fun d => CPURow (cpuMetric now agent d)) (asCPUData data)
  | MetricTypeMemory =>
      one (fun d => MemoryRow (memoryMetric now agent d)) (asMemoryData data)
  | MetricTypeNetworkConnection =>
      one (fun d => NetworkConnectionRow (networkConnectionMetric now agent d))
          (asNetworkConnectionData data)
  | MetricTypeHost =>
      one (fun d => HostRow (hostMetric now agent d)) (asHostInfoData data)
  | _ => Err "not a single-value kind"
  end.

End Ingest.

(** ** Property store *)

Module PropertyStore.

(** [models.Property]. *)
Module Property.
Record t := mk {
  ID : string;
  Name : string;
  Value : string;
  CreatedAt : Z;
  UpdatedAt : Z
}.
End Property.

(** [models.PublicIPConfig]. *)
Module PublicIPConfig.
Record t := mk {
  Enabled : bool;
  IntervalSeconds : Z;
  IPv4Scope : string;
  IPv4AgentIDs : list string;
  IPv6Scope : string;
  IPv6AgentIDs : list string;
  IPv4Enabled : bool;
  IPv6Enabled : bool;
  IPv4APIs : list string;
  IPv6APIs : list string
}.

(** The zero value of [var config models.PublicIPConfig]. *)
Definition zero : t := mk false 0 "" [] "" [] false false [] [].
End PublicIPConfig.

Definition PropertyIDPublicIPConfig : string := "public_ip_config".

Definition defaultPublicIPv4APIs : list string :=
  ["https://myip.ipip.net";
   "https://ddns.oray.com/checkip";
   "https://ip.3322.net";
   "https://4.ipw.cn";
   "https://v4.yinghualuo.cn/bejson"]%string.

Definition defaultPublicIPv6APIs : list string :=
  ["https://speed.neu6.edu.cn/getIP.php";
   "https://v6.ident.me";
   "https://6.ipw.cn";
   "https://v6.yinghualuo.cn/bejson"]%string.

(** The [properties] table, keyed by the primary key [ID], and the
    in-process cache: each entry holds a property and the instant (ms) at
    which it expires. *)
Record State := mkState {
  table : gmap string Property.t;
  cache : gmap string (Property.t * Z)
}.

(** Modelled from the spec: [repo.PropertyRepo] is missing here; its
    [FindById] returns the row of the key or a not-found error. *)
Definition FindById (st : State) (id : string) : result Property.t :=
  match table st !! id with
  | Some property => Ok property
  | None => Err "record not found"
  end.

(** Modelled from the spec: [PropertyRepo.Save] (missing here) writes the
    row under its primary key, replacing the one that is there.  [fault] is
    the error of a write the database refuses; a refused write changes
    nothing. *)
Definition Save (fault : option string) (st : State) (property : Property.t)
    : result State :=
  match fault with
  | Some e => Err e
  | None =>
      Ok (mkState (<[Property.ID property := property]> (table st)) (cache st))
  end.

(** Modelled from the spec: the cache of [go-orz/cache] is an in-process
    cache with per-entry expiry.  [cacheGet] is its [Get]: it finds an entry
    that has not expired at [now]. *)
Definition cacheGet (now : Z) (st : State) (id : string) : option Property.t :=
  match cache st !! id with
  | Some (property, expiry) => if now <? expiry then Some property else None
  | None => None
  end.

(** Modelled from the spec: the cache's [Set] stores an entry that lives
    for [ttl] ms. *)
Definition cacheSet (now : Z) (st : State) (id : string)
    (property : Property.t) (ttl : Z) : State :=
  mkState (table st) (<[id := (property, now + ttl)]> (cache st)).

(** Modelled from the spec: the cache's [Delete] drops the entry of a key
    (on-demand invalidation). *)
Definition cacheDelete (st : State) (id : string) : State :=
  mkState (table st) (delete id (cache st)).

Definition hour : Z := 3600000.

(** [Get]; [now] is the clock at the call. *)
Definition Get (now : Z) (st : State) (id : string)
    : result Property.t * State :=
  match cacheGet now st id with
  | Some property => (Ok property, st)
  | None =>
      match FindById st id with
      | Err e => (Err e, st)
      | Ok property => (Ok property, cacheSet now st id property hour)
      end
  end.

Section WithJSON.

(** The values written through [Set], with [json.Marshal] on them, and a
    decoding target with [json.Unmarshal] into it. *)
Variable V : Type.
Variable marshal : V -> result string.
Variable T : Type.
Variable unmarshal : string -> T -> result T.

(** [Set]; [now1] and [now2] are the two readings of [time.Now()], [fault]
    the error of [repo.Save], if it fails. *)
Definition Set_ (now1 now2 : Z) (fault : option string) (st : State)
    (id name : string) (value : V) : result unit * State :=
  match marshal value with
  | Err e => (Err e, st)
  | Ok jsonValue =>
      let property := Property.mk id name jsonValue now1 now2 in
      match Save fault st property with
      | Err e => (Err e, st)
      | Ok st => (Ok tt, cacheDelete st id)
      end
  end.

(** [GetValue]: the result is the target after decoding. *)
Definition GetValue (now : Z) (st : State) (id : string) (target : T)
    : result T * State :=
  match Get now st id with
  | (Err e, st) => (Err e, st)
  | (Ok property, st) =>
      if String.eqb (Property.Value property) "" then (Ok target, st)
      else (unmarshal (Property.Value property) target, st)
  end.

End WithJSON.

Arguments Set_ {V} _ _ _ _ _ _ _ _.
Arguments GetValue {T} _ _ _ _ _.

Definition applyPublicIPConfigDefaults (config : PublicIPConfig.t)
    : PublicIPConfig.t :=
  let IntervalSeconds :=
    if PublicIPConfig.IntervalSeconds config <=? 0 then 300
    else PublicIPConfig.IntervalSeconds config in
  let IPv4Scope :=
    if String.eqb (PublicIPConfig.IPv4Scope config) "" then "all"%string
    else PublicIPConfig.IPv4Scope config in
  let IPv6Scope :=
    if String.eqb (PublicIPConfig.IPv6Scope config) "" then "all"%string
    else PublicIPConfig.IPv6Scope config in
  let IPv4Scope :=
    if negb (String.eqb IPv4Scope "all") && negb (String.eqb IPv4Scope "custom")
    then "all"%string else IPv4Scope in
  let IPv6Scope :=
    if negb (String.eqb IPv6Scope "all") && negb (String.eqb IPv6Scope "custom")
    then "all"%string else IPv6Scope in
  let IPv4APIs :=
    if (length (PublicIPConfig.IPv4APIs config) =? 0)%nat
    then [] ++ defaultPublicIPv4APIs else PublicIPConfig.IPv4APIs config in
  let IPv6APIs :=
    if (length (PublicIPConfig.IPv6APIs config) =? 0)%nat
    then [] ++ defaultPublicIPv6APIs else PublicIPConfig.IPv6APIs config in
  PublicIPConfig.mk (PublicIPConfig.Enabled config) IntervalSeconds
    IPv4Scope (PublicIPConfig.IPv4AgentIDs config)
    IPv6Scope (PublicIPConfig.IPv6AgentIDs config)
    (PublicIPConfig.IPv4Enabled config) (PublicIPConfig.IPv6Enabled config)
    IPv4APIs IPv6APIs.

(** [GetPublicIPConfig]; [unmarshal] is [json.Unmarshal] into a
    [*models.PublicIPConfig]. *)
Definition GetPublicIPConfig
    (unmarshal : string -> PublicIPConfig.t -> result PublicIPConfig.t)
    (now : Z) (st : State) : result PublicIPConfig.t * State :=
  match GetValue unmarshal now st PropertyIDPublicIPConfig
          PublicIPConfig.zero with
  | (Err e, st) => (Err ("获取公网 IP 采集配置失败: " ++ e), st)
  | (Ok config, st) => (Ok (applyPublicIPConfigDefaults config), st)
  end.

(** The stored configuration a read decodes: the zero value when the
    property's value is empty. *)
Definition storedConfig
    (unmarshal : string -> PublicIPConfig.t -> result PublicIPConfig.t)
    (property : Property.t) : result PublicIPConfig.t :=
  if String.eqb (Property.Value property) "" then Ok PublicIPConfig.zero
  else unmarshal (Property.Value property) PublicIPConfig.zero.

(** Every cache entry, expired or not, is the row the table holds under its
    key. *)
Definition coherent (st : State) : Prop :=
  ∀ id property expiry,
    cache st !! id = Some (property, expiry) ->
    table st !! id = Some property.

(** Modelled from the spec: [PropertyRepo.ExistsById] (missing here) tells
    whether the table holds a row under the key.  [fault] is the error of a
    read the database refuses. *)
Definition ExistsById (fault : option string) (st : State) (id : string)
    : result bool :=
  match fault with
  | Some e => Err e
  | None => Ok (bool_decide (is_Some (table st !! id)))
  end.

(** [defaultPropertyConfig]. *)
Module defaultPropertyConfig.
Record t (V : Type) := mk {
  ID : string;
  Name : string;
  Value : V
}.
Arguments mk {V} _ _ _.
Arguments ID {V} _.
Arguments Name {V} _.
Arguments Value {V} _.
End defaultPropertyConfig.

(** What one call of [initializeProperty] meets: the errors of the reads
    and writes the database refuses, and the clock readings of [Set]. *)
Record InitEnv := mkInitEnv {
  existsFault : option string;
  saveFault : option string;
  now1 : Z;
  now2 : Z
}.

Section Initialize.

Variable V : Type.
Variable marshal : V -> result string.

(** [initializeProperty]. *)
Definition initializeProperty (env : InitEnv) (st : State)
    (config : defaultPropertyConfig.t V) : result unit * State :=
  match ExistsById (existsFault env) st (defaultPropertyConfig.ID config) with
  | Err e => (Err e, st)
  | Ok true => (Ok tt, st)
  | Ok false =>
      match Set_ marshal (now1 env) (now2 env) (saveFault env) st
              (defaultPropertyConfig.ID config)
              (defaultPropertyConfig.Name config)
              (defaultPropertyConfig.Value config) with
      | (Err e, st) => (Err e, st)
      | (Ok _, st) => (Ok tt, st)
      end
  end.

(** The list literal of [InitializeDefaultConfigs]: the six keys and their
    names, in order; [valueOf id] is the default value written for the
    key. *)
Definition defaultConfigs (valueOf : string -> V)
    : list (defaultPropertyConfig.t V) :=
  [defaultPropertyConfig.mk "system_config" "系统配置"
     (valueOf "system_config");
   defaultPropertyConfig.mk "public_ip_config" "公网 IP 采集配置"
     (valueOf "public_ip_config");
   defaultPropertyConfig.mk "notification_channels" "通知渠道配置"
     (valueOf "notification_channels");
   defaultPropertyConfig.mk "alert_config" "告警配置"
     (valueOf "alert_config");
   defaultPropertyConfig.mk "dns_providers" "DNS 服务商配置"
     (valueOf "dns_providers");
   defaultPropertyConfig.mk "agent_install_config" "探针安装配置"
     (valueOf "agent_install_config")]%string.

(** The loop of [InitializeDefaultConfigs] over its list; [env id] is what
    the call for the key [id] meets. *)
Fixpoint initializeEach (env : string -> InitEnv) (st : State)
    (configs : list (defaultPropertyConfig.t V)) : result unit * State :=
  match configs with
  | [] => (Ok tt, st)
  | config :: rest =>
      match initializeProperty (env (defaultPropertyConfig.ID config)) st
              config with
      | (Err e, st) =>
          (Err ("初始化 " ++ defaultPropertyConfig.Name config ++ " 失败: " ++ e),
           st)
      | (Ok _, st) => initializeEach env st rest
      end
  end.

(** [InitializeDefaultConfigs]. *)
Definition InitializeDefaultConfigs (valueOf : string -> V)
    (env : string -> InitEnv) (st : State) : result unit * State :=
  initializeEach env st (defaultConfigs valueOf).

End Initialize.

Arguments initializeProperty {V} _ _ _ _.
Arguments defaultConfigs {V} _.
Arguments initializeEach {V} _ _ _ _.
Arguments InitializeDefaultConfigs {V} _ _ _ _.

(** [models.AlertNotifications], [models.AlertRules] (thresholds are
    [float64], carried as rationals) and [models.AlertConfig]. *)
Module AlertNotifications.
Record t := mk {
  TrafficEnabled : bool;
  SSHLoginSuccessEnabled : bool;
  TamperEventEnabled : bool
}.
End AlertNotifications.

Module AlertRules.
Record t := mk {
  CPUEnabled : bool; CPUThreshold : Q; CPUDuration : Z;
  MemoryEnabled : bool; MemoryThreshold : Q; MemoryDuration : Z;
  DiskEnabled : bool; DiskThreshold : Q; DiskDuration : Z;
  NetworkEnabled : bool; NetworkThreshold : Q; NetworkDuration : Z;
  CertEnabled : bool; CertThreshold : Q;
  ServiceEnabled : bool; ServiceDuration : Z;
  AgentOfflineEnabled : bool; AgentOfflineDuration : Z
}.
End AlertRules.

Module AlertConfig.
Record t := mk {
  Enabled : bool;
  MaskIP : bool;
  Rules : AlertRules.t;
  Notifications : AlertNotifications.t
}.
End AlertConfig.

Section AlertDefaults.

(** [json.Unmarshal] into a [map[string]json.RawMessage]: the keys of a
    JSON object with the raw text of their values. *)
Variable unmarshalObject : string -> result (gmap string string).

(** [applyAlertNotificationDefaults]. *)
Definition applyAlertNotificationDefaults (config : AlertConfig.t)
    (rawValue : string) : AlertConfig.t :=
  let defaults := AlertNotifications.mk true true true in
  let withNotifications notifications :=
    AlertConfig.mk (AlertConfig.Enabled config) (AlertConfig.MaskIP config)
      (AlertConfig.Rules config) notifications in
  if String.eqb rawValue "" then withNotifications defaults
  else
    match unmarshalObject rawValue with
    | Err _ => withNotifications defaults
    | Ok raw =>
        match raw !! "notifications"%string with
        | None => withNotifications defaults
        | Some notificationsRaw =>
            if (String.length notificationsRaw =? 0)%nat
            then withNotifications defaults
            else
              match unmarshalObject notificationsRaw with
              | Err _ => withNotifications defaults
              | Ok notificationsMap =>
                  let n := AlertConfig.Notifications config in
                  withNotifications
                    (AlertNotifications.mk
                       (match notificationsMap !! "trafficEnabled"%string with
                        | Some _ => AlertNotifications.TrafficEnabled n
                        | None => true
                        end)
                       (match notificationsMap !! "sshLoginSuccessEnabled"%string with
                        | Some _ => AlertNotifications.SSHLoginSuccessEnabled n
                        | None => true
                        end)
                       (match notificationsMap !! "tamperEventEnabled"%string with
                        | Some _ => AlertNotifications.TamperEventEnabled n
                        | None => true
                        end))
              end
        end
    end.

(** A notification flag is named by the stored JSON: the value is an
    object whose ["notifications"] member is an object that has the key. *)
Definition namesFlag (rawValue key : string) : Prop :=
  rawValue ≠ ""%string ∧
  ∃ raw notificationsRaw notificationsMap,
    unmarshalObject rawValue = Ok raw ∧
    raw !! "notifications"%string = Some notificationsRaw ∧
    unmarshalObject notificationsRaw = Ok notificationsMap ∧
    is_Some (notificationsMap !! key).

End AlertDefaults.

(** [models.DNSProviderConfig]; [C] is its [Config] object. *)
Module DNSProviderConfig.
Record t (C : Type) := mk {
  Provider : string;
  Enabled : bool;
  Config : C
}.
Arguments mk {C} _ _ _.
Arguments Provider {C} _.
Arguments Enabled {C} _.
Arguments Config {C} _.
End DNSProviderConfig.

Definition PropertyIDDNSProviders : string := "dns_providers".

Section DNSProviders.

Variable C : Type.

(** [json.Marshal] of a provider list and [json.Unmarshal] into one. *)
Variable marshalProviders : list (DNSProviderConfig.t C) -> result string.
Variable unmarshalProviders :
  string -> list (DNSProviderConfig.t C) -> result (list (DNSProviderConfig.t C)).

(** [GetDNSProviderConfigs]. *)
Definition GetDNSProviderConfigs (now : Z) (st : State)
    : result (list (DNSProviderConfig.t C)) * State :=
  match GetValue unmarshalProviders now st PropertyIDDNSProviders [] with
  | (Err e, st) => (Err ("获取 DNS 服务商配置失败: " ++ e), st)
  | (Ok providers, st) => (Ok providers, st)
  end.

(** The loop of [GetDNSProviderByType]: the first provider of the type. *)
Fixpoint findProvider (providers : list (DNSProviderConfig.t C))
    (providerType : string) : option (DNSProviderConfig.t C) :=
  match providers with
  | [] => None
  | provider :: rest =>
      if String.eqb (DNSProviderConfig.Provider provider) providerType
      then Some provider
      else findProvider rest providerType
  end.

(** [GetDNSProviderByType]. *)
Definition GetDNSProviderByType (now : Z) (st : State) (providerType : string)
    : result (DNSProviderConfig.t C) * State :=
  match GetDNSProviderConfigs now st with
  | (Err e, st) => (Err e, st)
  | (Ok providers, st) =>
      match findProvider providers providerType with
      | Some provider => (Ok provider, st)
      | None => (Err ("未找到 DNS 服务商配置: " ++ providerType), st)
      end
  end.

(** [SetDNSProviderConfigs]. *)
Definition SetDNSProviderConfigs (now1 now2 : Z) (fault : option string)
    (st : State) (providers : list (DNSProviderConfig.t C))
    : result unit * State :=
  Set_ marshalProviders now1 now2 fault st PropertyIDDNSProviders
    "DNS 服务商配置" providers.

(** The loop of [UpsertDNSProvider]: the first provider of the new one's
    type is replaced; the flag tells whether there was one. *)
Fixpoint replaceProvider (providers : list (DNSProviderConfig.t C))
    (newProvider : DNSProviderConfig.t C)
    : list (DNSProviderConfig.t C) * bool :=
  match providers with
  | [] => ([], false)
  | provider :: rest =>
      if String.eqb (DNSProviderConfig.Provider provider)
                    (DNSProviderConfig.Provider newProvider)
      then (newProvider :: rest, true)
      else
        let '(rest, found) := replaceProvider rest newProvider in
        (provider :: rest, found)
  end.

(** The list [UpsertDNSProvider] writes. *)
Definition upserted (providers : list (DNSProviderConfig.t C))
    (newProvider : DNSProviderConfig.t C) : list (DNSProviderConfig.t C) :=
  let '(providers, found) := replaceProvider providers newProvider in
  if found then providers else providers ++ [newProvider].

(** [UpsertDNSProvider]; [now] is the clock of the read, [now1], [now2]
    and [fault] are those of the [Set]. *)
Definition UpsertDNSProvider (now now1 now2 : Z) (fault : option string)
    (st : State) (newProvider : DNSProviderConfig.t C)
    : result unit * State :=
  match GetDNSProviderConfigs now st with
  | (Err e, st) =>
      if negb (String.eqb e "获取 DNS 服务商配置失败: record not found")
      then (Err e, st)
      else SetDNSProviderConfigs now1 now2 fault st (upserted [] newProvider)
  | (Ok providers, st) =>
      SetDNSProviderConfigs now1 now2 fault st (upserted providers newProvider)
  end.

(** [DeleteDNSProvider]. *)
Definition DeleteDNSProvider (now now1 now2 : Z) (fault : option string)
    (st : State) (providerType : string) : result unit * State :=
  match GetDNSProviderConfigs now st with
  | (Err e, st) => (Err e, st)
  | (Ok providers, st) =>
      SetDNSProviderConfigs now1 now2 fault st
        (filter (fun provider =>
                   DNSProviderConfig.Provider provider ≠ providerType)
                providers)
  end.

(** The JSON encoding of provider lists decodes back to the list it
    encodes, and is never the empty text. *)
Definition providersRoundTrip : Prop :=
  ∀ providers jsonValue,
    marshalProviders providers = Ok jsonValue ->
    jsonValue ≠ ""%string ∧ unmarshalProviders jsonValue [] = Ok providers.

End DNSProviders.

Arguments GetDNSProviderConfigs {C} _ _ _.
Arguments findProvider {C} _ _.
Arguments GetDNSProviderByType {C} _ _ _ _.
Arguments SetDNSProviderConfigs {C} _ _ _ _ _ _.
Arguments replaceProvider {C} _ _.
Arguments upserted {C} _ _.
Arguments UpsertDNSProvider {C} _ _ _ _ _ _ _ _.
Arguments DeleteDNSProvider {C} _ _ _ _ _ _ _ _.
Arguments providersRoundTrip {C} _ _.

End PropertyStore.

(** ** Public IP collection schedule ([PublicIPService]) *)

Module PublicIP.

Import PropertyStore.

(** The loop of [IsIPv4Target] and [IsIPv6Target] over the custom list. *)
Fixpoint listed (ids : list string) (agentID : string) : bool :=
  match ids with
  | [] => false
  | id :: rest => if String.eqb id agentID then true else listed rest agentID
  end.

(** [PublicIPConfig.IsIPv4Target]; a nil receiver is [None]. *)
Definition IsIPv4Target (c : option PublicIPConfig.t) (agentID : string)
    : bool :=
  match c with
  | None => false
  | Some c =>
      if negb (PublicIPConfig.IPv4Enabled c) then false
      else if negb (String.eqb (PublicIPConfig.IPv4Scope c) "custom") then true
      else listed (PublicIPConfig.IPv4AgentIDs c) agentID
  end.

(** [PublicIPConfig.IsIPv6Target]. *)
Definition IsIPv6Target (c : option PublicIPConfig.t) (agentID : string)
    : bool :=
  match c with
  | None => false
  | Some c =>
      if negb (PublicIPConfig.IPv6Enabled c) then false
      else if negb (String.eqb (PublicIPConfig.IPv6Scope c) "custom") then true
      else listed (PublicIPConfig.IPv6AgentIDs c) agentID
  end.

(** [protocol.PublicIPConfigData], with the fields
    [sendConfigToOnlineAgents] fills. *)
Module PublicIPConfigData.
Record t := mk {
  Enabled : bool;
  IntervalSeconds : Z;
  IPv4Enabled : bool;
  IPv6Enabled : bool;
  IPv4APIs : list string;
  IPv6APIs : list string
}.
End PublicIPConfigData.

(** The data [sendConfigToOnlineAgents] builds for an agent. *)
Definition dataFor (config : PublicIPConfig.t) (agentID : string)
    : PublicIPConfigData.t :=
  let ipv4Enabled := IsIPv4Target (Some config) agentID in
  let ipv6Enabled := IsIPv6Target (Some config) agentID in
  PublicIPConfigData.mk (PublicIPConfig.Enabled config)
    (PublicIPConfig.IntervalSeconds config) ipv4Enabled ipv6Enabled
    (PublicIPConfig.IPv4APIs config) (PublicIPConfig.IPv6APIs config).

(** What a push leaves behind: the messages handed to the connection
    manager that it delivered, oldest first, as agent and encoded message,
    and the log lines. *)
Record Outbox := mkOutbox {
  delivered : list (string * string);
  logs : list string
}.

Section Push.

(** [json.Marshal] of the outbound message of type ["public_ip_config"]
    around the data, and the error of [wsManager.SendToClient] for an agent,
    if it fails. *)
Variable marshal : PublicIPConfigData.t -> result string.
Variable sendFault : string -> option string.

(** The loop of [sendConfigToOnlineAgents] over [agentIDs]. *)
Fixpoint sendEach (config : PublicIPConfig.t) (agentIDs : list string)
    (out : Outbox) : Outbox :=
  match agentIDs with
  | [] => out
  | agentID :: rest =>
      if String.eqb agentID "" then sendEach config rest out
      else
        let ipv4Enabled := IsIPv4Target (Some config) agentID in
        let ipv6Enabled := IsIPv6Target (Some config) agentID in
        if negb ipv4Enabled && negb ipv6Enabled then sendEach config rest out
        else
          match marshal (dataFor config agentID) with
          | Err e =>
              mkOutbox (delivered out)
                (logs out ++ ["构建公网 IP 配置消息失败"%string])
          | Ok msgData =>
              match sendFault agentID with
              | Some e =>
                  sendEach config rest
                    (mkOutbox (delivered out)
                       (logs out ++ ["发送公网 IP 配置失败"%string]))
              | None =>
                  sendEach config rest
                    (mkOutbox (delivered out ++ [(agentID, msgData)])
                       (logs out))
              end
          end
  end.

(** [sendConfigToOnlineAgents]; [agentIDs] is what
    [wsManager.GetAllClients] returns. *)
Definition sendConfigToOnlineAgents (config : PublicIPConfig.t)
    (agentIDs : list string) (out : Outbox) : Outbox :=
  if (length agentIDs =? 0)%nat then out else sendEach config agentIDs out.

(** What is true of a message [sendConfigToOnlineAgents] delivers to an
    agent out of [agentIDs]: the agent is connected, named and targeted,
    the send went through, and the message encodes the agent's data. *)
Definition pushed (config : PublicIPConfig.t) (agentIDs : list string)
    (m : string * string) : Prop :=
  m.1 ∈ agentIDs ∧ m.1 ≠ ""%string ∧ sendFault m.1 = None ∧
  (IsIPv4Target (Some config) m.1 = true ∨
   IsIPv6Target (Some config) m.1 = true) ∧
  marshal (dataFor config m.1) = Ok m.2.

(** [time.Duration] values, in nanoseconds; their 64-bit multiplication
    wraps around. *)
Definition second : Z := 1000000000.
Definition minute : Z := 60 * second.

(** The interval [Run] computes from a configuration. *)
Definition pushInterval (config : PublicIPConfig.t) : Z :=
  let interval := wrap64 (PublicIPConfig.IntervalSeconds config * second) in
  let interval := if interval <=? 0 then 5 * minute else interval in
  if interval <? 30 * second then 30 * second else interval.

(** One turn of the loop of [Run] while the context is not done: the
    duration it then sleeps, the store and the outbox.  [unmarshal] and
    [now] are those of [GetPublicIPConfig], [agentIDs] the connected
    agents. *)
Definition RunTurn
    (unmarshal : string -> PublicIPConfig.t -> result PublicIPConfig.t)
    (now : Z) (st : State) (agentIDs : list string) (out : Outbox)
    : Z * State * Outbox :=
  match GetPublicIPConfig unmarshal now st with
  | (Err e, st) =>
      (minute, st,
       mkOutbox (delivered out) (logs out ++ ["获取公网 IP 采集配置失败"%string]))
  | (Ok config, st) =>
      if negb (PublicIPConfig.Enabled config)
         || (negb (PublicIPConfig.IPv4Enabled config)
             && negb (PublicIPConfig.IPv6Enabled config))
      then (30 * second, st, out)
      else
        (pushInterval config, st, sendConfigToOnlineAgents config agentIDs out)
  end.

End Push.

End PublicIP.

(** * Properties *)

(** ** Binary64 rounding *)

Section Float64Facts.

Import Float64.

Lemma pow2_pos e : (0 < pow2 e)%Q.
Proof. unfold pow2. by apply Qpower_0_lt. Qed.

Lemma pow2_plus a b : (pow2 (a + b) == pow2 a * pow2 b)%Q.
Proof. unfold pow2. by apply Qpower_plus. Qed.

Lemma pow2_Z n : 0 <= n -> (pow2 n == inject_Z (2 ^ n))%Q.
Proof. intros Hn. unfold pow2. by rewrite Zpower_Qpower. Qed.

Lemma roundHalfEven_bounds y :
  Qfloor y <= roundHalfEven y <= Qfloor y + 1.
Proof.
  unfold roundHalfEven.
  destruct (y - inject_Z (Qfloor y) ?= 1 # 2)%Q; [destruct (Z.even _)| |]; lia.
Qed.

Lemma roundHalfEven_upper y : (inject_Z (roundHalfEven y) <= y + 1)%Q.
Proof.
  pose proof (roundHalfEven_bounds y) as [_ H].
  pose proof (Qfloor_le y) as Hf.
  rewrite Zle_Qle, inject_Z_plus in H. change (inject_Z 1) with 1%Q in H. lra.
Qed.

Lemma roundHalfEven_lower y : (1 <= y)%Q -> 1 <= roundHalfEven y.
Proof.
  intros Hy. pose proof (roundHalfEven_bounds y) as [H _].
  pose proof (Qfloor_resp_le _ _ Hy) as Hf.
  change (Qfloor 1) with 1 in Hf. lia.
Qed.

(** The binade is not above the number. *)
Lemma binade_le x : (0 < x)%Q -> (pow2 (binade x) <= x)%Q.
Proof.
  intros Hx. unfold binade.
  destruct (Qle_bool _ x) eqn:Hle; [by apply Qle_bool_iff|]. clear Hle.
  destruct x as [n d]. unfold Qlt in Hx. simpl in Hx.
  rewrite Z.mul_1_r in Hx. cbn [Qnum Qden].
  replace (Z.log2 n - Z.log2 (Z.pos d) - 1)
    with (Z.log2 n - (Z.log2 (Z.pos d) + 1)) by lia.
  pose proof (Z.log2_nonneg n) as Hn0.
  pose proof (Z.log2_nonneg (Z.pos d)) as Hd0.
  assert (E : (pow2 (Z.log2 n - (Z.log2 (Z.pos d) + 1))
               == inject_Z (2 ^ Z.log2 n)
                  / inject_Z (2 ^ (Z.log2 (Z.pos d) + 1)))%Q).
  { rewrite <- !pow2_Z by lia. unfold pow2. by apply Qpower_minus. }
  rewrite E. clear E.
  destruct (Z.log2_spec n Hx) as [Hn _].
  destruct (Z.log2_spec (Z.pos d) ltac:(lia)) as [_ Hd].
  rewrite <- Z.add_1_r in Hd.
  set (A := 2 ^ Z.log2 n) in *. set (B := 2 ^ (Z.log2 (Z.pos d) + 1)) in *.
  apply Qle_shift_div_r.
  - change 0%Q with (inject_Z 0). rewrite <- Zlt_Qlt. lia.
  - unfold Qle, Qmult, inject_Z. simpl. nia.
Qed.

(** Rounding a positive number gives a positive number, at most one part
    in 2^52 above it. *)
Lemma roundPositive_bounds x :
  (0 < x)%Q ->
  (0 < roundPositive x)%Q ∧
  (roundPositive x <= x * (4503599627370497 # 4503599627370496))%Q.
Proof.
  intros Hx. unfold roundPositive.
  pose proof (binade_le x Hx) as Hb.
  set (e := binade x - 52). set (p := pow2 e).
  assert (Hp : (0 < p)%Q) by apply pow2_pos.
  assert (Hpe : (p * pow2 52 == pow2 (binade x))%Q).
  { subst p e. rewrite <- pow2_plus. by replace (binade x - 52 + 52) with (binade x) by lia. }
  assert (H52 : (pow2 52 == 4503599627370496)%Q) by reflexivity.
  rewrite H52 in Hpe.
  assert (Hy : (4503599627370496 <= x / p)%Q).
  { apply Qle_shift_div_l; [exact Hp|]. rewrite Qmult_comm, Hpe. exact Hb. }
  pose proof (roundHalfEven_upper (x / p)) as Hu.
  pose proof (roundHalfEven_lower (x / p) ltac:(lra)) as Hl.
  rewrite Zle_Qle in Hl.
  set (m := inject_Z (roundHalfEven (x / p))) in *.
  assert (Hxp : (x / p * p == x)%Q) by (field; lra).
  split.
  - apply Qmult_lt_0_compat; [|exact Hp]. change (inject_Z 1) with 1%Q in Hl. lra.
  - assert (Hmp : (m * p <= (x / p + 1) * p)%Q).
    { apply Qmult_le_compat_r; [exact Hu|lra]. }
    assert (E : ((x / p + 1) * p == x + p)%Q) by (field; lra).
    rewrite E in Hmp. lra.
Qed.

Lemma round_nonpos x : (x <= 0)%Q -> (round x <= 0)%Q.
Proof.
  intros Hx. unfold round. destruct (x ?= 0)%Q eqn:Hc.
  - lra.
  - apply Qlt_alt in Hc.
    destruct (roundPositive_bounds (- x) ltac:(lra)) as [Hpos _]. lra.
  - apply Qgt_alt in Hc. lra.
Qed.

Lemma round_pos x :
  (0 < x)%Q ->
  (0 < round x)%Q ∧ (round x <= x * (4503599627370497 # 4503599627370496))%Q.
Proof.
  intros Hx. unfold round. destruct (x ?= 0)%Q eqn:Hc.
  - apply Qeq_alt in Hc. lra.
  - apply Qlt_alt in Hc. lra.
  - by apply roundPositive_bounds.
Qed.

Lemma roundHalfEven_ge y : (y - 1 <= inject_Z (Float64.roundHalfEven y))%Q.
Proof.
  pose proof (roundHalfEven_bounds y) as [H _].
  pose proof (Qlt_floor y) as Hf.
  rewrite inject_Z_plus in Hf. change (inject_Z 1) with 1%Q in Hf.
  rewrite Zle_Qle in H. lra.
Qed.

Lemma roundHalfEven_integer y n : (y == inject_Z n)%Q -> Float64.roundHalfEven y = n.
Proof.
  intros Hy. unfold Float64.roundHalfEven.
  assert (Hf : Qfloor y = n) by (rewrite Hy; apply Qfloor_Z).
  rewrite Hf.
  assert (Hc : (y - inject_Z n ?= 1 # 2)%Q = Lt).
  { rewrite <- Qlt_alt. lra. }
  by rewrite Hc.
Qed.

Lemma pow2_ge_1 t : 0 <= t -> (1 <= Float64.pow2 t)%Q.
Proof.
  intros Ht. rewrite pow2_Z by done. change 1%Q with (inject_Z 1).
  rewrite <- Zle_Qle. pose proof (Z.pow_pos_nonneg 2 t). lia.
Qed.

Lemma binade_below x n :
  0 <= n -> (0 < x)%Q -> (x < Float64.pow2 n)%Q -> Float64.binade x < n.
Proof.
  intros Hn Hx Hlt. pose proof (binade_le x Hx) as Hb.
  destruct (Z.lt_ge_cases (Float64.binade x) n) as [|Hge]; [done|exfalso].
  pose proof (pow2_plus n (Float64.binade x - n)) as E.
  replace (n + (Float64.binade x - n)) with (Float64.binade x) in E by lia.
  pose proof (pow2_ge_1 (Float64.binade x - n) ltac:(lia)) as H1.
  pose proof (pow2_pos n) as Hp.
  set (a := Float64.pow2 n) in *. set (b := Float64.pow2 (Float64.binade x - n)) in *.
  set (c := Float64.pow2 (Float64.binade x)) in *.
  assert (a <= a * b)%Q.
  { rewrite <- (Qmult_1_r a) at 1. apply Qmult_le_l; lra. }
  lra.
Qed.

(** Rounding a positive number loses at most one part in 2^52. *)
Lemma roundPositive_lower x :
  (0 < x)%Q ->
  (x * (4503599627370495 # 4503599627370496) <= Float64.roundPositive x)%Q.
Proof.
  intros Hx. unfold Float64.roundPositive.
  pose proof (binade_le x Hx) as Hb.
  set (e := Float64.binade x - 52). set (p := Float64.pow2 e).
  assert (Hp : (0 < p)%Q) by apply pow2_pos.
  assert (Hpe : (p * Float64.pow2 52 == Float64.pow2 (Float64.binade x))%Q).
  { subst p e. rewrite <- pow2_plus.
    by replace (Float64.binade x - 52 + 52) with (Float64.binade x) by lia. }
  assert (H52 : (Float64.pow2 52 == 4503599627370496)%Q) by reflexivity.
  rewrite H52 in Hpe.
  pose proof (roundHalfEven_ge (x / p)) as Hl.
  set (m := inject_Z (Float64.roundHalfEven (x / p))) in *.
  assert (Hmp : ((x / p - 1) * p <= m * p)%Q).
  { apply Qmult_le_compat_r; [exact Hl|lra]. }
  assert (E : ((x / p - 1) * p == x - p)%Q) by (field; lra).
  rewrite E in Hmp. lra.
Qed.

Lemma round_lower x :
  (0 < x)%Q -> (x * (4503599627370495 # 4503599627370496) <= Float64.round x)%Q.
Proof.
  intros Hx. unfold Float64.round. destruct (x ?= 0)%Q eqn:Hc.
  - apply Qeq_alt in Hc. lra.
  - apply Qlt_alt in Hc. lra.
  - by apply roundPositive_lower.
Qed.

(** Integers below 2^53 are binary64 numbers: rounding leaves them as they
    are. *)
Lemma round_integer x n :
  (x == inject_Z n)%Q -> 0 <= n < 2 ^ 53 -> (Float64.round x == inject_Z n)%Q.
Proof.
  intros Hx Hn. unfold Float64.round. destruct (x ?= 0)%Q eqn:Hc.
  - apply Qeq_alt in Hc. rewrite <- Hx, Hc. reflexivity.
  - apply Qlt_alt in Hc. rewrite Hx in Hc. change 0%Q with (inject_Z 0) in Hc.
    rewrite <- Zlt_Qlt in Hc. lia.
  - apply Qgt_alt in Hc.
    assert (Hn0 : 0 < n).
    { rewrite Hx in Hc. change 0%Q with (inject_Z 0) in Hc.
      by rewrite <- Zlt_Qlt in Hc. }
    unfold Float64.roundPositive.
    assert (Hb : Float64.binade x < 53).
    { apply binade_below; [lia|exact Hc|].
      rewrite Hx, pow2_Z by lia. rewrite <- Zlt_Qlt. lia. }
    set (e := Float64.binade x - 52) in *.
    set (t := - e).
    assert (Ht : 0 <= t) by (subst t e; lia).
    pose proof (pow2_plus e t) as E.
    replace (e + t) with 0 in E by (subst t; lia).
    change (Float64.pow2 0) with 1%Q in E.
    pose proof (pow2_pos e) as Hp.
    pose proof (pow2_Z t Ht) as Et.
    set (p := Float64.pow2 e) in *. set (pt := Float64.pow2 t) in *.
    assert (Hy : (x / p == inject_Z (n * 2 ^ t))%Q).
    { rewrite inject_Z_mult, <- Et, Hx.
      assert (Hpt : (pt == 1 / p)%Q) by (field_simplify_eq; lra).
      rewrite Hpt. field. lra. }
    rewrite (roundHalfEven_integer _ _ Hy).
    rewrite inject_Z_mult, <- Et.
    transitivity (inject_Z n * (p * pt))%Q; [ring|].
    rewrite <- E. ring.
Qed.

End Float64Facts.

(** [round] on the Standard Library's specification of IEEE 754 binary64:
    the quotients agree, among them some that are not exact and one whose
    dividend is not representable. *)
Example round_agrees_with_SpecFloat :
  let binary64 z := binary_normalize 53 1024 z 0 false in
  Forall
    (fun '(a, b) =>
       (Float64.div (Float64.ofInt a) (Float64.ofInt b)
        == Float64.ofSpecFloat (SFdiv 53 1024 (binary64 a) (binary64 b)))%Q)
    [(259200000, 1000); (1, 1000); (1, 720); (999, 7); (-10, 3);
     (9009380494536001, 1000); (9223372036854775807, 1000);
     (9223372036854775807, 9223372036854775807); (1, 9223372036854775807);
     (8391213001259221258, 7)].
Proof.
  intros binary64.
  repeat (constructor; [vm_compute; reflexivity|]). constructor.
Qed.

(** ** Query planner *)

Section PlannerFacts.

Import Planner.

Lemma wrap64_small z : - 2 ^ 63 <= z < 2 ^ 63 -> wrap64 z = z.
Proof.
  intros H. unfold wrap64. rewrite Z.mod_small; lia.
Qed.

Lemma wrap64_range z : - 2 ^ 63 <= wrap64 z < 2 ^ 63.
Proof.
  unfold wrap64. pose proof (Z.mod_pos_bound (z + 2 ^ 63) (2 ^ 64)). lia.
Qed.

Lemma maxInt_max a b : maxInt a b = Z.max a b.
Proof. unfold maxInt. destruct (Z.gtb_spec a b); lia. Qed.

Lemma firstCandidate_Some x l c :
  firstCandidate x l = Some c ->
  c ∈ l ∧ x <= c ∧ (StronglySorted Z.le l -> ∀ c', c' ∈ l -> x <= c' -> c <= c').
Proof.
  induction l as [|a l IH]; simpl; [discriminate|].
  destruct (Z.leb_spec x a) as [Hle|Hgt]; intros Heq.
  - injection Heq as <-. split; [left|split; [exact Hle|]].
    intros Hs c' Hin _. apply StronglySorted_inv in Hs as [_ Hall].
    apply elem_of_cons in Hin as [->|Hin]; [lia|].
    rewrite List.Forall_forall in Hall. apply Hall. by apply list_elem_of_In.
  - destruct (IH Heq) as (Hin & Hle & Hleast).
    split; [by right|split; [exact Hle|]].
    intros Hs c' Hin' Hx. apply StronglySorted_inv in Hs as [Hs _].
    apply elem_of_cons in Hin' as [->|Hin']; [lia|]. by apply Hleast.
Qed.

Lemma firstCandidate_None x l :
  firstCandidate x l = None -> ∀ c, c ∈ l -> c < x.
Proof.
  induction l as [|a l IH]; simpl; intros Heq c Hin.
  - by apply elem_of_nil in Hin.
  - destruct (Z.leb_spec x a) as [Hle|Hgt]; [discriminate|].
    apply elem_of_cons in Hin as [->|Hin]; [lia|]. by apply IH.
Qed.

Lemma allowedIntervals_sorted : StronglySorted Z.le allowedIntervals.
Proof.
  unfold allowedIntervals.
  repeat (constructor; [|repeat (constructor; [lia|]); constructor]).
  constructor.
Qed.

Lemma alignInterval_roundedUp x : x <= 14400 -> roundedUp x (alignInterval x).
Proof.
  intros Hx. unfold alignInterval.
  destruct (firstCandidate x allowedIntervals) as [c|] eqn:Heq.
  - destruct (firstCandidate_Some _ _ _ Heq) as (Hin & Hle & Hleast).
    repeat split; [exact Hin|exact Hle|].
    apply Hleast, allowedIntervals_sorted.
  - pose proof (firstCandidate_None _ _ Heq 14400) as H.
    unfold allowedIntervals in H. rewrite !elem_of_cons in H. lia.
Qed.

Lemma alignInterval_cap x : 14400 < x -> alignInterval x = 14400.
Proof.
  intros Hx. unfold alignInterval.
  destruct (firstCandidate x allowedIntervals) as [c|] eqn:Heq; [|reflexivity].
  destruct (firstCandidate_Some _ _ _ Heq) as (Hin & Hle & _).
  unfold allowedIntervals in Hin. rewrite !elem_of_cons, elem_of_nil in Hin. lia.
Qed.

Lemma getMetricsConfig_MaxQueryPoints loaded :
  MaxQueryPoints (getMetricsConfig loaded) =
  match loaded with
  | Some l => if MaxQueryPoints l >? 0 then MaxQueryPoints l else 720
  | None => 720
  end.
Proof.
  destruct loaded as [[rh mp]|]; [|reflexivity].
  unfold getMetricsConfig; simpl.
  destruct (rh >? 0), (mp >? 0); reflexivity.
Qed.

Lemma getMetricsConfig_RetentionHours_pos loaded :
  0 < RetentionHours (getMetricsConfig loaded).
Proof.
  destruct loaded as [[rh mp]|]; [|done].
  unfold getMetricsConfig, defaultMetricsRetentionHours; simpl.
  destruct (Z.gtb_spec rh 0), (Z.gtb_spec mp 0); simpl; lia.
Qed.

(** As long as the retention period is below 2562048 hours, the duration
    does not wrap around and the boundary is the clock's milliseconds less
    the retention period. *)
Lemma retentionBoundary_no_wrap loaded now :
  RetentionHours (getMetricsConfig loaded) < 2562048 ->
  retentionBoundary loaded now
  = now / 1000000 - RetentionHours (getMetricsConfig loaded) * 3600000.
Proof.
  intros Hr. pose proof (getMetricsConfig_RetentionHours_pos loaded) as Hp.
  unfold retentionBoundary, Hour.
  set (r := RetentionHours (getMetricsConfig loaded)) in *.
  rewrite (wrap64_small (r * _)) by lia. rewrite wrap64_small by lia.
  replace (now + - (r * 3600000000000)) with (now + (- (r * 3600000)) * 1000000)
    by lia.
  rewrite Z.div_add by lia. lia.
Qed.

Lemma calculateBaseInterval_pos start end_ : 0 < calculateBaseInterval start end_.
Proof.
  unfold calculateBaseInterval.
  repeat match goal with |- context [if ?b then _ else _] => destruct b end; lia.
Qed.

Lemma inject_Z_pos z : 0 < z -> (0 < inject_Z z)%Q.
Proof. intros H. change 0%Q with (inject_Z 0). by rewrite <- Zlt_Qlt. Qed.

Lemma inject_Z_nonpos z : z <= 0 -> (inject_Z z <= 0)%Q.
Proof. intros H. change 0%Q with (inject_Z 0). by rewrite <- Zle_Qle. Qed.

(** [durationSeconds <= 0] tests the sign of the [int64] difference. *)
Lemma durationSeconds_nonpos start end_ :
  wrap64 (end_ - start) <= 0 -> Qle_bool (durationSeconds start end_) 0 = true.
Proof.
  intros Hle. apply Qle_bool_iff. unfold durationSeconds, Float64.div, Float64.ofInt.
  apply round_nonpos.
  pose proof (round_nonpos _ (inject_Z_nonpos _ Hle)) as H.
  apply Qle_shift_div_r; lra.
Qed.

Lemma durationSeconds_bounds start end_ :
  0 < wrap64 (end_ - start) ->
  (0 < durationSeconds start end_)%Q ∧
  (durationSeconds start end_
   <= inject_Z (wrap64 (end_ - start)) * (1001 # 1000000))%Q.
Proof.
  intros Hlt. unfold durationSeconds, Float64.div, Float64.ofInt.
  set (x := inject_Z (wrap64 (end_ - start))).
  destruct (round_pos x (inject_Z_pos _ Hlt)) as [H1 H2].
  assert (H3 : (0 < Float64.round x / 1000)%Q).
  { apply Qlt_shift_div_l; lra. }
  destruct (round_pos _ H3) as [H4 H5].
  split; [exact H4|].
  assert (H6 : (Float64.round x / 1000 == Float64.round x * (1 # 1000))%Q)
    by field.
  set (y := (Float64.round x / 1000)%Q) in *. lra.
Qed.

Lemma durationSeconds_pos start end_ :
  0 < wrap64 (end_ - start) -> Qle_bool (durationSeconds start end_) 0 = false.
Proof.
  intros Hlt. destruct (durationSeconds_bounds start end_ Hlt) as [H _].
  destruct (Qle_bool _ 0) eqn:E; [|reflexivity].
  apply Qle_bool_iff in E. lra.
Qed.

(** What [adjustIntervalForMaxPoints] computes, branch by branch. *)
Lemma adjustIntervalForMaxPoints_eq start end_ interval maxPoints :
  adjustIntervalForMaxPoints start end_ interval maxPoints =
  if (maxPoints <=? 0) || (wrap64 (end_ - start) <=? 0)
  then alignInterval (Z.max interval 1)
  else alignInterval (Z.max (Z.max interval 1)
                            (requiredInterval start end_ maxPoints)).
Proof.
  unfold adjustIntervalForMaxPoints.
  replace (if interval <=? 0 then 1 else interval) with (Z.max interval 1)
    by (destruct (Z.leb_spec interval 0); lia).
  destruct (Z.leb_spec maxPoints 0) as [Hmp|Hmp]; simpl; [reflexivity|].
  destruct (Z.leb_spec (wrap64 (end_ - start)) 0) as [Hd|Hd].
  - by rewrite durationSeconds_nonpos.
  - rewrite durationSeconds_pos by lia. by rewrite maxInt_max.
Qed.

(** With the default budget, the required interval of a positive range is at
    most a thousandth above the exact quotient. *)
Lemma requiredInterval_720_le start end_ B :
  0 < wrap64 (end_ - start) ->
  1002 * wrap64 (end_ - start) <= 720000000 * B ->
  requiredInterval start end_ 720 <= B.
Proof.
  intros Hlt HB. unfold requiredInterval.
  destruct (durationSeconds_bounds start end_ Hlt) as [H1 H2].
  set (ds := durationSeconds start end_) in *.
  set (x := inject_Z (wrap64 (end_ - start))) in *.
  assert (E720 : (Float64.ofInt 720 == 720)%Q) by reflexivity.
  unfold Float64.div.
  assert (H3 : (0 < ds / Float64.ofInt 720)%Q).
  { apply Qlt_shift_div_l; [rewrite E720|]; lra. }
  destruct (round_pos _ H3) as [_ H4].
  assert (H5 : (ds / Float64.ofInt 720 == ds * (1 # 720))%Q).
  { rewrite E720. field. }
  set (y := (ds / Float64.ofInt 720)%Q) in *.
  rewrite <- (Qceiling_Z B). apply Qceiling_resp_le.
  rewrite Zle_Qle, !inject_Z_mult in HB. fold x in HB.
  change (inject_Z 1002) with 1002%Q in HB.
  change (inject_Z 720000000) with 720000000%Q in HB.
  lra.
Qed.

Lemma Qceiling_eq x n :
  (inject_Z (n - 1) < x)%Q -> (x <= inject_Z n)%Q -> Qceiling x = n.
Proof.
  intros Hl Hu.
  pose proof (Qceiling_resp_le _ _ Hu) as H1. rewrite Qceiling_Z in H1.
  pose proof (Qle_ceiling x) as H2.
  assert (H : (inject_Z (n - 1) < inject_Z (Qceiling x))%Q) by lra.
  rewrite <- Zlt_Qlt in H. lia.
Qed.

(** On a range shorter than 2^49 ms and a budget below 2^39 points the
    binary64 computation of the required interval is exact. *)
Lemma requiredInterval_exact start end_ maxPoints :
  0 < wrap64 (end_ - start) < 2 ^ 49 ->
  0 < maxPoints < 2 ^ 39 ->
  requiredInterval start end_ maxPoints
  = Qceiling (inject_Z (wrap64 (end_ - start)) / 1000 / inject_Z maxPoints).
Proof.
  intros Hd Hm.
  unfold requiredInterval, durationSeconds, Float64.div, Float64.ofInt.
  set (d := wrap64 (end_ - start)) in *.
  set (k := d / (1000 * maxPoints)). set (r := d mod (1000 * maxPoints)).
  assert (Hdiv : d = 1000 * (k * maxPoints) + r ∧ 0 <= r < 1000 * maxPoints
                 ∧ 0 <= k).
  { pose proof (Z.div_mod d (1000 * maxPoints) ltac:(lia)).
    pose proof (Z.mod_pos_bound d (1000 * maxPoints) ltac:(lia)).
    split; [subst k r; lia|]. split; [done|]. apply Z.div_pos; lia. }
  clearbody k r. destruct Hdiv as (Ed & Hr & Hk).
  set (n := if r =? 0 then k else k + 1).
  assert (Hn : (n - 1) * (1000 * maxPoints) < d ∧ d <= n * (1000 * maxPoints)).
  { subst n. destruct (Z.eqb_spec r 0); lia. }
  assert (E0 : (Float64.round (inject_Z d) == inject_Z d)%Q)
    by (apply round_integer; [reflexivity|lia]).
  assert (Em : (Float64.round (inject_Z maxPoints) == inject_Z maxPoints)%Q)
    by (apply round_integer; [reflexivity|lia]).
  set (x0 := Float64.round (inject_Z d)) in *.
  set (mf := Float64.round (inject_Z maxPoints)) in *.
  assert (Hmq : (0 < inject_Z maxPoints)%Q) by (apply inject_Z_pos; lia).
  assert (Hdq : (0 < inject_Z d)%Q) by (apply inject_Z_pos; lia).
  destruct Hn as [Hn1 Hn2].
  rewrite Zlt_Qlt, !inject_Z_mult in Hn1.
  rewrite Zle_Qle, !inject_Z_mult in Hn2.
  change (inject_Z 1000) with 1000%Q in Hn1, Hn2.
  assert (Hexact : Qceiling (inject_Z d / 1000 / inject_Z maxPoints) = n).
  { apply Qceiling_eq.
    - apply Qlt_shift_div_l; [exact Hmq|]. apply Qlt_shift_div_l; [lra|].
      set (a := inject_Z (n - 1)) in *. set (b := inject_Z maxPoints) in *.
      lra.
    - apply Qle_shift_div_r; [exact Hmq|]. apply Qle_shift_div_r; [lra|].
      set (a := inject_Z n) in *. set (b := inject_Z maxPoints) in *.
      lra. }
  rewrite Hexact. clear Hexact.
  pose proof Ed as Edq. apply (f_equal inject_Z) in Edq.
  rewrite inject_Z_plus, !inject_Z_mult in Edq.
  change (inject_Z 1000) with 1000%Q in Edq.
  assert (Hx1 : (x0 / 1000
                 == inject_Z k * inject_Z maxPoints + inject_Z r * (1 # 1000))%Q).
  { rewrite E0, Edq. field. }
  assert (Edq' : (inject_Z d
                  == 1000 * (inject_Z k * inject_Z maxPoints) + inject_Z r)%Q)
    by (rewrite Edq; reflexivity).
  clear Edq.
  destruct (Z.eqb_spec r 0) as [->|Hr0]; subst n.
  - (* the quotient is an integer: every step is exact *)
    assert (E1 : (Float64.round (x0 / 1000) == inject_Z (k * maxPoints))%Q).
    { apply round_integer; [|nia].
      rewrite Hx1, inject_Z_mult. change (inject_Z 0) with 0%Q. field. }
    assert (E2 : (Float64.round (Float64.round (x0 / 1000) / mf) == inject_Z k)%Q).
    { apply round_integer; [|nia].
      rewrite E1, Em, inject_Z_mult. field. lra. }
    rewrite E2. apply Qceiling_Z.
  - (* otherwise the quotient is too far from the integers around it for
       the two roundings to reach them *)
    assert (Hrq : (1 <= inject_Z r)%Q ∧ (inject_Z r <= 1000 * inject_Z maxPoints - 1)%Q).
    { split.
      - change 1%Q with (inject_Z 1). rewrite <- Zle_Qle. lia.
      - assert (H : r + 1 <= 1000 * maxPoints) by lia.
        rewrite Zle_Qle, inject_Z_plus, inject_Z_mult in H.
        change (inject_Z 1000) with 1000%Q in H.
        change (inject_Z 1) with 1%Q in H. lra. }
    assert (Hbig : (inject_Z d < 562949953421312)%Q).
    { change 562949953421312%Q with (inject_Z (2 ^ 49)). rewrite <- Zlt_Qlt. lia. }
    assert (Hmbig : (inject_Z maxPoints < 549755813888)%Q).
    { change 549755813888%Q with (inject_Z (2 ^ 39)). rewrite <- Zlt_Qlt. lia. }
    assert (Hkq : (0 <= inject_Z k)%Q).
    { change 0%Q with (inject_Z 0). rewrite <- Zle_Qle. lia. }
    assert (Hp1 : (0 < x0 / 1000)%Q) by (apply Qlt_shift_div_l; lra).
    pose proof (round_lower _ Hp1) as Hl1.
    destruct (round_pos _ Hp1) as [Hx1pos Hu1].
    set (x1 := Float64.round (x0 / 1000)) in *.
    assert (Hp2 : (0 < x1 / mf)%Q) by (apply Qlt_shift_div_l; lra).
    pose proof (round_lower _ Hp2) as Hl2.
    destruct (round_pos _ Hp2) as [_ Hu2].
    assert (Ey : (x1 / mf * inject_Z maxPoints == x1)%Q).
    { rewrite Em. field. lra. }
    set (y := (x1 / mf)%Q) in *.
    set (x2 := Float64.round y) in *.
    set (KM := (inject_Z k * inject_Z maxPoints)%Q) in *.
    set (mq := inject_Z maxPoints) in *. set (rq := inject_Z r) in *.
    set (dq := inject_Z d) in *. set (z := (x0 / 1000)%Q) in *.
    assert (HKM : (0 <= KM)%Q) by (subst KM; apply Qmult_le_0_compat; lra).
    assert (Ey1 : (y * (4503599627370495 # 4503599627370496) * mq
                   == x1 * (4503599627370495 # 4503599627370496))%Q)
      by (rewrite <- Ey; ring).
    assert (Ey2 : (y * (4503599627370497 # 4503599627370496) * mq
                   == x1 * (4503599627370497 # 4503599627370496))%Q)
      by (rewrite <- Ey; ring).
    apply Qceiling_eq.
    + replace (k + 1 - 1) with k by lia.
      assert (H : (inject_Z k * mq
                   < y * (4503599627370495 # 4503599627370496) * mq)%Q).
      { fold KM.
        set (a := (y * (4503599627370495 # 4503599627370496) * mq)%Q) in *.
        lra. }
      apply Qmult_lt_r in H; [|exact Hmq]. lra.
    + assert (Ek : (inject_Z (k + 1) * mq == KM + mq)%Q).
      { rewrite inject_Z_plus. change (inject_Z 1) with 1%Q. subst KM. ring. }
      assert (H : (y * (4503599627370497 # 4503599627370496) * mq
                   <= inject_Z (k + 1) * mq)%Q).
      { set (a := (y * (4503599627370497 # 4503599627370496) * mq)%Q) in *.
        set (b := (inject_Z (k + 1) * mq)%Q) in *.
        lra. }
      apply Qmult_le_r in H; [|exact Hmq]. lra.
Qed.

Lemma getMetricsConfig_MaxQueryPoints_pos loaded :
  0 < MaxQueryPoints (getMetricsConfig loaded).
Proof.
  rewrite getMetricsConfig_MaxQueryPoints.
  destruct loaded as [l|]; [|lia].
  destruct (Z.gtb_spec (MaxQueryPoints l) 0); lia.
Qed.

Lemma chosenInterval_pos start end_ requested :
  0 < chosenInterval start end_ requested.
Proof.
  unfold chosenInterval. destruct (Z.leb_spec requested 0); [|lia].
  apply calculateBaseInterval_pos.
Qed.

(** [DetermineInterval] aligns the raised interval. *)
Lemma DetermineInterval_eq loaded start end_ requested :
  DetermineInterval loaded start end_ requested
  = alignInterval (raisedInterval loaded start end_ requested).
Proof.
  unfold DetermineInterval, raisedInterval.
  fold (chosenInterval start end_ requested).
  pose proof (chosenInterval_pos start end_ requested) as Hc.
  pose proof (getMetricsConfig_MaxQueryPoints_pos loaded) as Hm.
  rewrite adjustIntervalForMaxPoints_eq.
  replace (Z.max (chosenInterval start end_ requested) 1)
    with (chosenInterval start end_ requested) by lia.
  destruct (Z.leb_spec (MaxQueryPoints (getMetricsConfig loaded)) 0); [lia|].
  simpl.
  destruct (Z.leb_spec (wrap64 (end_ - start)) 0),
           (Z.ltb_spec 0 (wrap64 (end_ - start))); try lia; reflexivity.
Qed.

(** C1 (as amended).  For every [GetMetrics] query, the effective
    aggregation interval is the caller-requested interval (or, when none
    is supplied, the base interval from the duration table), raised to at
    least the required interval, and then rounded up to the nearest member
    of the allowed set when the raised value is at most 14400, and 14400,
    the largest member, when it is above.  The required interval is
    computed in binary64 floating point on the [int64] range; for a range
    of less than 2^49 ms and a budget below 2^39 points it is exactly
    [⌈((end − start)/1000)/maxPoints⌉]. *)
Theorem C1_effective_interval loaded now start end_ requested :
  let cfg := getMetricsConfig loaded in
  let range := normalizeTimeRange loaded now start end_ in
  let chosen := chosenInterval range.1 range.2 requested in
  let raised := raisedInterval loaded range.1 range.2 requested in
  let interval := effectiveInterval loaded now start end_ requested in
  chosen <= raised ∧
  (raised <= 14400 -> roundedUp raised interval) ∧
  (14400 < raised -> interval = 14400) ∧
  (0 < range.2 - range.1 < 2 ^ 49 ->
   MaxQueryPoints cfg < 2 ^ 39 ->
   raised
   = Z.max chosen (specRequired range.1 range.2 (MaxQueryPoints cfg))).
Proof.
  intros cfg range chosen raised interval.
  assert (Hi : interval = alignInterval raised).
  { subst interval raised range. unfold effectiveInterval.
    destruct (normalizeTimeRange loaded now start end_) as [s e].
    apply DetermineInterval_eq. }
  split; [|split; [|split]].
  - subst raised chosen. unfold raisedInterval.
    destruct (0 <? _); lia.
  - intros Hle. rewrite Hi. by apply alignInterval_roundedUp.
  - intros Hgt. rewrite Hi. by apply alignInterval_cap.
  - intros Hrange Hbudget. subst raised chosen. unfold raisedInterval.
    assert (Hw : wrap64 (range.2 - range.1) = range.2 - range.1).
    { apply wrap64_small. lia. }
    rewrite Hw. destruct (Z.ltb_spec 0 (range.2 - range.1)); [|lia].
    f_equal. unfold specRequired. rewrite <- Hw.
    apply requiredInterval_exact; [lia|].
    pose proof (getMetricsConfig_MaxQueryPoints_pos loaded). subst cfg. lia.
Qed.

End PlannerFacts.

(** C1, as the specification words it, fails twice over.  With a retention
    of one year, a CPU query for the last 121 days needs 14520 seconds per
    point; the planner answers 14400, the largest allowed interval, which
    is not 14520 rounded up.  And under the default configuration a CPU
    query for the last three days is planned at 1800 seconds per point, as
    specified, but [GetMetrics] reads the aggregate table at the bucket
    width of 300 seconds, not at that interval, and returns the 864 rows
    the table holds for the range, more than the [maxQueryPoints] of
    720. *)
Lemma C1_counterexample :
  let queryRaw : string -> string -> Z -> Z -> Z -> result (list Z) :=
    fun _ _ _ _ _ => Ok [] in
  let now := 1700000100000000000 in
  let end_ := 1700000100000 in
  let oneYear := Some (Planner.mkMetricsConfig 8760 720) in
  let table := Query.rolledUp "a1" 300 1699740900000 864 in
  (Planner.specRequired 1689545700000 end_ 720 = 14520 ∧
   Planner.effectiveInterval oneYear now 1689545700000 end_ 0 = 14400 ∧
   ¬ Query.plansAsSpecified queryRaw (Query.queryAggregateTable []) oneYear
       now "a1" "cpu" 1689545700000 end_ 0) ∧
  (Planner.effectiveInterval None now 1699740900000 end_ 0 = 1800 ∧
   Query.GetMetrics queryRaw (Query.queryAggregateTable table) None now "a1"
     "cpu" 1699740900000 end_ 0
   = Ok (Query.AggData table) ∧
   length table = 864%nat ∧
   ¬ Query.plansAsSpecified queryRaw (Query.queryAggregateTable table) None
       now "a1" "cpu" 1699740900000 end_ 0).
Proof.
  intros queryRaw now end_ oneYear table.
  assert (Hreq : Planner.specRequired 1689545700000 end_ 720 = 14520)
    by (vm_compute; reflexivity).
  assert (Hint : Planner.effectiveInterval oneYear now 1689545700000 end_ 0
                 = 14400) by (vm_compute; reflexivity).
  assert (Hans :
    Query.GetMetrics queryRaw (Query.queryAggregateTable table) None now "a1"
      "cpu" 1699740900000 end_ 0 = Ok (Query.AggData table))
    by (vm_compute; reflexivity).
  split; [split; [exact Hreq|split; [exact Hint|]]|].
  - intros [(_ & Hle & _) _]. rewrite Hint in Hle.
    assert (Hrange :
      Planner.normalizeTimeRange oneYear now 1689545700000 end_
      = (1689545700000, end_)) by (vm_compute; reflexivity).
    rewrite Hrange in Hle. cbn [fst snd] in Hle.
    assert (Hcfg : Planner.MaxQueryPoints (Planner.getMetricsConfig oneYear)
                   = 720) by reflexivity.
    rewrite Hcfg, Hreq in Hle. lia.
  - split; [vm_compute; reflexivity|]. split; [exact Hans|].
    split; [reflexivity|].
    intros [_ Hrows]. rewrite Hans in Hrows.
    assert (Hlen : length table = 864%nat) by reflexivity.
    cbn [Query.rowCount] in Hrows. rewrite Hlen in Hrows.
    assert (Hcfg : Planner.MaxQueryPoints (Planner.getMetricsConfig None)
                   = 720) by reflexivity.
    rewrite Hcfg in Hrows. lia.
Qed.

(** A CPU query for the last three days under the default configuration:
    the base interval of 1800 seconds is above the 360 seconds the budget
    requires, and it is an allowed member. *)
Lemma C1_effective_interval_witness :
  let now := 1700000100000000000 in
  let start := 1699740900000 in
  let end_ := 1700000100000 in
  Planner.specRequired start end_ 720 = 360 ∧
  Planner.roundedUp 1800 (Planner.effectiveInterval None now start end_ 0) ∧
  Planner.effectiveInterval None now start end_ 0 = 1800.
Proof.
  intros now start end_.
  destruct (C1_effective_interval None now start end_ 0)
    as (_ & Hround & _ & Hexact).
  assert (Hrange : Planner.normalizeTimeRange None now start end_
                   = (start, end_)) by (vm_compute; reflexivity).
  rewrite Hrange in Hround, Hexact. cbn [fst snd] in Hround, Hexact.
  assert (Hreq : Planner.specRequired start end_ 720 = 360)
    by (vm_compute; reflexivity).
  assert (Hraised : Planner.raisedInterval None start end_ 0 = 1800).
  { rewrite Hexact; [|subst start end_; lia|vm_compute; reflexivity].
    change (Planner.MaxQueryPoints (Planner.getMetricsConfig None)) with 720.
    rewrite Hreq. vm_compute. reflexivity. }
  rewrite Hraised in Hround.
  specialize (Hround ltac:(lia)).
  split; [exact Hreq|]. split; [exact Hround|].
  destruct Hround as (Hin & Hle & Hleast).
  apply Z.le_antisymm; [|exact Hle].
  apply Hleast; [|lia].
  unfold Planner.allowedIntervals. rewrite !elem_of_cons. tauto.
Defined.

(** ** Downsampler *)

Section RollupFacts.

Import Rollup.

Context {Agg : Type}.
Implicit Types (st : State Agg) (fn : aggregateFn Agg).

Lemma buckets_pos bucketSeconds : bucketSeconds ∈ buckets -> 0 < bucketSeconds.
Proof. unfold buckets. rewrite !elem_of_cons, elem_of_nil. lia. Qed.

(** On a clock that is not before the epoch, Go's truncating division is
    the floor. *)
Lemma quot_floor a b : 0 <= a -> 0 < b -> a ÷ b = a / b.
Proof. intros. apply Z.quot_div_nonneg; lia. Qed.

Lemma getAggregationStart_spec now readFault st metricType bucketSeconds
    retention :
  0 < bucketSeconds ->
  0 <= now - retention ->
  (∀ lastBucket,
     progress st !! (metricType, bucketSeconds) = Some lastBucket ->
     0 < lastBucket) ->
  getAggregationStart now readFault st metricType bucketSeconds retention
    (bucketSeconds * 1000)
  = startAfterRead now readFault st metricType bucketSeconds retention.
Proof.
  intros Hb Hnow Hpos. unfold getAggregationStart, startAfterRead, specStart,
    GetAggregationProgress.
  destruct readFault as [e|]; [by rewrite quot_floor by lia|].
  destruct (progress st !! (metricType, bucketSeconds)) as [lb|]; simpl.
  - specialize (Hpos lb eq_refl). destruct (Z.gtb_spec lb 0); [done|lia].
  - by rewrite quot_floor by lia.
Qed.

(** The start of a window is never negative on such a clock, and after a
    progress read that succeeded it lies beyond the stored progress. *)
Lemma getAggregationStart_lower now readFault st metricType bucketSeconds
    retention :
  0 < bucketSeconds ->
  0 <= now - retention ->
  let start :=
    getAggregationStart now readFault st metricType bucketSeconds retention
      (bucketSeconds * 1000) in
  0 <= start ∧
  (readFault = None ->
   ∀ lastBucket,
     progress st !! (metricType, bucketSeconds) = Some lastBucket ->
     lastBucket <= start).
Proof.
  intros Hb Hnow. unfold getAggregationStart, GetAggregationProgress.
  assert (Hq : 0 <= (now - retention) ÷ (bucketSeconds * 1000) * (bucketSeconds * 1000)).
  { rewrite quot_floor by lia. apply Z.mul_nonneg_nonneg; [|lia].
    apply Z.div_pos; lia. }
  destruct readFault as [e|]; [split; [exact Hq|discriminate]|].
  destruct (progress st !! (metricType, bucketSeconds)) as [lb|]; simpl.
  - destruct (Z.gtb_spec lb 0); split; try lia;
      intros _ ? [= <-]; lia.
  - split; [lia|discriminate].
Qed.

(** C2 (as amended).  For every metric kind and every bucket width of 60,
    300 or 3600 seconds, one rollup tick works on this window: [start] is
    [lastBucket + bucketSeconds * 1000] when the progress read succeeds and
    progress exists, and the retention boundary aligned down to the bucket
    width otherwise (no progress, or a failed read); [endBucket] is
    [floor((now - bucketSeconds) / bucketMs) * bucketMs]; the tick does
    nothing when [endBucket <= start]; otherwise the aggregation runs on
    exactly [start, endBucket + bucketMs - 1] and progress is advanced to
    [endBucket].  (A failed aggregation or a refused progress write leaves
    progress as it was.) *)
Theorem C2_rollup_window now1 now2 readFault upsertFault metricType
    bucketSeconds retention fn st :
  bucketSeconds ∈ buckets ->
  0 <= now1 - retention ->
  0 <= now2 - bucketSeconds * 1000 ->
  (∀ lastBucket,
     progress st !! (metricType, bucketSeconds) = Some lastBucket ->
     0 < lastBucket) ->
  let bucketMs := bucketSeconds * 1000 in
  let start :=
    startAfterRead now1 readFault st metricType bucketSeconds retention in
  let endBucket := specEndBucket now2 bucketSeconds in
  let st' :=
    aggregateMetric now1 now2 readFault upsertFault metricType bucketSeconds
      retention fn st in
  (endBucket <= start -> st' = st) ∧
  (start < endBucket ->
     match fn bucketSeconds start (endBucket + bucketMs - 1) (aggregates st) with
     | Ok agg =>
         aggregates st' = agg ∧
         (upsertFault = None ->
          progress st' = <[(metricType, bucketSeconds) := endBucket]> (progress st))
     | Err _ => aggregates st' = aggregates st ∧ progress st' = progress st
     end).
Proof.
  intros Hb%buckets_pos Hnow1 Hnow2 Hpos bucketMs start endBucket st'.
  subst st'. unfold aggregateMetric.
  rewrite getAggregationStart_spec by assumption. fold start.
  rewrite (quot_floor (now2 - bucketSeconds * 1000)) by lia.
  fold (specEndBucket now2 bucketSeconds). fold endBucket. fold bucketMs.
  destruct (Z.leb_spec endBucket start) as [Hle|Hlt].
  - split; [done|lia].
  - split; [lia|intros _].
    destruct (fn bucketSeconds start (endBucket + bucketMs - 1) (aggregates st))
      as [agg|e]; simpl; [|done].
    destruct upsertFault as [e|]; simpl; [|done].
    split; [done|discriminate].
Qed.

(** One tick on the progress table: it leaves the table as it is, or it
    stores for its own key a [lastBucket] that ends the window whose
    aggregation has succeeded; after a progress read that succeeded, the
    stored [lastBucket] is beyond the one stored before. *)
Lemma aggregateMetric_stores now1 now2 readFault upsertFault metricType
    bucketSeconds retention fn st :
  0 < bucketSeconds ->
  0 <= now1 - retention ->
  let key := (metricType, bucketSeconds) in
  let st' :=
    aggregateMetric now1 now2 readFault upsertFault metricType bucketSeconds
      retention fn st in
  progress st' = progress st ∨
  ∃ lastBucket start agg,
    progress st' = <[key := lastBucket]> (progress st) ∧
    fn bucketSeconds start (lastBucket + bucketSeconds * 1000 - 1)
       (aggregates st) = Ok agg ∧
    aggregates st' = agg ∧
    0 <= start ∧ start < lastBucket ∧
    lastBucket = lastClosedBucket now2 bucketSeconds ∧
    (readFault = None ->
     ∀ previous, progress st !! key = Some previous -> previous < lastBucket).
Proof.
  intros Hb Hnow1 key st'. subst st'. unfold aggregateMetric.
  destruct (getAggregationStart_lower now1 readFault st metricType
              bucketSeconds retention Hb Hnow1) as [Hs0 Hprev].
  set (start := getAggregationStart _ _ _ _ _ _ _) in *.
  set (endBucket := _ ÷ _ * _).
  destruct (Z.leb_spec endBucket start) as [Hle|Hlt]; [by left|].
  destruct (fn bucketSeconds start (endBucket + bucketSeconds * 1000 - 1)
              (aggregates st)) as [agg|e] eqn:Hfn; simpl; [|by left].
  destruct upsertFault as [e|]; simpl; [by left|right].
  exists endBucket, start, agg.
  split; [done|]. split; [done|]. split; [done|]. split; [done|].
  split; [done|]. split; [done|].
  intros Hread previous Hp. specialize (Hprev Hread previous Hp). lia.
Qed.

(** C3 (as amended).  Aggregation progress is monotonic as long as the
    tick's progress read succeeds or the stored progress is not ahead of
    the last closed bucket of the tick's clock: for every metric kind and
    bucket width, whenever such a rollup tick stores a new [lastBucket] it
    is strictly greater than the previously stored [lastBucket]; and, in
    every tick, progress is advanced only after the aggregation write for
    the window that ends with the stored bucket has succeeded: a failed
    aggregation leaves progress unchanged. *)
Theorem C3_progress_monotonic now1 now2 readFault upsertFault metricType
    bucketSeconds retention fn st :
  bucketSeconds ∈ buckets ->
  0 <= now1 - retention ->
  let key := (metricType, bucketSeconds) in
  let st' :=
    aggregateMetric now1 now2 readFault upsertFault metricType bucketSeconds
      retention fn st in
  (readFault = None ∨
   (∀ previous,
      progress st !! key = Some previous ->
      previous <= lastClosedBucket now2 bucketSeconds) ->
   storesGreater st st' key)
  ∧ (progress st' ≠ progress st ->
     ∃ lastBucket start agg,
       progress st' = <[key := lastBucket]> (progress st) ∧
       fn bucketSeconds start (lastBucket + bucketSeconds * 1000 - 1)
          (aggregates st) = Ok agg ∧
       aggregates st' = agg)
  ∧ ((∀ start end_, isOk (fn bucketSeconds start end_ (aggregates st)) = false) ->
     progress st' = progress st).
Proof.
  intros Hb%buckets_pos Hnow1 key st'.
  pose proof (aggregateMetric_stores now1 now2 readFault upsertFault
                metricType bucketSeconds retention fn st Hb Hnow1) as Hst.
  cbv zeta in Hst. fold key st' in Hst.
  split; [|split].
  - intros Hcond previous lastBucket Hp Hl Hne.
    destruct Hst as [E|(lb & start & agg & E & _ & _ & _ & _ & Hlb & Hgt)].
    + rewrite E, Hp in Hl. by injection Hl as <-.
    + rewrite E, lookup_insert_eq in Hl. injection Hl as <-.
      destruct Hcond as [Hread|Hbehind]; [by apply Hgt|].
      specialize (Hbehind previous Hp). lia.
  - intros Hne.
    destruct Hst as [E|(lb & start & agg & E & Hfn & Ha & _)]; [done|].
    exists lb, start, agg. eauto.
  - intros Hfail.
    destruct Hst as [E|(lb & start & agg & _ & Hfn & _)]; [exact E|].
    specialize (Hfail start (lb + bucketSeconds * 1000 - 1)).
    by rewrite Hfn in Hfail.
Qed.

(** Every [lastBucket] a tick stores is positive, so a stored row always
    counts as progress for the next tick. *)
Lemma aggregateMetric_progress_positive now1 now2 readFault upsertFault
    metricType bucketSeconds retention fn st :
  bucketSeconds ∈ buckets ->
  0 <= now1 - retention ->
  (∀ k lastBucket, progress st !! k = Some lastBucket -> 0 < lastBucket) ->
  ∀ k lastBucket,
    progress (aggregateMetric now1 now2 readFault upsertFault metricType
                bucketSeconds retention fn st) !! k = Some lastBucket ->
    0 < lastBucket.
Proof.
  intros Hb%buckets_pos Hnow1 Hinv k lb.
  pose proof (aggregateMetric_stores now1 now2 readFault upsertFault
                metricType bucketSeconds retention fn st Hb Hnow1) as Hst.
  cbv zeta in Hst.
  destruct Hst as [->|(l & start & agg & -> & _ & _ & Hs0 & Hlt & _)];
    [apply Hinv|].
  destruct (decide (k = (metricType, bucketSeconds))) as [->|Hne].
  - rewrite lookup_insert_eq. intros [= <-]. lia.
  - rewrite lookup_insert_ne by done. apply Hinv.
Qed.

End RollupFacts.

(** C2, as the specification words it, fails when the progress read fails:
    progress for ("cpu", 60) stands at 1 699 999 860 000, so the window of
    the specification starts at 1 699 999 920 000; the tick of
    1 700 000 100 000 ms whose read of the progress table fails starts at
    the retention boundary, seven days back, and aggregates from there. *)
Lemma C2_counterexample :
  let fn : Rollup.aggregateFn (list (Z * Z * Z)) :=
    fun bucketSeconds start end_ agg => Ok (agg ++ [(bucketSeconds, start, end_)]) in
  let st := Rollup.mkState {[("cpu"%string, 60) := 1699999860000]} [] [] in
  let readFault := Some "database is locked"%string in
  Rollup.specWindow 1700000100000 1700000100000 st "cpu" 60 604800000
  = Some (1699999920000, 1700000099999) ∧
  Rollup.tickWindow 1700000100000 1700000100000 readFault "cpu" 60 604800000 st
  = Some (1699395300000, 1700000099999) ∧
  Rollup.aggregates
    (Rollup.aggregateMetric 1700000100000 1700000100000 readFault None "cpu"
       60 604800000 fn st)
  = [(60, 1699395300000, 1700000099999)] ∧
  Rollup.tickWindow 1700000100000 1700000100000 readFault "cpu" 60 604800000 st
  ≠ Rollup.specWindow 1700000100000 1700000100000 st "cpu" 60 604800000.
Proof.
  intros fn st readFault.
  split; [reflexivity|]. split; [reflexivity|]. split; [reflexivity|].
  discriminate.
Qed.

(** A tick at 1 700 000 100 000 ms for ("cpu", 60) with progress at
    1 699 999 860 000: the aggregation function records the window it is
    called on. *)
Lemma C2_rollup_window_witness :
  let fn : Rollup.aggregateFn (list (Z * Z * Z)) :=
    fun bucketSeconds start end_ agg => Ok (agg ++ [(bucketSeconds, start, end_)]) in
  let st := Rollup.mkState {[("cpu"%string, 60) := 1699999860000]} [] [] in
  let st' :=
    Rollup.aggregateMetric 1700000100000 1700000100000 None None "cpu" 60
      604800000 fn st in
  Rollup.aggregates st' = [(60, 1699999920000, 1700000099999)] ∧
  Rollup.progress st' !! ("cpu"%string, 60) = Some 1700000040000.
Proof.
  intros fn st st'.
  destruct (C2_rollup_window 1700000100000 1700000100000 None None "cpu" 60
              604800000 fn st) as [_ H].
  - unfold Rollup.buckets. constructor.
  - lia.
  - lia.
  - intros lastBucket. simpl. rewrite lookup_singleton_eq. intros [= <-]. lia.
  - assert (Hl : Rollup.progress st !! ("cpu"%string, 60) = Some 1699999860000)
      by apply lookup_singleton_eq.
    unfold Rollup.startAfterRead, Rollup.specStart, Rollup.specEndBucket in H.
    rewrite Hl in H.
    destruct (H ltac:(vm_compute; reflexivity)) as [Hagg Hprog].
    split; [exact Hagg|].
    fold st' in Hprog. rewrite (Hprog eq_refl). apply lookup_insert_eq.
Defined.

(** C3, as the specification words it, fails when the progress read fails:
    progress for ("cpu", 60) stands at 1 700 000 040 000; the wall clock
    has been set back to 1 700 000 000 000 ms and the read of the progress
    table fails, so the tick starts at the retention boundary, aggregates,
    and stores 1 699 999 920 000, less than what was stored before. *)
Lemma C3_counterexample :
  let fn : Rollup.aggregateFn (list (Z * Z * Z)) :=
    fun bucketSeconds start end_ agg => Ok (agg ++ [(bucketSeconds, start, end_)]) in
  let st := Rollup.mkState {[("cpu"%string, 60) := 1700000040000]} [] [] in
  let st' :=
    Rollup.aggregateMetric 1700000000000 1700000000000
      (Some "database is locked"%string) None "cpu" 60 604800000 fn st in
  Rollup.progress st' !! ("cpu"%string, 60) = Some 1699999920000 ∧
  ¬ Rollup.storesGreater st st' ("cpu"%string, 60).
Proof.
  intros fn st st'.
  assert (Hl : Rollup.progress st' !! ("cpu"%string, 60) = Some 1699999920000)
    by (vm_compute; reflexivity).
  split; [exact Hl|]. intros H.
  specialize (H 1700000040000 1699999920000 (lookup_singleton_eq _ _) Hl
                ltac:(discriminate)).
  lia.
Qed.

(** The tick of 1 700 000 100 000 ms reads progress at 1 699 999 860 000,
    aggregates the window that ends with the bucket of 1 700 000 040 000,
    and stores that bucket, three buckets further. *)
Lemma C3_progress_monotonic_witness :
  let fn : Rollup.aggregateFn (list (Z * Z * Z)) :=
    fun bucketSeconds start end_ agg => Ok (agg ++ [(bucketSeconds, start, end_)]) in
  let st := Rollup.mkState {[("cpu"%string, 60) := 1699999860000]} [] [] in
  let st' :=
    Rollup.aggregateMetric 1700000100000 1700000100000 None None "cpu" 60
      604800000 fn st in
  Rollup.progress st !! ("cpu"%string, 60) = Some 1699999860000 ∧
  Rollup.progress st' !! ("cpu"%string, 60) = Some 1700000040000 ∧
  1699999860000 < 1700000040000 ∧
  ∃ start,
    fn 60 start (1700000040000 + 60 * 1000 - 1) (Rollup.aggregates st)
    = Ok (Rollup.aggregates st').
Proof.
  intros fn st st'.
  assert (Hp : Rollup.progress st !! ("cpu"%string, 60) = Some 1699999860000)
    by apply lookup_singleton_eq.
  assert (Hl : Rollup.progress st' !! ("cpu"%string, 60) = Some 1700000040000)
    by (vm_compute; reflexivity).
  destruct (C3_progress_monotonic 1700000100000 1700000100000 None None "cpu"
              60 604800000 fn st) as (Hgreater & Hstored & _).
  - unfold Rollup.buckets. constructor.
  - lia.
  - fold st' in Hstored, Hgreater.
    split; [exact Hp|]. split; [exact Hl|]. split.
    + exact (Hgreater (or_introl eq_refl) _ _ Hp Hl ltac:(discriminate)).
    + destruct Hstored as (lastBucket & start & agg & E & Hfn & Ha).
      { intros E. rewrite E, Hp in Hl. discriminate Hl. }
      rewrite E, lookup_insert_eq in Hl. injection Hl as ->.
      exists start. by rewrite Hfn, Ha.
Defined.

(** ** Query routing *)

Section QueryFacts.

Import Planner Query.

Context {RawRow AggRow : Type}.
Variable queryRaw : string -> string -> Z -> Z -> Z -> result (list RawRow).
Variable queryAgg : string -> string -> Z -> Z -> Z -> result (list AggRow).

Lemma GetMetrics_readKind loaded now agentID metricType start end_ requested :
  metricType ∈ aggCapable ->
  let range := normalizeTimeRange loaded now start end_ in
  let interval := effectiveInterval loaded now start end_ requested in
  GetMetrics queryRaw queryAgg loaded now agentID metricType start end_ requested
  = readKind queryRaw queryAgg metricType agentID range.1 range.2 interval
      (chooseBucket metricType interval).1 (chooseBucket metricType interval).2.
Proof.
  intros Hin range interval. subst range interval.
  unfold GetMetrics, effectiveInterval.
  destruct (normalizeTimeRange loaded now start end_) as [s e]. simpl.
  destruct (chooseBucket metricType _) as [b u]. simpl.
  unfold aggCapable in Hin. rewrite !elem_of_cons, elem_of_nil in Hin.
  destruct Hin as [->|[->|[->|[->|[->|[->|[->|[->|[]]]]]]]]]; reflexivity.
Qed.

Lemma GetMetrics_other_kind loaded now agentID metricType start end_ requested :
  metricType ∉ aggCapable ->
  GetMetrics queryRaw queryAgg loaded now agentID metricType start end_ requested
  = Ok NilData.
Proof.
  intros Hnot. unfold GetMetrics.
  destruct (normalizeTimeRange loaded now start end_) as [s e].
  destruct (chooseBucket metricType _) as [b u].
  unfold aggCapable in Hnot. rewrite !elem_of_cons, elem_of_nil in Hnot.
  repeat match goal with
         | |- context [String.eqb metricType ?k] =>
             destruct (String.eqb_spec metricType k); [tauto|]
         end.
  reflexivity.
Qed.

(** C4 (as amended).  For each of the eight kinds it serves (cpu, memory,
    disk, network, network_connection, disk_io, gpu, temperature),
    [GetMetrics] routes by the effective interval: an interval of at least
    3600 reads the 3600-second aggregate bucket, at least 300 the 300-second
    bucket, at least 60 the 60-second bucket, and a smaller interval reads
    raw rows; whenever the chosen aggregate table returns an empty result
    for the range (or fails), the query falls back to raw rows for the same
    range.  For every other kind [GetMetrics] returns a nil result and no
    error, whatever the interval and the tables. *)
Theorem C4_routing loaded now agentID metricType start end_ requested :
  let range := normalizeTimeRange loaded now start end_ in
  let interval := effectiveInterval loaded now start end_ requested in
  let answer :=
    GetMetrics queryRaw queryAgg loaded now agentID metricType start end_
      requested in
  let raw :=
    match queryRaw metricType agentID range.1 range.2 interval with
    | Ok metrics => Ok (RawData metrics)
    | Err e => Err e
    end in
  let bucket :=
    if 3600 <=? interval then Some 3600
    else if 300 <=? interval then Some 300
    else if 60 <=? interval then Some 60
    else None in
  (metricType ∈ aggCapable ->
   match bucket with
   | None => answer = raw
   | Some bucketSeconds =>
       match queryAgg metricType agentID range.1 range.2 bucketSeconds with
       | Ok [] => answer = raw
       | Ok metrics => answer = Ok (AggData metrics)
       | Err _ => answer = raw
       end
   end) ∧
  (metricType ∉ aggCapable -> answer = Ok NilData).
Proof.
  intros range interval answer raw bucket. split; [|apply GetMetrics_other_kind].
  intros Hin. subst answer. rewrite GetMetrics_readKind by exact Hin.
  fold range interval. unfold chooseBucket, isAggCapable.
  rewrite bool_decide_eq_true_2 by exact Hin.
  subst bucket. unfold readKind. fold raw.
  rewrite !Z.geb_leb.
  destruct (3600 <=? interval); [|destruct (300 <=? interval);
    [|destruct (60 <=? interval)]]; simpl; try reflexivity;
    destruct (queryAgg _ _ _ _ _) as [[|m ms]|e]; reflexivity.
Qed.

End QueryFacts.

(** C4, as the specification words it, fails for a kind [GetMetrics] does
    not serve: a seven-day query for host snapshots plans one point per
    hour; the 3600-second aggregate table has a row for the range and the
    raw table has rows, but the answer is nil. *)
Lemma C4_counterexample :
  let queryRaw : string -> string -> Z -> Z -> Z -> result (list Z) :=
    fun _ _ _ _ interval => Ok [interval] in
  let queryAgg : string -> string -> Z -> Z -> Z -> result (list Z) :=
    fun _ _ _ _ bucketSeconds => Ok [bucketSeconds] in
  ¬ Query.routesAsSpecified queryRaw queryAgg None 1700000000000000000 "a1"
      "host" 1699395200000 1700000000000 0.
Proof.
  intros queryRaw queryAgg. unfold Query.routesAsSpecified.
  vm_compute. discriminate.
Qed.

(** A seven-day CPU query whose aggregate table is empty is answered from
    the raw rows. *)
Lemma C4_routing_witness :
  let queryRaw : string -> string -> Z -> Z -> Z -> result (list Z) :=
    fun _ _ _ _ interval => Ok [interval] in
  let queryAgg : string -> string -> Z -> Z -> Z -> result (list Z) :=
    fun _ _ _ _ _ => Ok [] in
  Query.GetMetrics queryRaw queryAgg None 1700000000000000000 "a1" "cpu"
    1699395200000 1700000000000 0
  = Ok (Query.RawData [3600]).
Proof.
  intros queryRaw queryAgg.
  exact (proj1 (C4_routing queryRaw queryAgg None 1700000000000000000
                  "a1"%string "cpu"%string 1699395200000 1700000000000 0)
           ltac:(unfold Query.aggCapable; constructor)).
Defined.

(** ** Agent registration *)

Section RegistryFacts.

Import Registry.

(** What a successful re-registration does to the row. *)
Lemma RegisterAgent_existing validKey now st ip info apiKey existing :
  keyedById st ->
  validKey apiKey = Ok tt ->
  AgentInfo.ID info ≠ ""%string ->
  agents st !! AgentInfo.ID info = Some existing ->
  let refreshed :=
    Agent.mk (AgentInfo.ID info) (Agent.Name existing)
      (AgentInfo.Hostname info) ip (AgentInfo.OS info) (AgentInfo.Arch info)
      (AgentInfo.Version info) 1 now (Agent.CreatedAt existing) now in
  RegisterAgent validKey now None st ip info apiKey
  = (Ok refreshed,
     mkState (<[AgentInfo.ID info := refreshed]> (agents st))
             (logs st ++ ["agent re-registered"%string])).
Proof.
  intros Hk Hv Hid Hex refreshed. unfold RegisterAgent, FindById, UpdateById.
  rewrite Hv. apply String.eqb_neq in Hid. rewrite Hid, Hex. simpl.
  rewrite (Hk _ _ Hex), Hex. reflexivity.
Qed.

(** C5.  The code at the input that separates it from the claim: agent
    ["a1"] is registered under the name ["db-01"]; a [register] message for
    ["a1"] carrying the name ["db-primary"] refreshes hostname, address, OS,
    arch and version, sets the status to online and [lastSeenAt] to the
    clock, and leaves the stored name at ["db-01"]. *)
Theorem C5_reregistration_keeps_stored_name :
  let existing :=
    Agent.mk "a1" "db-01" "host-old" "10.0.0.1" "linux" "amd64" "1.0.0"
      0 1000 1000 1000 in
  let info :=
    AgentInfo.mk "a1" "db-primary" "host-new" "debian" "arm64" "1.1.0" in
  let st := mkState {["a1"%string := existing]} [] in
  let stored :=
    Agent.mk "a1" "db-01" "host-new" "10.0.0.2" "debian" "arm64" "1.1.0"
      1 2000 1000 2000 in
  let out := RegisterAgent (fun _ => Ok tt) 2000 None st "10.0.0.2" info "key" in
  out.1 = Ok stored ∧
  agents out.2 !! "a1"%string = Some stored ∧
  Agent.Name stored ≠ AgentInfo.Name info.
Proof.
  intros existing info st stored out.
  assert (E : out = (Ok stored,
              mkState (<[AgentInfo.ID info := stored]> (agents st))
                      (logs st ++ ["agent re-registered"%string]))).
  { apply (RegisterAgent_existing (fun _ => Ok tt) 2000 st "10.0.0.2" info
             "key" existing); [|reflexivity|discriminate|apply lookup_singleton_eq].
    intros id agent H. subst st. simpl in H.
    apply lookup_singleton_Some in H as [<- <-]. reflexivity. }
  rewrite E. split; [reflexivity|split; [apply lookup_insert_eq|discriminate]].
Qed.

(** C6.  A [register] message for an [agentID] whose row exists updates
    that row in place: a call with a valid key that the database does not
    refuse succeeds, and a call that succeeds has stored, under the same
    key, the existing row refreshed from the message, with the [createdAt]
    it had; a call that fails leaves the table as it was.  In every case
    the table keeps the same keys (no second row), every other row is
    untouched, and the row's [createdAt] is unchanged. *)
Theorem C6_reregistration_in_place validKey now fault st ip info apiKey existing :
  keyedById st ->
  agents st !! AgentInfo.ID info = Some existing ->
  let out := RegisterAgent validKey now fault st ip info apiKey in
  let st' := out.2 in
  let refreshed :=
    Agent.mk (AgentInfo.ID info) (Agent.Name existing)
      (AgentInfo.Hostname info) ip (AgentInfo.OS info) (AgentInfo.Arch info)
      (AgentInfo.Version info) 1 now (Agent.CreatedAt existing) now in
  (isOk (validKey apiKey) = true -> AgentInfo.ID info ≠ ""%string ->
   fault = None -> out.1 = Ok refreshed) ∧
  (∀ agent,
     out.1 = Ok agent ->
     agent = refreshed ∧
     agents st' = <[AgentInfo.ID info := refreshed]> (agents st)) ∧
  (isOk out.1 = false -> agents st' = agents st) ∧
  dom (agents st') = dom (agents st) ∧
  size (agents st') = size (agents st) ∧
  (∀ id, id ≠ AgentInfo.ID info -> agents st' !! id = agents st !! id) ∧
  ∃ stored,
    agents st' !! AgentInfo.ID info = Some stored ∧
    Agent.ID stored = AgentInfo.ID info ∧
    Agent.CreatedAt stored = Agent.CreatedAt existing.
Proof.
  intros Hk Hex out st' refreshed.
  assert (Hout :
    (isOk out.1 = false ∧ agents st' = agents st ∧
     (isOk (validKey apiKey) = true -> AgentInfo.ID info ≠ ""%string ->
      fault = None -> False)) ∨
    (out.1 = Ok refreshed ∧
     agents st' = <[AgentInfo.ID info := refreshed]> (agents st))).
  { subst st' out. unfold RegisterAgent, FindById, UpdateById.
    destruct (validKey apiKey) as [u|e]; [|left; simpl; intuition discriminate].
    destruct (String.eqb_spec (AgentInfo.ID info) "") as [Hid|Hid];
      [left; simpl; intuition|].
    rewrite Hex. destruct fault as [e|]; [left; simpl; intuition discriminate|].
    simpl. rewrite (Hk _ _ Hex), Hex. simpl. right. by subst refreshed. }
  assert (Hd : dom (<[AgentInfo.ID info := refreshed]> (agents st))
               = dom (agents st)).
  { apply dom_insert_lookup_L. by exists existing. }
  destruct Hout as [(Hfail & E & Hno)|[Hok E]].
  - split; [intros; exfalso; auto|].
    split; [intros agent Ha; rewrite Ha in Hfail; discriminate|].
    split; [done|]. rewrite E.
    split; [done|]. split; [done|]. split; [done|].
    exists existing. eauto.
  - split; [done|].
    split; [intros agent Ha; rewrite Hok in Ha; injection Ha as <-; done|].
    split; [intros Hf; rewrite Hok in Hf; discriminate|]. rewrite E.
    split; [exact Hd|].
    split; [by rewrite <- !size_dom, Hd|].
    split; [intros id Hne; by rewrite lookup_insert_ne|].
    exists refreshed. by rewrite lookup_insert_eq.
Qed.

End RegistryFacts.

(** Agent ["a1"], created at 1000, registers again at 2000 from another
    address: the call returns the refreshed row, which is the one row of
    the table afterwards, still created at 1000. *)
Lemma C6_reregistration_in_place_witness :
  let existing :=
    Registry.Agent.mk "a1" "db-01" "host-old" "10.0.0.1" "linux" "amd64"
      "1.0.0" 0 1000 1000 1000 in
  let info :=
    Registry.AgentInfo.mk "a1" "db-primary" "host-new" "debian" "arm64"
      "1.1.0" in
  let refreshed :=
    Registry.Agent.mk "a1" "db-01" "host-new" "10.0.0.2" "debian" "arm64"
      "1.1.0" 1 2000 1000 2000 in
  let st := Registry.mkState {["a1"%string := existing]} [] in
  let out :=
    Registry.RegisterAgent (fun _ => Ok tt) 2000 None st "10.0.0.2" info
      "key" in
  out.1 = Ok refreshed ∧
  Registry.agents out.2 = {["a1"%string := refreshed]} ∧
  size (Registry.agents out.2) = 1%nat ∧
  Registry.Agent.CreatedAt refreshed = Registry.Agent.CreatedAt existing.
Proof.
  intros existing info refreshed st out.
  destruct (C6_reregistration_in_place (fun _ => Ok tt) 2000 None st
              "10.0.0.2" info "key" existing)
    as (Hok & Hstored & _ & _ & Hsize & _).
  - intros id agent. simpl. intros H.
    apply lookup_singleton_Some in H as [<- <-]. reflexivity.
  - apply lookup_singleton_eq.
  - fold out in Hok, Hstored, Hsize.
    specialize (Hok eq_refl ltac:(discriminate) eq_refl).
    destruct (Hstored _ Hok) as [_ E].
    split; [exact Hok|].
    split; [rewrite E; apply insert_singleton_eq|].
    split; [rewrite Hsize; apply map_size_singleton|reflexivity].
Defined.

(** ** Metric ingestion *)

Section IngestFacts.

Import protocol models Ingest.

Lemma outcomes_cons f fs n : outcomes (f :: fs) (S n) = f :: outcomes fs n.
Proof. reflexivity. Qed.

Lemma outcomes_nil n : outcomes [] (S n) = None :: outcomes [] n.
Proof. unfold outcomes. rewrite !take_nil. simpl. by rewrite Nat.sub_0_r. Qed.

(** One write: what it appends, what it consumes, what it reports. *)
Lemma Save_spec row st :
  let f := hd None (faults st) in
  Save row st =
  (match f with Some e => Err e | None => Ok tt end,
   mkState (rows st ++ match f with Some _ => [] | None => [row] end)
           (tl (faults st)) (logs st)).
Proof.
  unfold Save. destruct (faults st) as [|[e|] fs]; simpl;
    by rewrite ?app_nil_r.
Qed.

Lemma saveOrLog_spec msg row st :
  let f := hd None (faults st) in
  saveOrLog msg row st =
  mkState (rows st ++ match f with Some _ => [] | None => [row] end)
          (tl (faults st))
          (logs st ++ match f with Some _ => [msg] | None => [] end).
Proof.
  unfold saveOrLog. rewrite Save_spec.
  destruct (hd None (faults st)); simpl; by rewrite ?app_nil_r.
Qed.

Lemma accepted_step fs row l :
  accepted fs (row :: l) =
  match hd None fs with Some _ => [] | None => [row] end ++ accepted (tl fs) l.
Proof.
  unfold accepted. cbn [length].
  destruct fs as [|f fs]; [rewrite outcomes_nil|rewrite outcomes_cons];
    cbn [zip_with hd tl].
  - by rewrite filter_cons_True.
  - destruct f as [e|]; [by rewrite filter_cons_False|by rewrite filter_cons_True].
Qed.

Lemma refusedCount_step fs n :
  refusedCount fs (S n) =
  (match hd None fs with Some _ => 1 | None => 0 end + refusedCount (tl fs) n)%nat.
Proof.
  unfold refusedCount.
  destruct fs as [|f fs]; [rewrite outcomes_nil|rewrite outcomes_cons];
    cbn [hd tl].
  - by rewrite filter_cons_False by (intros H; by apply H).
  - destruct f as [e|]; [by rewrite filter_cons_True|].
    by rewrite filter_cons_False by (intros H; by apply H).
Qed.

(** The loop over a slice: every element is written once, in order; a
    refused write is logged and skipped. *)
Lemma saveEach_spec {D : Type} (mkRow : D -> MetricRow) msg (l : list D) st :
  let st' := saveEach mkRow msg l st in
  rows st' = rows st ++ accepted (faults st) (map mkRow l) ∧
  faults st' = drop (length l) (faults st) ∧
  length (logs st') = (length (logs st) + refusedCount (faults st) (length l))%nat.
Proof.
  revert st. induction l as [|d l IH]; intros st; simpl.
  - unfold accepted, refusedCount, outcomes. simpl.
    rewrite app_nil_r, drop_0. repeat split; lia.
  - destruct (IH (saveOrLog msg (mkRow d) st)) as (Hr & Hf & Hl).
    rewrite Hr, Hf, Hl, saveOrLog_spec, accepted_step, refusedCount_step.
    simpl. rewrite <- app_assoc, length_app.
    split; [done|]. split.
    + destruct (faults st); simpl; by rewrite ?drop_nil.
    + destruct (hd None (faults st)); simpl; lia.
Qed.

Lemma saveEachPtr_Some {D : Type} (mkRow : D -> MetricRow) msg (l : list D) st :
  saveEachPtr mkRow msg (map Some l) st = (true, saveEach mkRow msg l st).
Proof. revert st. induction l as [|d l IH]; intros st; simpl; [done|apply IH]. Qed.

Lemma map_Some_inj {A : Type} (l k : list A) : map Some l = map Some k -> l = k.
Proof.
  revert k. induction l as [|a l IH]; intros [|b k]; simpl; try discriminate.
  - done.
  - intros [= -> H]. by rewrite (IH k H).
Qed.

Lemma map_fmap_Some {A B : Type} (f : A -> B) (l : list (option A)) (k : list B) :
  map (fmap f) l = map Some k -> ∃ l', l = map Some l' ∧ k = map f l'.
Proof.
  revert k. induction l as [|a l IH]; intros [|b k]; simpl; try discriminate.
  - intros _. by exists [].
  - destruct a as [a|]; simpl; [|discriminate].
    intros [= <- H]. destruct (IH k H) as (l' & -> & ->). by exists (a :: l').
Qed.

(** Whatever the write outcomes, the rows a loop appends are rows of its
    elements. *)
Lemma saveOrLog_rows (P : MetricRow -> Prop) msg row st :
  P row ->
  ∃ new, rows (saveOrLog msg row st) = rows st ++ new ∧ Forall P new.
Proof.
  intros HP. rewrite saveOrLog_spec. simpl.
  destruct (hd None (faults st)); eexists; split; eauto.
Qed.

Lemma saveEach_rows {D : Type} (P : MetricRow -> Prop) (mkRow : D -> MetricRow)
    msg (l : list D) st :
  (∀ d, d ∈ l -> P (mkRow d)) ->
  ∃ new, rows (saveEach mkRow msg l st) = rows st ++ new ∧ Forall P new.
Proof.
  revert st. induction l as [|d l IH]; intros st HP; simpl.
  - exists []. by rewrite app_nil_r.
  - destruct (saveOrLog_rows P msg (mkRow d) st) as (n1 & E1 & F1).
    { apply HP. left. }
    destruct (IH (saveOrLog msg (mkRow d) st)) as (n2 & E2 & F2).
    { intros d' Hd'. apply HP. by right. }
    exists (n1 ++ n2). rewrite E2, E1, <- app_assoc. split; [done|].
    by apply Forall_app.
Qed.

Lemma saveEachPtr_rows {D : Type} (P : MetricRow -> Prop)
    (mkRow : D -> MetricRow) msg (l : list (option D)) st :
  (∀ d, P (mkRow d)) ->
  ∃ new, rows (saveEachPtr mkRow msg l st).2 = rows st ++ new ∧ Forall P new.
Proof.
  intros HP. revert st. induction l as [|[d|] l IH]; intros st; simpl.
  - exists []. by rewrite app_nil_r.
  - destruct (saveOrLog_rows P msg (mkRow d) st (HP d)) as (n1 & E1 & F1).
    destruct (IH (saveOrLog msg (mkRow d) st)) as (n2 & E2 & F2).
    exists (n1 ++ n2). rewrite E2, E1, <- app_assoc. split; [done|].
    by apply Forall_app.
  - exists []. by rewrite app_nil_r.
Qed.

Lemma Save_rows (P : MetricRow -> Prop) row st :
  P row -> ∃ new, rows (Save row st).2 = rows st ++ new ∧ Forall P new.
Proof.
  intros HP. rewrite Save_spec. simpl.
  destruct (hd None (faults st)); eexists; split; eauto.
Qed.

Lemma accepted_nil l : accepted [] l = l.
Proof.
  induction l as [|row l IH]; [reflexivity|].
  rewrite accepted_step. simpl. by rewrite IH.
Qed.

(** A frame of an array-carrying kind whose payload decodes into an array
    of elements: one row is written per element, in order; a refused write
    is logged and skipped, the remaining elements are still processed, and
    [HandleMetricData] returns no error for the frame. *)
Lemma HandleMetricData_array_frames now st agentID metricType data l :
  elementRows now agentID metricType data = Ok (map Some l) ->
  let out := HandleMetricData now st agentID metricType data in
  out.1 = Returned (Ok tt) ∧
  rows out.2 = rows st ++ accepted (faults st) l ∧
  faults out.2 = drop (length l) (faults st) ∧
  length (logs out.2)
  = (length (logs st) + refusedCount (faults st) (length l))%nat.
Proof.
  intros He out. subst out.
  assert (Hloop : ∀ (D : Type) (mkRow : D -> MetricRow) msg (l0 : list D),
    map (fun d => Some (mkRow d)) l0 = map Some l ->
    let st' := saveEach mkRow msg l0 st in
    rows st' = rows st ++ accepted (faults st) l ∧
    faults st' = drop (length l) (faults st) ∧
    length (logs st')
    = (length (logs st) + refusedCount (faults st) (length l))%nat).
  { intros D mkRow msg l0 H. rewrite <- (map_map mkRow Some) in H.
    apply map_Some_inj in H as <-.
    pose proof (saveEach_spec mkRow msg l0 st) as Hs.
    by rewrite length_map. }
  destruct metricType; try discriminate He;
    unfold elementRows in He; unfold HandleMetricData.
  - destruct (asDiskDataList data); [|discriminate]. injection He as He.
    split; [done|]. by apply Hloop.
  - destruct (asNetworkDataList data); [|discriminate]. injection He as He.
    split; [done|]. by apply Hloop.
  - destruct (asDiskIODataList data) as [l0|]; [|discriminate].
    injection He as He. apply map_fmap_Some in He as (l' & -> & ->).
    rewrite saveEachPtr_Some. split; [done|]. apply Hloop.
    by rewrite <- (map_map _ Some).
  - destruct (asGPUDataList data); [|discriminate]. injection He as He.
    split; [done|]. by apply Hloop.
  - destruct (asTemperatureDataList data); [|discriminate]. injection He as He.
    split; [done|]. by apply Hloop.
  - destruct (asMonitorDataList data); [|discriminate]. injection He as He.
    split; [done|]. by apply Hloop.
Qed.

(** The rows built from the elements of an array frame are stamped as the
    kind of the frame requires. *)
Lemma elementRows_stamped now agentID metricType data l :
  elementRows now agentID metricType data = Ok (map Some l) ->
  Forall (stampedFor now agentID metricType data) l.
Proof.
  intros He.
  assert (Hmap : ∀ (D : Type) (mkRow : D -> MetricRow) (l0 : list D)
                   (P : MetricRow -> Prop),
    (∀ d, d ∈ l0 -> P (mkRow d)) -> l = map mkRow l0 -> Forall P l).
  { clear He. intros D mkRow l0 P HP ->.
    induction l0 as [|d l0 IH]; simpl; [done|].
    constructor; [apply HP; left|]. apply IH. intros d' Hd'. apply HP.
    by right. }
  assert (Heach : ∀ (D : Type) (mkRow : D -> MetricRow) (l0 : list D)
                    (P : MetricRow -> Prop),
    (∀ d, d ∈ l0 -> P (mkRow d)) ->
    map (fun d => Some (mkRow d)) l0 = map Some l -> Forall P l).
  { intros D mkRow l0 P HP H. rewrite <- (map_map mkRow Some) in H.
    apply map_Some_inj in H. by apply (Hmap D mkRow l0). }
  destruct metricType; try discriminate He;
    unfold elementRows in He; unfold stampedFor.
  - destruct (asDiskDataList data) as [l0|]; [|discriminate].
    injection He as He. by refine (Heach _ _ l0 _ _ He).
  - destruct (asNetworkDataList data) as [l0|]; [|discriminate].
    injection He as He. by refine (Heach _ _ l0 _ _ He).
  - destruct (asDiskIODataList data) as [l0|]; [|discriminate].
    injection He as He. apply map_fmap_Some in He as (l' & _ & Hl).
    by refine (Hmap _ _ l' _ _ Hl).
  - destruct (asGPUDataList data) as [l0|]; [|discriminate].
    injection He as He. by refine (Heach _ _ l0 _ _ He).
  - destruct (asTemperatureDataList data) as [l0|]; [|discriminate].
    injection He as He. by refine (Heach _ _ l0 _ _ He).
  - destruct (asMonitorDataList data) as [l0|]; [|discriminate].
    injection He as He. refine (Heach _ _ l0 _ _ He).
    intros d Hd. by exists l0, d.
Qed.

(** C7.  For every ingested metric frame, the rows the frame stores are
    appended to the rows stored before, and each of them carries the
    server's own clock reading as its timestamp, except for
    synthetic-monitor results, whose stored timestamp is the [checkedAt] of
    the element of the frame the row is built from.  And the frame does
    store them: a frame of a single-value kind whose write the database
    takes stores its row, stamped with the clock; a frame of an
    array-carrying kind that decodes into an array of elements stores the
    row of every element whose write the database takes, all of them when
    no write is refused, each stamped as said. *)
Theorem C7_row_timestamps now st agentID metricType data :
  let out := HandleMetricData now st agentID metricType data in
  (∃ new,
     rows out.2 = rows st ++ new ∧
     Forall (stampedFor now agentID metricType data) new) ∧
  (∀ row,
     scalarRow now agentID metricType data = Ok row ->
     hd None (faults st) = None ->
     rows out.2 = rows st ++ [row] ∧ timestamp row = now) ∧
  (∀ l,
     elementRows now agentID metricType data = Ok (map Some l) ->
     rows out.2 = rows st ++ accepted (faults st) l ∧
     (faults st = [] -> rows out.2 = rows st ++ l) ∧
     Forall (stampedFor now agentID metricType data) l).
Proof.
  intros out. subst out. split; [|split].
  - assert (Hnil : ∀ P : MetricRow -> Prop,
              ∃ new, rows st = rows st ++ new ∧ Forall P new).
    { intros P. exists []. by rewrite app_nil_r. }
    destruct metricType; unfold HandleMetricData, stampedFor.
    + destruct (asCPUData data); [|apply Hnil].
      destruct (Save_rows (fun r => timestamp r = now)
                  (CPURow (cpuMetric now agentID a)) st eq_refl) as (new & E & F).
      exists new. by destruct (Save _ st).
    + destruct (asMemoryData data); [|apply Hnil].
      destruct (Save_rows (fun r => timestamp r = now)
                  (MemoryRow (memoryMetric now agentID a)) st eq_refl) as (new & E & F).
      exists new. by destruct (Save _ st).
    + destruct (asDiskDataList data); [|apply Hnil]. by apply saveEach_rows.
    + destruct (asNetworkDataList data); [|apply Hnil]. by apply saveEach_rows.
    + destruct (asNetworkConnectionData data); [|apply Hnil].
      destruct (Save_rows (fun r => timestamp r = now)
                  (NetworkConnectionRow (networkConnectionMetric now agentID a))
                  st eq_refl) as (new & E & F).
      exists new. by destruct (Save _ st).
    + destruct (asDiskIODataList data) as [l|]; [|apply Hnil].
      destruct (saveEachPtr_rows (fun r => timestamp r = now)
                  (fun d => DiskIORow (diskIOMetric now agentID d))
                  "failed to save disk io metric" l st ltac:(done))
        as (new & E & F).
      exists new. by destruct (saveEachPtr _ _ l st) as [[] ?].
    + destruct (asHostInfoData data); [|apply Hnil].
      destruct (Save_rows (fun r => timestamp r = now)
                  (HostRow (hostMetric now agentID a)) st eq_refl) as (new & E & F).
      exists new. by destruct (Save _ st).
    + destruct (asGPUDataList data); [|apply Hnil]. by apply saveEach_rows.
    + destruct (asTemperatureDataList data); [|apply Hnil]. by apply saveEach_rows.
    + destruct (asMonitorDataList data) as [l|]; [|apply Hnil].
      apply saveEach_rows. intros d Hd. by exists l, d.
    + apply Hnil.
  - intros row Hrow Hfault.
    assert (Hsave : ∀ r : MetricRow,
      rows (let '(res, st1) := Save r st in (Returned res, st1)).2
      = rows st ++ [r]).
    { intros r. rewrite Save_spec, Hfault. reflexivity. }
    destruct metricType; simpl in Hrow; try discriminate Hrow; simpl.
    + destruct (asCPUData data); [|discriminate]. injection Hrow as <-.
      split; [apply Hsave|reflexivity].
    + destruct (asMemoryData data); [|discriminate]. injection Hrow as <-.
      split; [apply Hsave|reflexivity].
    + destruct (asNetworkConnectionData data); [|discriminate].
      injection Hrow as <-. split; [apply Hsave|reflexivity].
    + destruct (asHostInfoData data); [|discriminate]. injection Hrow as <-.
      split; [apply Hsave|reflexivity].
  - intros l He.
    destruct (HandleMetricData_array_frames now st agentID metricType data l He)
      as (_ & Hrows & _).
    split; [exact Hrows|].
    split; [|by apply elementRows_stamped].
    intros Hf. by rewrite Hrows, Hf, accepted_nil.
Qed.

End IngestFacts.

(** At clock 5000: a CPU frame stores one row stamped 5000; a
    synthetic-monitor frame whose check was performed at 4321 stores one
    row stamped 4321. *)
Lemma C7_row_timestamps_witness :
  let cpu := protocol.CPUData.mk 42 8 4 "cpu-model" in
  let cpuFrame :=
    protocol.mkRawMessage (Ok cpu) (Err "json") (Err "json") (Err "json")
      (Err "json") (Err "json") (Err "json") (Err "json") (Err "json")
      (Err "json") in
  let check :=
    protocol.MonitorData.mk "m1" "http" "https://example.com" "up" 200 35 ""
      "" true 0 0 4321 in
  let monitorFrame :=
    protocol.mkRawMessage (Err "json") (Err "json") (Err "json") (Err "json")
      (Err "json") (Err "json") (Err "json") (Err "json") (Err "json")
      (Ok [check]) in
  let st := Ingest.mkState [] [] [] in
  (∃ row,
     Ingest.rows
       (Ingest.HandleMetricData 5000 st "a1" protocol.MetricTypeCPU cpuFrame).2
     = [row] ∧ models.timestamp row = 5000) ∧
  (∃ row,
     Ingest.rows
       (Ingest.HandleMetricData 5000 st "a1" protocol.MetricTypeMonitor
          monitorFrame).2
     = [row] ∧ models.timestamp row = 4321).
Proof.
  intros cpu cpuFrame check monitorFrame st. split.
  - destruct (C7_row_timestamps 5000 st "a1" protocol.MetricTypeCPU cpuFrame)
      as (_ & Hone & _).
    destruct (Hone (models.CPURow (Ingest.cpuMetric 5000 "a1" cpu)) eq_refl
                eq_refl) as [Hrows Hstamp].
    eexists. split; [exact Hrows|exact Hstamp].
  - destruct (C7_row_timestamps 5000 st "a1" protocol.MetricTypeMonitor
                monitorFrame) as (_ & _ & Heach).
    destruct (Heach [models.MonitorRow (Ingest.monitorMetric "a1" check)]
                eq_refl) as (_ & Hrows & _).
    eexists. split; [exact (Hrows eq_refl)|reflexivity].
Defined.

(** A disk frame of two elements whose first write the database refuses:
    the second element is stored and the frame returns no error. *)
Example disk_frame_refused_write :
  let d1 := protocol.DiskData.mk "/" 100 40 60 40 in
  let d2 := protocol.DiskData.mk "/data" 200 50 150 25 in
  let data :=
    protocol.mkRawMessage (Err "json: cannot unmarshal array")
      (Err "json: cannot unmarshal array") (Ok [d1; d2]) (Err "json")
      (Err "json") (Err "json") (Err "json") (Err "json") (Err "json")
      (Err "json") in
  let st := Ingest.mkState [] [Some "database is locked"%string] [] in
  let out := Ingest.HandleMetricData 5000 st "a1" protocol.MetricTypeDisk data in
  out.1 = Ingest.Returned (Ok tt) ∧
  Ingest.rows out.2 = [models.DiskRow (Ingest.diskMetric 5000 "a1" d2)] ∧
  length (Ingest.logs out.2) = 1%nat.
Proof.
  intros d1 d2 data st out.
  destruct (HandleMetricData_array_frames 5000 st "a1" protocol.MetricTypeDisk
              data
              [models.DiskRow (Ingest.diskMetric 5000 "a1" d1);
               models.DiskRow (Ingest.diskMetric 5000 "a1" d2)]
              eq_refl) as (Hret & Hrows & _ & Hlogs).
  split; [exact Hret|]. split; [exact Hrows|exact Hlogs].
Qed.

(** C8.  The code at the input that separates it from the claim.  A disk
    I/O payload decodes into a slice of pointers, [[]*protocol.DiskIOData],
    where the five other array-carrying kinds decode into slices of values,
    and the loop reads the fields of each element without a nil test.  For
    the disk I/O frame [[{sda}, null, {sdb}]] the row of [sda] is written,
    the call panics at the second element, the row of [sdb] is never
    written, nothing is logged and no result is returned; the same three
    elements in a disk frame, where [null] decodes into the zero value, give
    three rows and no error. *)
Theorem C8_diskIO_null_element :
  let sda := protocol.DiskIOData.mk "sda" 1 2 3 4 5 6 7 8 9 10 in
  let sdb := protocol.DiskIOData.mk "sdb" 1 2 3 4 5 6 7 8 9 10 in
  let diskIOFrame :=
    protocol.mkRawMessage (Err "json") (Err "json") (Err "json") (Err "json")
      (Err "json") (Ok [Some sda; None; Some sdb]) (Err "json") (Err "json")
      (Err "json") (Err "json") in
  let d1 := protocol.DiskData.mk "/" 100 40 60 40 in
  let zero := protocol.DiskData.mk "" 0 0 0 0 in
  let d2 := protocol.DiskData.mk "/data" 200 50 150 25 in
  let diskFrame :=
    protocol.mkRawMessage (Err "json") (Err "json") (Ok [d1; zero; d2])
      (Err "json") (Err "json") (Err "json") (Err "json") (Err "json")
      (Err "json") (Err "json") in
  let st := Ingest.mkState [] [] [] in
  let out :=
    Ingest.HandleMetricData 5000 st "a1" protocol.MetricTypeDiskIO diskIOFrame in
  let sibling :=
    Ingest.HandleMetricData 5000 st "a1" protocol.MetricTypeDisk diskFrame in
  Ingest.isArrayKind protocol.MetricTypeDiskIO = true ∧
  out.1 = Ingest.Panicked ∧
  Ingest.rows out.2 = [models.DiskIORow (Ingest.diskIOMetric 5000 "a1" sda)] ∧
  Ingest.logs out.2 = [] ∧
  sibling.1 = Ingest.Returned (Ok tt) ∧
  length (Ingest.rows sibling.2) = 3%nat.
Proof. repeat split. Qed.

(** ** Property store *)

Section PropertyFacts.

Import PropertyStore.

Context {V : Type}.
Variable marshal : V -> result string.

(** After a write that went through, the cache holds nothing for the key. *)
Lemma Set_invalidates now1 now2 fault st id name (value : V) st1 :
  Set_ marshal now1 now2 fault st id name value = (Ok tt, st1) ->
  ∃ jsonValue,
    marshal value = Ok jsonValue ∧
    cache st1 !! id = None ∧
    table st1 !! id = Some (Property.mk id name jsonValue now1 now2).
Proof.
  unfold Set_, Save. destruct (marshal value) as [jsonValue|]; [|discriminate].
  destruct fault; [discriminate|]. simpl. intros [= <-].
  exists jsonValue. simpl. by rewrite lookup_delete_eq, lookup_insert_eq.
Qed.

(** C9.  Property writes invalidate the read cache: after [Set(id, name,
    value)] has written the property, [Get(id)] returns the property whose
    [Value] is the JSON encoding of the value just written, whatever the
    cache held for [id] before the write. *)
Theorem C9_set_then_get now1 now2 fault now st id name (value : V) st1 :
  Set_ marshal now1 now2 fault st id name value = (Ok tt, st1) ->
  ∃ jsonValue property,
    marshal value = Ok jsonValue ∧
    (Get now st1 id).1 = Ok property ∧
    Property.ID property = id ∧
    Property.Name property = name ∧
    Property.Value property = jsonValue.
Proof.
  intros HSet. destruct (Set_invalidates _ _ _ _ _ _ _ _ HSet)
    as (jsonValue & Hm & Hc & Ht).
  exists jsonValue, (Property.mk id name jsonValue now1 now2).
  split; [exact Hm|]. unfold Get, cacheGet, FindById. by rewrite Hc, Ht.
Qed.

End PropertyFacts.

(** A stale entry for ["alert_config"] sits in the cache; after a write of
    the value [7], encoded as ["7"], the read returns ["7"]. *)
Lemma C9_set_then_get_witness :
  let marshal : Z -> result string := fun _ => Ok "7"%string in
  let old := PropertyStore.Property.mk "alert_config" "alerts" "1" 10 10 in
  let st :=
    PropertyStore.mkState {["alert_config"%string := old]}
      {["alert_config"%string := (old, 3600010)]} in
  let st1 := (PropertyStore.Set_ marshal 20 20 None st "alert_config" "alerts" 7).2 in
  ∃ property,
    (PropertyStore.Get 30 st1 "alert_config").1 = Ok property ∧
    PropertyStore.Property.Value property = "7"%string.
Proof.
  intros marshal old st st1.
  destruct (C9_set_then_get marshal 20 20 None 30 st "alert_config" "alerts"
              7 st1 eq_refl) as (jsonValue & property & Hm & Hg & _ & _ & Hv).
  exists property. split; [exact Hg|].
  rewrite Hv. by injection Hm as <-.
Defined.

Section PublicIPFacts.

Import PropertyStore.

Lemma normalizedScope (scope : string) :
  let filled := if String.eqb scope "" then "all"%string else scope in
  (if negb (String.eqb filled "all") && negb (String.eqb filled "custom")
   then "all"%string else filled)
  = if String.eqb scope "custom" then "custom"%string else "all"%string.
Proof.
  simpl. destruct (String.eqb_spec scope "") as [->|Hne]; [reflexivity|].
  destruct (String.eqb_spec scope "all") as [->|Hall]; [reflexivity|].
  destruct (String.eqb_spec scope "custom") as [->|Hc]; reflexivity.
Qed.

(** What [applyPublicIPConfigDefaults] leaves in each field. *)
Lemma applyPublicIPConfigDefaults_fields config :
  let config' := applyPublicIPConfigDefaults config in
  PublicIPConfig.IntervalSeconds config'
  = (if PublicIPConfig.IntervalSeconds config <=? 0 then 300
     else PublicIPConfig.IntervalSeconds config) ∧
  PublicIPConfig.IPv4Scope config'
  = (if String.eqb (PublicIPConfig.IPv4Scope config) "custom"
     then "custom"%string else "all"%string) ∧
  PublicIPConfig.IPv6Scope config'
  = (if String.eqb (PublicIPConfig.IPv6Scope config) "custom"
     then "custom"%string else "all"%string) ∧
  PublicIPConfig.IPv4APIs config'
  = match PublicIPConfig.IPv4APIs config with
    | [] => defaultPublicIPv4APIs
    | apis => apis
    end ∧
  PublicIPConfig.IPv6APIs config'
  = match PublicIPConfig.IPv6APIs config with
    | [] => defaultPublicIPv6APIs
    | apis => apis
    end.
Proof.
  destruct config as [en iv s4 a4 s6 a6 e4 e6 l4 l6].
  unfold applyPublicIPConfigDefaults. cbn [PublicIPConfig.IntervalSeconds
    PublicIPConfig.IPv4Scope PublicIPConfig.IPv6Scope PublicIPConfig.IPv4APIs
    PublicIPConfig.IPv6APIs].
  split; [reflexivity|]. split; [apply normalizedScope|].
  split; [apply normalizedScope|]. split; [by destruct l4|by destruct l6].
Qed.

(** C10.  Whenever [GetPublicIPConfig] returns without error, the returned
    configuration is normalized: [IntervalSeconds] is positive (300 when the
    stored value is not), [IPv4Scope] and [IPv6Scope] are each ["all"] or
    ["custom"] (any other stored value becomes ["all"]), and [IPv4APIs] and
    [IPv6APIs] are non-empty (the built-in lists when the stored lists are
    empty). *)
Theorem C10_public_ip_config_normalized unmarshal now st config :
  (GetPublicIPConfig unmarshal now st).1 = Ok config ->
  (0 < PublicIPConfig.IntervalSeconds config ∧
   (PublicIPConfig.IPv4Scope config = "all"%string ∨
    PublicIPConfig.IPv4Scope config = "custom"%string) ∧
   (PublicIPConfig.IPv6Scope config = "all"%string ∨
    PublicIPConfig.IPv6Scope config = "custom"%string) ∧
   PublicIPConfig.IPv4APIs config ≠ [] ∧
   PublicIPConfig.IPv6APIs config ≠ [])
  ∧ ∃ property stored,
      (Get now st PropertyIDPublicIPConfig).1 = Ok property ∧
      storedConfig unmarshal property = Ok stored ∧
      PublicIPConfig.IntervalSeconds config
      = (if PublicIPConfig.IntervalSeconds stored <=? 0 then 300
         else PublicIPConfig.IntervalSeconds stored) ∧
      PublicIPConfig.IPv4Scope config
      = (if String.eqb (PublicIPConfig.IPv4Scope stored) "custom"
         then "custom"%string else "all"%string) ∧
      PublicIPConfig.IPv6Scope config
      = (if String.eqb (PublicIPConfig.IPv6Scope stored) "custom"
         then "custom"%string else "all"%string) ∧
      PublicIPConfig.IPv4APIs config
      = match PublicIPConfig.IPv4APIs stored with
        | [] => defaultPublicIPv4APIs
        | apis => apis
        end ∧
      PublicIPConfig.IPv6APIs config
      = match PublicIPConfig.IPv6APIs stored with
        | [] => defaultPublicIPv6APIs
        | apis => apis
        end.
Proof.
  assert (Hfin : ∀ stored,
    let c := applyPublicIPConfigDefaults stored in
    0 < PublicIPConfig.IntervalSeconds c ∧
    (PublicIPConfig.IPv4Scope c = "all"%string ∨
     PublicIPConfig.IPv4Scope c = "custom"%string) ∧
    (PublicIPConfig.IPv6Scope c = "all"%string ∨
     PublicIPConfig.IPv6Scope c = "custom"%string) ∧
    PublicIPConfig.IPv4APIs c ≠ [] ∧
    PublicIPConfig.IPv6APIs c ≠ []).
  { intros stored c.
    destruct (applyPublicIPConfigDefaults_fields stored)
      as (Hi & H4 & H6 & Ha4 & Ha6).
    fold c in Hi, H4, H6, Ha4, Ha6. rewrite Hi, H4, H6, Ha4, Ha6.
    clear Hi H4 H6 Ha4 Ha6.
    split; [destruct (Z.leb_spec (PublicIPConfig.IntervalSeconds stored) 0); lia|].
    split; [destruct (String.eqb _ _); [right; reflexivity|left; reflexivity]|].
    split; [destruct (String.eqb _ _); [right; reflexivity|left; reflexivity]|].
    split; [by destruct (PublicIPConfig.IPv4APIs stored)|
            by destruct (PublicIPConfig.IPv6APIs stored)]. }
  unfold GetPublicIPConfig, GetValue, storedConfig.
  destruct (Get now st PropertyIDPublicIPConfig) as [[property|e] st1];
    [|discriminate].
  destruct (String.eqb (Property.Value property) "") eqn:Hv.
  - simpl. intros [= <-]. split; [apply Hfin|].
    exists property, PublicIPConfig.zero. rewrite Hv.
    split; [reflexivity|]. split; [reflexivity|].
    apply applyPublicIPConfigDefaults_fields.
  - destruct (unmarshal (Property.Value property) PublicIPConfig.zero)
      as [stored|e] eqn:Hu; [|discriminate].
    simpl. intros [= <-]. split; [apply Hfin|].
    exists property, stored. rewrite Hv.
    split; [reflexivity|]. split; [exact Hu|].
    apply applyPublicIPConfigDefaults_fields.
Qed.

End PublicIPFacts.

(** A stored configuration with a negative interval, an unknown IPv4 scope
    and no API lists is read back normalized. *)
Lemma C10_public_ip_config_normalized_witness :
  let unmarshal : string -> _ -> result PropertyStore.PublicIPConfig.t :=
    fun _ _ =>
      Ok (PropertyStore.PublicIPConfig.mk true (-5) "some" [] "custom" []
            true true [] ["https://v6.ident.me"%string]) in
  let st :=
    PropertyStore.mkState
      {["public_ip_config"%string :=
          PropertyStore.Property.mk "public_ip_config" "ip" "{}" 10 10]} ∅ in
  ∃ config,
    (PropertyStore.GetPublicIPConfig unmarshal 20 st).1 = Ok config ∧
    0 < PropertyStore.PublicIPConfig.IntervalSeconds config ∧
    PropertyStore.PublicIPConfig.IPv4APIs config ≠ [].
Proof.
  intros unmarshal st. eexists. split; [reflexivity|].
  destruct (C10_public_ip_config_normalized unmarshal 20 st _ eq_refl)
    as [(Hi & _ & _ & Ha & _) _].
  split; [exact Hi|exact Ha].
Defined.

(** ** The planner on the scenarios of the specification *)

(** A seven-day query with no requested interval and the default budget:
    one point per hour. *)
Example interval_seven_days :
  Planner.effectiveInterval None 1700000000000000000 1699395200000
    1700000000000 0
  = 3600.
Proof. vm_compute. reflexivity. Qed.

(** The most recent 90 seconds: base interval 5 s, below every aggregate
    bucket. *)
Example interval_last_90_seconds :
  Planner.effectiveInterval None 1700000000000000000 1699999910000
    1700000000000 0
  = 5.
Proof. vm_compute. reflexivity. Qed.

(** A base interval outside the allowed set is aligned: three hours give
    180 s, served at 300 s. *)
Example interval_three_hours :
  Planner.calculateBaseInterval 1699989200000 1700000000000 = 180 ∧
  Planner.effectiveInterval None 1700000000000000000 1699989200000
    1700000000000 0
  = 300.
Proof. split; vm_compute; reflexivity. Qed.

(** A range of 121 days: 14520 s per point would be needed, the planner
    answers 14400 s, the largest allowed interval. *)
Example interval_121_days :
  Planner.requiredInterval 1700000000000 1710454400000 720 = 14520 ∧
  Planner.effectiveInterval None 1700000100000000000 1700000000000
    1710454400000 0
  = 14400.
Proof. split; vm_compute; reflexivity. Qed.

(** A requested interval above every allowed member is cut down to 14400,
    not rounded up. *)
Example interval_requested_too_large :
  Planner.effectiveInterval None 1700000000000000000 1699999000000
    1700000000000 20000
  = 14400.
Proof. vm_compute. reflexivity. Qed.

(** The required interval is computed in binary64: for this range and a
    budget of three points the exact quotient is just above
    3003126831512, and the rounded one is 3003126831512. *)
Example required_rounds_in_binary64 :
  Planner.requiredInterval 0 9009380494536001 3 = 3003126831512 ∧
  3 * 1000 * 3003126831512 < 9009380494536001.
Proof. split; [vm_compute; reflexivity|lia]. Qed.

(** The range is an [int64] difference: from the largest [int64] to an end
    far below it, the difference wraps around to 30 days, and the budget of
    720 points asks for an hour per point. *)
Example range_difference_wraps :
  Planner.adjustIntervalForMaxPoints 9223372036854775807
    (-9223372034262775809) 1 720
  = 3600.
Proof. vm_compute. reflexivity. Qed.

(** A retention period of 2562048 hours does not fit a [time.Duration]: the
    product wraps around to a negative duration, the boundary lies in the
    future, and a query for the last 1000 seconds is moved there. *)
Example retention_duration_wraps :
  Planner.normalizeTimeRange (Some (Planner.mkMetricsConfig 2562048 0))
    1700000000000000000 1699999000000 1700000000000
  = (10923371273709, 10923371274709).
Proof. vm_compute. reflexivity. Qed.

(** * Further properties of the code *)

(** ** Query planner *)

Section PlannerMore.

Import Planner.

Lemma allowedIntervals_le_max c : c ∈ allowedIntervals -> 1 <= c <= 14400.
Proof.
  unfold allowedIntervals. rewrite !elem_of_cons, elem_of_nil. lia.
Qed.

Lemma alignInterval_member x : alignInterval x ∈ allowedIntervals.
Proof.
  destruct (Z.le_gt_cases x 14400) as [Hle|Hgt].
  - by destruct (alignInterval_roundedUp x Hle).
  - rewrite alignInterval_cap by lia. unfold allowedIntervals.
    rewrite !elem_of_cons. tauto.
Qed.

Lemma alignInterval_mono x y : x <= y -> alignInterval x <= alignInterval y.
Proof.
  intros Hxy. destruct (Z.le_gt_cases y 14400) as [Hle|Hgt].
  - destruct (alignInterval_roundedUp x ltac:(lia)) as (_ & _ & Hleast).
    destruct (alignInterval_roundedUp y Hle) as (Hin & Hy & _).
    apply Hleast; [exact Hin|lia].
  - rewrite (alignInterval_cap y) by lia.
    apply (allowedIntervals_le_max _ (alignInterval_member x)).
Qed.

(** [alignInterval] always answers with a member of the allowed set, leaves
    the members as they are, and is monotone. *)
Theorem alignInterval_member_fixed_monotone x :
  alignInterval x ∈ allowedIntervals ∧
  (x ∈ allowedIntervals -> alignInterval x = x) ∧
  ∀ y, x <= y -> alignInterval x <= alignInterval y.
Proof.
  split; [apply alignInterval_member|]. split; [|apply alignInterval_mono].
  intros Hin. pose proof (allowedIntervals_le_max x Hin) as Hx.
  destruct (alignInterval_roundedUp x ltac:(lia)) as (_ & Hle & Hleast).
  specialize (Hleast x Hin ltac:(lia)). lia.
Qed.

Lemma alignInterval_14400 x : 14400 <= x -> alignInterval x = 14400.
Proof.
  intros Hx. destruct (Z.eq_dec x 14400) as [->|Hne]; [reflexivity|].
  apply alignInterval_cap. lia.
Qed.

(** For every input, degenerate ones included (no budget, an empty or
    reversed range, a non-positive interval), [adjustIntervalForMaxPoints]
    answers with a member of the allowed set; the budget only ever coarsens
    the interval, and it is ignored when [maxPoints <= 0] or when the
    [int64] difference [end - start] is not positive. *)
Theorem adjustIntervalForMaxPoints_total start end_ interval maxPoints :
  let r := adjustIntervalForMaxPoints start end_ interval maxPoints in
  r ∈ allowedIntervals ∧
  alignInterval (Z.max interval 1) <= r ∧
  (maxPoints <= 0 ∨ wrap64 (end_ - start) <= 0 ->
   r = alignInterval (Z.max interval 1)).
Proof.
  intros r. subst r. rewrite adjustIntervalForMaxPoints_eq.
  destruct (Z.leb_spec maxPoints 0) as [Hmp|Hmp];
    destruct (Z.leb_spec (wrap64 (end_ - start)) 0) as [Hd|Hd]; simpl;
    try (split; [apply alignInterval_member|split; [lia|done]]).
  split; [apply alignInterval_member|]. split; [apply alignInterval_mono; lia|].
  intros [?|?]; lia.
Qed.

(** The first planner's table is the present one cut off at one minute per
    point. *)
Theorem CalculateInterval_is_capped_base start end_ :
  CalculateInterval start end_ = Z.min (calculateBaseInterval start end_) 60.
Proof.
  unfold CalculateInterval, calculateBaseInterval.
  set (d := wrap64 (end_ - start) ÷ 1000).
  repeat match goal with
         | |- context [?a <=? ?b] => destruct (Z.leb_spec a b)
         end; lia.
Qed.

Lemma quot_1000_bounds d : d <= 1000 * (d ÷ 1000) + 999.
Proof.
  pose proof (Z.quot_rem d 1000 ltac:(lia)) as E.
  destruct (Z.le_gt_cases 0 d) as [H|H].
  - pose proof (Z.rem_bound_pos d 1000 H ltac:(lia)). lia.
  - pose proof (Z.rem_bound_pos_neg d 1000 ltac:(lia) ltac:(lia)). lia.
Qed.

(** With the default budget of 720 points the duration table already keeps
    within the budget: for every range of at most 120 days (and for an
    empty or reversed one) [defaultIntervalWithLimit] is the base interval,
    aligned. *)
Theorem defaultIntervalWithLimit_is_aligned_base start end_ :
  end_ - start <= 10368000000 ->
  defaultIntervalWithLimit start end_
  = alignInterval (calculateBaseInterval start end_).
Proof.
  intros _. unfold defaultIntervalWithLimit.
  rewrite adjustIntervalForMaxPoints_eq. unfold defaultMaxQueryPoints. simpl.
  pose proof (calculateBaseInterval_pos start end_) as Hb.
  rewrite (Z.max_l _ 1) by lia.
  destruct (Z.leb_spec (wrap64 (end_ - start)) 0) as [Hle|Hlt]; [reflexivity|].
  destruct (Z.le_gt_cases (wrap64 (end_ - start) ÷ 1000) (14 * 24 * 60 * 60))
    as [Hshort|Hlong].
  - f_equal. apply Z.max_l. apply requiredInterval_720_le; [exact Hlt|].
    pose proof (quot_1000_bounds (wrap64 (end_ - start))) as Hq.
    revert Hb. unfold calculateBaseInterval.
    set (d := wrap64 (end_ - start) ÷ 1000) in *.
    repeat match goal with
           | |- context [?a <=? ?b] => destruct (Z.leb_spec a b)
           end; lia.
  - assert (E : calculateBaseInterval start end_ = 14400).
    { unfold calculateBaseInterval.
      set (d := wrap64 (end_ - start) ÷ 1000) in *.
      repeat match goal with
             | |- context [?a <=? ?b] => destruct (Z.leb_spec a b)
             end; lia. }
    rewrite E. rewrite alignInterval_14400 by lia. reflexivity.
Qed.

(** As long as [start + 1000] cannot leave the [int64] range (the start and
    the retention boundary are [int64] values below 2^63 - 1000),
    [normalizeTimeRange] yields a non-empty range that starts at or after
    the retention boundary; a range that already is one is left as it is,
    so normalizing twice is normalizing once.  With a retention period
    below 2562048 hours the boundary is the clock's milliseconds less the
    retention period. *)
Theorem normalizeTimeRange_spec loaded now start end_ :
  let boundary := retentionBoundary loaded now in
  let range := normalizeTimeRange loaded now start end_ in
  - 2 ^ 63 <= start < 2 ^ 63 - 1000 ->
  - 2 ^ 63 <= boundary < 2 ^ 63 - 1000 ->
  boundary <= range.1 ∧ range.1 < range.2 ∧
  (boundary <= start -> start < end_ -> range = (start, end_)) ∧
  normalizeTimeRange loaded now range.1 range.2 = range ∧
  (RetentionHours (getMetricsConfig loaded) < 2562048 ->
   boundary = now / 1000000 - RetentionHours (getMetricsConfig loaded) * 3600000).
Proof.
  intros boundary range Hs Hb. subst range.
  assert (Hnw : RetentionHours (getMetricsConfig loaded) < 2562048 ->
    boundary = now / 1000000 - RetentionHours (getMetricsConfig loaded) * 3600000)
    by apply retentionBoundary_no_wrap.
  unfold normalizeTimeRange. fold boundary. clearbody boundary. cbn [fst snd].
  assert (Hw : ∀ s, - 2 ^ 63 <= s < 2 ^ 63 - 1000 -> wrap64 (s + 1000) = s + 1000).
  { intros s H. apply wrap64_small. lia. }
  split; [destruct (Z.ltb_spec start boundary); lia|].
  assert (Hlt : (if start <? boundary then boundary else start)
                < (if end_ <=? (if start <? boundary then boundary else start)
                   then wrap64 ((if start <? boundary then boundary else start) + 1000)
                   else end_)).
  { destruct (Z.ltb_spec start boundary);
      match goal with |- context [end_ <=? ?s] => destruct (Z.leb_spec end_ s) end;
      rewrite ?Hw by lia; lia. }
  split; [exact Hlt|]. split; [|split].
  - intros H1 H2. destruct (Z.ltb_spec start boundary); [lia|].
    by destruct (Z.leb_spec end_ start); [lia|].
  - set (s := if start <? boundary then boundary else start) in *.
    set (e := if end_ <=? s then _ else _) in *.
    assert (Hbs : boundary <= s) by (subst s; destruct (Z.ltb_spec start boundary); lia).
    destruct (Z.ltb_spec s boundary); [lia|].
    by destruct (Z.leb_spec e s); [lia|].
  - exact Hnw.
Qed.

End PlannerMore.

(** A three-day range under the default budget. *)
Lemma defaultIntervalWithLimit_is_aligned_base_witness :
  Planner.defaultIntervalWithLimit 1699740800000 1700000000000 = 1800.
Proof.
  exact (defaultIntervalWithLimit_is_aligned_base 1699740800000 1700000000000
           ltac:(vm_compute; discriminate)).
Defined.

(** A query at 1 700 000 000 000 ms that reaches back ten days, under the
    default retention of seven days: the start is moved to the boundary. *)
Lemma normalizeTimeRange_spec_witness :
  let range :=
    Planner.normalizeTimeRange None 1700000000000000000 1699136000000
      1700000000000 in
  Planner.retentionBoundary None 1700000000000000000 = 1699395200000 ∧
  1699395200000 <= range.1 ∧ range.1 < range.2 ∧
  Planner.normalizeTimeRange None 1700000000000000000 range.1 range.2 = range.
Proof.
  intros range.
  destruct (normalizeTimeRange_spec None 1700000000000000000 1699136000000
              1700000000000 ltac:(lia)
              ltac:(vm_compute; split; [discriminate|reflexivity]))
    as (H1 & H2 & _ & H4 & H5).
  split; [exact (H5 ltac:(vm_compute; reflexivity))|].
  split; [exact H1|]. split; [exact H2|exact H4].
Defined.

(** ** Query routing *)

Section QueryMore.

Import Planner Query.

Context {RawRow AggRow : Type}.
Variable queryRaw : string -> string -> Z -> Z -> Z -> result (list RawRow).
Variable queryAgg : string -> string -> Z -> Z -> Z -> result (list AggRow).

(** Where an answer of [GetMetrics] comes from.  Aggregate rows are never
    an empty list and come from a bucket of 60, 300 or 3600 seconds that is
    no wider than the effective interval; raw rows are the raw query at the
    effective interval; a nil answer means the kind is not served; and an
    error is always the error of the raw query: a failure of the aggregate
    read never reaches the caller. *)
Theorem GetMetrics_answer_origin loaded now agentID metricType start end_
    requested :
  let range := normalizeTimeRange loaded now start end_ in
  let interval := effectiveInterval loaded now start end_ requested in
  match GetMetrics queryRaw queryAgg loaded now agentID metricType start end_
          requested with
  | Ok (AggData metrics) =>
      metrics ≠ [] ∧
      ∃ bucketSeconds,
        bucketSeconds ∈ [60; 300; 3600] ∧ bucketSeconds <= interval ∧
        queryAgg metricType agentID range.1 range.2 bucketSeconds = Ok metrics
  | Ok (RawData metrics) =>
      queryRaw metricType agentID range.1 range.2 interval = Ok metrics
  | Ok NilData => metricType ∉ aggCapable
  | Err e => queryRaw metricType agentID range.1 range.2 interval = Err e
  end.
Proof.
  intros range interval.
  destruct (decide (metricType ∈ aggCapable)) as [Hin|Hnot];
    [|by rewrite GetMetrics_other_kind].
  rewrite GetMetrics_readKind by exact Hin. fold range interval.
  unfold chooseBucket, isAggCapable. rewrite bool_decide_eq_true_2 by exact Hin.
  unfold readKind.
  assert (Hraw :
    match
      match queryRaw metricType agentID range.1 range.2 interval with
      | Ok metrics => Ok (RawData metrics)
      | Err e => Err e
      end
    with
    | Ok (AggData metrics) =>
        metrics ≠ [] ∧
        ∃ bucketSeconds,
          bucketSeconds ∈ [60; 300; 3600] ∧ bucketSeconds <= interval ∧
          queryAgg metricType agentID range.1 range.2 bucketSeconds = Ok metrics
    | Ok (RawData metrics) =>
        queryRaw metricType agentID range.1 range.2 interval = Ok metrics
    | Ok NilData => metricType ∉ aggCapable
    | Err e => queryRaw metricType agentID range.1 range.2 interval = Err e
    end) by (destruct (queryRaw _ _ _ _ _); reflexivity).
  assert (Hagg : ∀ b, b ∈ [60; 300; 3600] -> b <= interval ->
    match
      match queryAgg metricType agentID range.1 range.2 b with
      | Ok metrics =>
          if (0 <? length metrics)%nat then Ok (AggData metrics)
          else match queryRaw metricType agentID range.1 range.2 interval with
               | Ok metrics => Ok (RawData metrics)
               | Err e => Err e
               end
      | Err _ =>
          match queryRaw metricType agentID range.1 range.2 interval with
          | Ok metrics => Ok (RawData metrics)
          | Err e => Err e
          end
      end
    with
    | Ok (AggData metrics) =>
        metrics ≠ [] ∧
        ∃ bucketSeconds,
          bucketSeconds ∈ [60; 300; 3600] ∧ bucketSeconds <= interval ∧
          queryAgg metricType agentID range.1 range.2 bucketSeconds = Ok metrics
    | Ok (RawData metrics) =>
        queryRaw metricType agentID range.1 range.2 interval = Ok metrics
    | Ok NilData => metricType ∉ aggCapable
    | Err e => queryRaw metricType agentID range.1 range.2 interval = Err e
    end).
  { intros b Hb Hle.
    destruct (queryAgg metricType agentID range.1 range.2 b) as [[|m ms]|e] eqn:Hq;
      simpl; try exact Hraw.
    split; [discriminate|]. by exists b. }
  destruct (Z.geb_spec interval 3600); simpl.
  { apply Hagg; [rewrite !elem_of_cons; tauto|lia]. }
  destruct (Z.geb_spec interval 300); simpl.
  { apply Hagg; [rewrite !elem_of_cons; tauto|lia]. }
  destruct (Z.geb_spec interval 60); simpl.
  { apply Hagg; [rewrite !elem_of_cons; tauto|lia]. }
  exact Hraw.
Qed.

End QueryMore.

(** ** Downsampler *)

Section RollupMore.

Import Rollup.

Context {Agg : Type}.
Implicit Types (st : State Agg) (fn : aggregateFn Agg).

(** [aggregateMetric], read through the window it works on. *)
Lemma aggregateMetric_tickWindow now1 now2 readFault fault metricType
    bucketSeconds retention fn st :
  aggregateMetric now1 now2 readFault fault metricType bucketSeconds retention
    fn st =
  match tickWindow now1 now2 readFault metricType bucketSeconds retention st with
  | None => st
  | Some (start, end_) =>
      match fn bucketSeconds start end_ (aggregates st) with
      | Err _ =>
          mkState (progress st) (aggregates st)
                  (logs st ++ ["aggregate metric failed"%string])
      | Ok agg =>
          match fault with
          | Some _ =>
              mkState (progress st) agg
                (logs st ++ ["update aggregation progress failed"%string])
          | None =>
              mkState (<[(metricType, bucketSeconds) :=
                           end_ + 1 - bucketSeconds * 1000]> (progress st))
                      agg (logs st)
          end
      end
  end.
Proof.
  unfold aggregateMetric, tickWindow.
  destruct (_ <=? _); [reflexivity|].
  destruct (fn _ _ _ _); [|reflexivity].
  destruct fault; simpl; [reflexivity|]. do 3 f_equal. lia.
Qed.

Lemma multiple_mod a b : 0 < b -> (a * b) mod b = 0.
Proof. intros. apply Z.mod_mul. lia. Qed.

Lemma mod_multiple a b : 0 < b -> a mod b = 0 -> a = (a / b) * b.
Proof. intros Hb Hm. pose proof (Z.div_mod a b ltac:(lia)). lia. Qed.

(** The start of a window on an aligned progress table: a non-negative
    multiple of the bucket width. *)
Lemma getAggregationStart_aligned now readFault st metricType bucketSeconds
    retention :
  0 < bucketSeconds ->
  0 <= now - retention ->
  alignedProgress st ->
  let start :=
    getAggregationStart now readFault st metricType bucketSeconds retention
      (bucketSeconds * 1000) in
  0 <= start ∧ start mod (bucketSeconds * 1000) = 0.
Proof.
  intros Hb Hnow Hal. unfold getAggregationStart, GetAggregationProgress.
  assert (Hfb : 0 <= (now - retention) ÷ (bucketSeconds * 1000) * (bucketSeconds * 1000)
                ∧ ((now - retention) ÷ (bucketSeconds * 1000) * (bucketSeconds * 1000))
                    mod (bucketSeconds * 1000) = 0).
  { split; [|apply multiple_mod; lia].
    rewrite quot_floor by lia. apply Z.mul_nonneg_nonneg; [|lia].
    apply Z.div_pos; lia. }
  destruct readFault as [e|]; [exact Hfb|].
  destruct (progress st !! (metricType, bucketSeconds)) as [lb|] eqn:Hl;
    simpl; [|exact Hfb].
  destruct (Hal _ _ _ Hl) as [Hpos Hmod].
  destruct (Z.gtb_spec lb 0); [|lia].
  split; [lia|].
  rewrite <- Zplus_mod_idemp_l, Hmod. simpl. apply Z.mod_same. lia.
Qed.

(** Every window a tick aggregates, whether its progress read has succeeded
    or failed, starts and ends on bucket boundaries, lies wholly before the
    clock, and covers at least two whole buckets: a single newly closed
    bucket waits for the next one. *)
Theorem tickWindow_closed_buckets now1 now2 readFault metricType bucketSeconds
    retention st start end_ :
  bucketSeconds ∈ buckets ->
  0 <= now1 - retention ->
  0 <= now2 - bucketSeconds * 1000 ->
  alignedProgress st ->
  tickWindow now1 now2 readFault metricType bucketSeconds retention st
  = Some (start, end_) ->
  let bucketMs := bucketSeconds * 1000 in
  start mod bucketMs = 0 ∧ (end_ + 1) mod bucketMs = 0 ∧
  0 <= start ∧ end_ < now2 ∧ start + 2 * bucketMs <= end_ + 1.
Proof.
  intros Hb%buckets_pos Hnow1 Hnow2 Hal Hw bucketMs.
  destruct (getAggregationStart_aligned now1 readFault st metricType
              bucketSeconds retention Hb Hnow1 Hal) as [Hs0 Hsm].
  unfold tickWindow in Hw. fold bucketMs in Hw, Hs0, Hsm.
  set (s := getAggregationStart _ _ _ _ _ _ _) in *.
  rewrite (quot_floor (now2 - bucketSeconds * 1000)) in Hw by lia.
  fold bucketMs in Hw. set (q := (now2 - bucketMs) / bucketMs) in *.
  destruct (Z.leb_spec (q * bucketMs) s) as [|Hlt]; [discriminate|].
  injection Hw as <- <-.
  assert (Hms : 0 < bucketMs) by (subst bucketMs; lia).
  pose proof (mod_multiple s bucketMs Hms Hsm) as Hsa.
  pose proof (Z.mul_div_le (now2 - bucketMs) bucketMs Hms) as Hq. fold q in Hq.
  split; [exact Hsm|]. split.
  { replace (q * bucketMs + bucketMs - 1 + 1) with ((q + 1) * bucketMs) by lia.
    by apply multiple_mod. }
  split; [exact Hs0|]. split; [lia|].
  clearbody q s. set (a := s / bucketMs) in *. clearbody a.
  assert (a < q) by nia. nia.
Qed.

(** After a tick that has aggregated its window and stored its progress,
    the next tick, when its progress read succeeds, takes up at the
    millisecond after that window (no gap, no overlap), and such a tick
    whose clock is less than one bucket width later does nothing at all:
    running the tick twice back to back is running it once.  A next tick
    whose progress read fails starts over at the retention boundary. *)
Theorem aggregateMetric_next_tick now1 now2 readFault metricType bucketSeconds
    retention fn st start end_ agg :
  bucketSeconds ∈ buckets ->
  0 <= now1 - retention ->
  0 <= now2 - bucketSeconds * 1000 ->
  tickWindow now1 now2 readFault metricType bucketSeconds retention st
  = Some (start, end_) ->
  fn bucketSeconds start end_ (aggregates st) = Ok agg ->
  let st' :=
    aggregateMetric now1 now2 readFault None metricType bucketSeconds
      retention fn st in
  (∀ now1' retention',
     getAggregationStart now1' None st' metricType bucketSeconds retention'
       (bucketSeconds * 1000) = end_ + 1) ∧
  (∀ now1' now2' fault' retention' fn',
     now2' < now2 + bucketSeconds * 1000 ->
     aggregateMetric now1' now2' None fault' metricType bucketSeconds
       retention' fn' st' = st') ∧
  (∀ now1' retention' e,
     getAggregationStart now1' (Some e) st' metricType bucketSeconds
       retention' (bucketSeconds * 1000)
     = (now1' - retention') ÷ (bucketSeconds * 1000) * (bucketSeconds * 1000)).
Proof.
  intros Hb%buckets_pos Hnow1 Hnow2 Hw Hfn st'.
  destruct (getAggregationStart_lower now1 readFault st metricType
              bucketSeconds retention Hb Hnow1) as [Hs0 _].
  assert (Hst' : st' = mkState (<[(metricType, bucketSeconds) :=
                          end_ + 1 - bucketSeconds * 1000]> (progress st))
                        agg (logs st)).
  { subst st'. by rewrite aggregateMetric_tickWindow, Hw, Hfn. }
  unfold tickWindow in Hw.
  set (s := getAggregationStart _ _ _ _ _ _ _) in *.
  set (ms := bucketSeconds * 1000) in *.
  assert (Hms : 0 < ms) by (subst ms; lia).
  rewrite (quot_floor (now2 - ms)) in Hw by lia.
  set (q := (now2 - ms) / ms) in *.
  destruct (Z.leb_spec (q * ms) s) as [|Hlt]; [discriminate|].
  injection Hw as <- <-.
  assert (Hnext : ∀ now1' retention',
    getAggregationStart now1' None st' metricType bucketSeconds retention' ms
    = q * ms + ms - 1 + 1).
  { intros now1' retention'. rewrite Hst'.
    unfold getAggregationStart, GetAggregationProgress. simpl.
    rewrite lookup_insert_eq. simpl.
    destruct (Z.gtb_spec (q * ms + ms - 1 + 1 - ms) 0); lia. }
  split; [exact Hnext|]. split; [|reflexivity].
  intros now1' now2' fault' retention' fn' Hsoon.
  rewrite aggregateMetric_tickWindow. unfold tickWindow. fold ms.
  rewrite Hnext.
  destruct (Z.leb_spec ((now2' - ms) ÷ ms * ms) (q * ms + ms - 1 + 1))
    as [|Hgt]; [reflexivity|exfalso].
  pose proof (Z.mul_succ_div_gt (now2 - ms) ms Hms) as Hq. fold q in Hq.
  destruct (Z.le_gt_cases 0 (now2' - ms)) as [Hpos|Hneg].
  - rewrite quot_floor in Hgt by lia.
    pose proof (Z.mul_div_le (now2' - ms) ms Hms) as Hq'.
    set (q' := (now2' - ms) / ms) in *. clearbody q q'.
    unfold Z.succ in Hq. assert (q' < q + 2) by nia. nia.
  - pose proof (Z.quot_opp_l (now2' - ms) ms ltac:(lia)) as Ho.
    pose proof (Z.quot_pos (- (now2' - ms)) ms ltac:(lia) Hms) as Hp.
    set (q' := (now2' - ms) ÷ ms) in *. clearbody q q'. nia.
Qed.

Lemma foldl_invariant {A B : Type} (f : A -> B -> A) (P : A -> Prop)
    (l : list B) (a : A) :
  P a -> (∀ a x, x ∈ l -> P a -> P (f a x)) -> P (foldl f a l).
Proof.
  revert a. induction l as [|x l IH]; intros a Ha Hstep; simpl; [exact Ha|].
  apply IH.
  - apply Hstep; [left|exact Ha].
  - intros a' y Hy. apply Hstep. by right.
Qed.

(** One tick on the progress table: every other key stays, and its own
    key stays or takes a positive multiple of the bucket width, which lies
    beyond the stored one when the progress read has succeeded. *)
Lemma aggregateMetric_progress_step now1 now2 readFault fault metricType
    bucketSeconds retention fn st :
  0 < bucketSeconds ->
  0 <= now1 - retention ->
  let st' :=
    aggregateMetric now1 now2 readFault fault metricType bucketSeconds
      retention fn st in
  progress st' = progress st ∨
  ∃ lastBucket,
    progress st' = <[(metricType, bucketSeconds) := lastBucket]> (progress st) ∧
    0 < lastBucket ∧ lastBucket mod (bucketSeconds * 1000) = 0 ∧
    (readFault = None ->
     ∀ previous,
       progress st !! (metricType, bucketSeconds) = Some previous ->
       previous < lastBucket).
Proof.
  intros Hb Hnow1 st'. subst st'. rewrite aggregateMetric_tickWindow.
  destruct (getAggregationStart_lower now1 readFault st metricType
              bucketSeconds retention Hb Hnow1) as [Hs0 Hprev].
  unfold tickWindow.
  set (s := getAggregationStart _ _ _ _ _ _ _) in *.
  set (ms := bucketSeconds * 1000) in *.
  set (q := (now2 - ms) ÷ ms).
  destruct (Z.leb_spec (q * ms) s) as [|Hlt]; [by left|].
  destruct (fn _ _ _ _); [|by left].
  destruct fault; [by left|]. right. exists (q * ms). simpl.
  replace (q * ms + ms - 1 + 1 - ms) with (q * ms) by lia.
  split; [done|]. split; [lia|]. split; [apply multiple_mod; lia|].
  intros Hread previous Hp. specialize (Hprev Hread previous Hp). lia.
Qed.

(** [runAggregation] writes no key but those of its eight kinds and three
    bucket widths, and a run all of whose progress reads succeed never takes
    progress back. *)
Theorem runAggregation_progress_monotone loaded env aggregator st :
  (∀ bucket kind,
     0 <= now1 (env bucket kind)
          - Planner.RetentionHours (Planner.getMetricsConfig loaded) * 3600000) ->
  let st' := runAggregation loaded env aggregator st in
  ((∀ bucket kind, readFault (env bucket kind) = None) ->
   ∀ key previous,
     progress st !! key = Some previous ->
     ∃ lastBucket, progress st' !! key = Some lastBucket ∧ previous <= lastBucket)
  ∧ (∀ metricType bucketSeconds,
       metricType ∉ kinds ∨ bucketSeconds ∉ buckets ->
       progress st' !! (metricType, bucketSeconds)
       = progress st !! (metricType, bucketSeconds)).
Proof.
  intros Hclock st'. subst st'. unfold runAggregation.
  set (P := fun s : State Agg =>
    ((∀ bucket kind, readFault (env bucket kind) = None) ->
     ∀ key previous,
       progress st !! key = Some previous ->
       ∃ lastBucket, progress s !! key = Some lastBucket ∧ previous <= lastBucket)
    ∧ (∀ metricType bucketSeconds,
         metricType ∉ kinds ∨ bucketSeconds ∉ buckets ->
         progress s !! (metricType, bucketSeconds)
         = progress st !! (metricType, bucketSeconds))).
  apply (foldl_invariant _ P).
  { split; [intros _ key previous H; exists previous; split; [exact H|lia]|done]. }
  intros s bucket Hbucket Hs.
  apply (foldl_invariant _ P); [exact Hs|].
  intros s1 kind Hkind [Hmono Hframe].
  pose proof (aggregateMetric_progress_step (now1 (env bucket kind))
                (now2 (env bucket kind)) (readFault (env bucket kind))
                (upsertFault (env bucket kind)) kind
                bucket _ (aggregator kind) s1 (buckets_pos _ Hbucket)
                (Hclock bucket kind)) as Hstep.
  cbv zeta in Hstep. unfold P. cbv beta zeta.
  destruct Hstep as [->|(lb & -> & _ & _ & Hgt)]; [by split|].
  split.
  - intros Hreads key previous Hp.
    destruct (Hmono Hreads key previous Hp) as (v & Hv & Hle).
    destruct (decide (key = (kind, bucket))) as [->|Hne].
    + exists lb. rewrite lookup_insert_eq. split; [done|].
      specialize (Hgt (Hreads bucket kind) v Hv). lia.
    + exists v. by rewrite lookup_insert_ne.
  - intros metricType bucketSeconds Hout.
    rewrite lookup_insert_ne; [by apply Hframe|].
    intros [= <- <-]. tauto.
Qed.

(** [runAggregation] keeps every stored [lastBucket] a positive multiple of
    its bucket width. *)
Theorem runAggregation_keeps_alignedProgress loaded env aggregator st :
  (∀ bucket kind,
     0 <= now1 (env bucket kind)
          - Planner.RetentionHours (Planner.getMetricsConfig loaded) * 3600000) ->
  alignedProgress st ->
  alignedProgress (runAggregation loaded env aggregator st).
Proof.
  intros Hclock Hal. unfold runAggregation.
  apply (foldl_invariant _ alignedProgress); [exact Hal|].
  intros s bucket Hbucket Hs.
  apply (foldl_invariant _ alignedProgress); [exact Hs|].
  intros s1 kind Hkind Hs1.
  pose proof (aggregateMetric_progress_step (now1 (env bucket kind))
                (now2 (env bucket kind)) (readFault (env bucket kind))
                (upsertFault (env bucket kind)) kind
                bucket _ (aggregator kind) s1 (buckets_pos _ Hbucket)
                (Hclock bucket kind)) as Hstep.
  cbv zeta in Hstep. cbv beta zeta.
  destruct Hstep as [E|(lb & E & Hpos & Hmod & _)];
    intros metricType bucketSeconds lastBucket; rewrite E; [apply Hs1|].
  destruct (decide ((metricType, bucketSeconds) = (kind, bucket))) as [[= -> ->]|Hne].
  - rewrite lookup_insert_eq. by intros [= <-].
  - rewrite lookup_insert_ne by done. apply Hs1.
Qed.

End RollupMore.

(** The tick of 1 700 000 100 000 ms for ("cpu", 60) after progress at
    1 699 999 860 000. *)
Lemma tickWindow_closed_buckets_witness :
  let st : Rollup.State unit :=
    Rollup.mkState {[("cpu"%string, 60) := 1699999860000]} tt [] in
  Rollup.tickWindow 1700000100000 1700000100000 None "cpu" 60 604800000 st
  = Some (1699999920000, 1700000099999) ∧
  1700000099999 < 1700000100000 ∧
  1699999920000 + 2 * (60 * 1000) <= 1700000099999 + 1.
Proof.
  intros st.
  assert (Hw : Rollup.tickWindow 1700000100000 1700000100000 None "cpu" 60
                 604800000 st = Some (1699999920000, 1700000099999))
    by reflexivity.
  split; [exact Hw|].
  destruct (tickWindow_closed_buckets 1700000100000 1700000100000 None "cpu"
              60 604800000 st 1699999920000 1700000099999)
    as (_ & _ & _ & Hpast & Htwo).
  - unfold Rollup.buckets. constructor.
  - lia.
  - lia.
  - intros metricType bucketSeconds lastBucket H. subst st. simpl in H.
    apply lookup_singleton_Some in H as [[= <- <-] <-].
    split; [lia|reflexivity].
  - exact Hw.
  - split; [exact Hpast|exact Htwo].
Defined.

Lemma aggregateMetric_next_tick_witness :
  let fn : Rollup.aggregateFn (list (Z * Z * Z)) :=
    fun bucketSeconds start end_ agg => Ok (agg ++ [(bucketSeconds, start, end_)]) in
  let st := Rollup.mkState {[("cpu"%string, 60) := 1699999860000]} [] [] in
  let st' :=
    Rollup.aggregateMetric 1700000100000 1700000100000 None None "cpu" 60
      604800000 fn st in
  Rollup.getAggregationStart 1700000160000 None st' "cpu" 60 604800000
    (60 * 1000) = 1700000100000 ∧
  Rollup.aggregateMetric 1700000159999 1700000159999 None None "cpu" 60
    604800000 fn st' = st'.
Proof.
  intros fn st st'.
  destruct (aggregateMetric_next_tick 1700000100000 1700000100000 None "cpu"
              60 604800000 fn st 1699999920000 1700000099999
              [(60, 1699999920000, 1700000099999)])
    as (Hnext & Hnoop & _).
  - unfold Rollup.buckets. constructor.
  - lia.
  - lia.
  - reflexivity.
  - reflexivity.
  - split.
    + exact (Hnext 1700000160000 604800000).
    + apply Hnoop. lia.
Defined.

Lemma runAggregation_progress_monotone_witness :
  let aggregator : string -> Rollup.aggregateFn (list (Z * Z * Z)) :=
    fun _ bucketSeconds start end_ agg =>
      Ok (agg ++ [(bucketSeconds, start, end_)]) in
  let env : Z -> string -> Rollup.TickEnv :=
    fun _ _ => Rollup.mkTickEnv 1700000100000 1700000100000 None None in
  let st := Rollup.mkState {[("cpu"%string, 60) := 1699999860000]} [] [] in
  let st' := Rollup.runAggregation None env aggregator st in
  (∃ lastBucket,
     Rollup.progress st' !! ("cpu"%string, 60) = Some lastBucket ∧
     1699999860000 <= lastBucket) ∧
  Rollup.progress st' !! ("host"%string, 60) = None.
Proof.
  intros aggregator env st st'.
  destruct (runAggregation_progress_monotone None env aggregator st)
    as [Hmono Hframe].
  - intros bucket kind. vm_compute. discriminate.
  - split.
    + apply Hmono; [reflexivity|]. apply lookup_singleton_eq.
    + subst st'. rewrite (Hframe "host"%string 60).
      * apply lookup_singleton_ne. discriminate.
      * left. unfold Rollup.kinds. rewrite !elem_of_cons, elem_of_nil.
        intros H. repeat (destruct H as [H|H]; [discriminate H|]). exact H.
Defined.

Lemma runAggregation_keeps_alignedProgress_witness :
  let aggregator : string -> Rollup.aggregateFn (list (Z * Z * Z)) :=
    fun _ bucketSeconds start end_ agg =>
      Ok (agg ++ [(bucketSeconds, start, end_)]) in
  let env : Z -> string -> Rollup.TickEnv :=
    fun _ _ => Rollup.mkTickEnv 1700000100000 1700000100000 None None in
  let st := Rollup.mkState {[("cpu"%string, 60) := 1699999860000]} [] [] in
  Rollup.alignedProgress (Rollup.runAggregation None env aggregator st).
Proof.
  intros aggregator env st.
  apply (runAggregation_keeps_alignedProgress None env aggregator st).
  - intros bucket kind. vm_compute. discriminate.
  - intros metricType bucketSeconds lastBucket H. subst st. simpl in H.
    apply lookup_singleton_Some in H as [[= <- <-] <-].
    split; [lia|reflexivity].
Defined.

(** ** Agent registration *)

Section RegistryMore.

Import Registry.

(** [RegisterAgent] succeeds exactly when the API key is valid, the agent
    ID is not empty and the database takes the write; whenever it returns an
    error, the [agents] table is as it was. *)
Theorem RegisterAgent_failure_is_atomic validKey now fault st ip info apiKey :
  let out := RegisterAgent validKey now fault st ip info apiKey in
  (isOk out.1 = true <->
   isOk (validKey apiKey) = true ∧ AgentInfo.ID info ≠ ""%string ∧ fault = None)
  ∧ (isOk out.1 = false -> agents out.2 = agents st).
Proof.
  unfold RegisterAgent, FindById, UpdateById, Create.
  destruct (validKey apiKey) as [[]|e]; simpl;
    [|split; [split; [discriminate|intros [? _]; discriminate]|done]].
  destruct (String.eqb_spec (AgentInfo.ID info) "") as [Hid|Hid]; simpl.
  { split; [split; [discriminate|tauto]|done]. }
  destruct (agents st !! AgentInfo.ID info) as [existing|] eqn:Hl; simpl.
  - destruct fault; simpl.
    + split; [split; [discriminate|intros (_ & _ & ?); discriminate]|done].
    + destruct (agents st !! Agent.ID existing); simpl;
        (split; [tauto|discriminate]).
  - destruct fault; simpl.
    + split; [split; [discriminate|intros (_ & _ & ?); discriminate]|done].
    + split; [tauto|discriminate].
Qed.

(** A successful registration returns the row it has stored: the row found
    under the agent's ID afterwards is the returned one, online, seen and
    updated at the clock, with the hostname, address, OS, arch and version
    of the message; no other row is touched, and rows still sit under their
    own IDs.  A first registration also takes the name of the message,
    sets [CreatedAt] to the clock and adds exactly one row. *)
Theorem RegisterAgent_success_stores_returned_row validKey now fault st ip
    info apiKey agent :
  keyedById st ->
  (RegisterAgent validKey now fault st ip info apiKey).1 = Ok agent ->
  let st' := (RegisterAgent validKey now fault st ip info apiKey).2 in
  agents st' !! AgentInfo.ID info = Some agent ∧
  (Agent.ID agent = AgentInfo.ID info ∧
   Agent.Hostname agent = AgentInfo.Hostname info ∧
   Agent.IP agent = ip ∧
   Agent.OS agent = AgentInfo.OS info ∧
   Agent.Arch agent = AgentInfo.Arch info ∧
   Agent.Version agent = AgentInfo.Version info ∧
   Agent.Status agent = 1 ∧
   Agent.LastSeenAt agent = now ∧
   Agent.UpdatedAt agent = now) ∧
  (∀ id, id ≠ AgentInfo.ID info -> agents st' !! id = agents st !! id) ∧
  keyedById st' ∧
  (agents st !! AgentInfo.ID info = None ->
   Agent.Name agent = AgentInfo.Name info ∧
   Agent.CreatedAt agent = now ∧
   size (agents st') = S (size (agents st))).
Proof.
  intros Hk. unfold RegisterAgent, FindById, UpdateById, Create.
  destruct (validKey apiKey) as [[]|e]; simpl; [|discriminate].
  destruct (String.eqb_spec (AgentInfo.ID info) "") as [Hid|Hid]; simpl;
    [discriminate|].
  assert (Hfin : ∀ a : Agent.t, Agent.ID a = AgentInfo.ID info ->
    (∀ id, id ≠ AgentInfo.ID info ->
       <[AgentInfo.ID info := a]> (agents st) !! id = agents st !! id) ∧
    keyedById (mkState (<[AgentInfo.ID info := a]> (agents st))
                 (logs st ++ ["x"%string]))).
  { intros a Ha. split; [intros id Hne; by rewrite lookup_insert_ne|].
    intros id a'. simpl. destruct (decide (id = AgentInfo.ID info)) as [->|Hne].
    - rewrite lookup_insert_eq. by intros [= <-].
    - rewrite lookup_insert_ne by done. apply Hk. }
  destruct (agents st !! AgentInfo.ID info) as [existing|] eqn:Hl; simpl.
  - destruct fault; simpl; [discriminate|].
    rewrite (Hk _ _ Hl), Hl. simpl. intros [= <-]. simpl.
    rewrite lookup_insert_eq. split; [done|]. split; [done|].
    destruct (Hfin (Agent.mk (AgentInfo.ID info) (Agent.Name existing)
                      (AgentInfo.Hostname info) ip (AgentInfo.OS info)
                      (AgentInfo.Arch info) (AgentInfo.Version info) 1 now
                      (Agent.CreatedAt existing) now) eq_refl) as [Hf Hkk].
    split; [exact Hf|]. split; [exact Hkk|discriminate].
  - destruct fault; simpl; [discriminate|].
    intros [= <-]. simpl.
    rewrite lookup_insert_eq. split; [done|]. split; [done|].
    destruct (Hfin (Agent.mk (AgentInfo.ID info) (AgentInfo.Name info)
                      (AgentInfo.Hostname info) ip (AgentInfo.OS info)
                      (AgentInfo.Arch info) (AgentInfo.Version info) 1 now
                      now now) eq_refl) as [Hf Hkk].
    split; [exact Hf|]. split; [exact Hkk|]. intros _.
    split; [done|]. split; [done|]. by apply map_size_insert_None.
Qed.

End RegistryMore.

(** The first registration of agent ["a2"] beside a registered ["a1"]. *)
Lemma RegisterAgent_success_stores_returned_row_witness :
  let a1 :=
    Registry.Agent.mk "a1" "db-01" "host-old" "10.0.0.1" "linux" "amd64"
      "1.0.0" 0 1000 1000 1000 in
  let info :=
    Registry.AgentInfo.mk "a2" "web-01" "host-web" "debian" "arm64" "1.1.0" in
  let st := Registry.mkState {["a1"%string := a1]} [] in
  let out :=
    Registry.RegisterAgent (fun _ => Ok tt) 2000 None st "10.0.0.2" info "key" in
  ∃ agent,
    out.1 = Ok agent ∧
    Registry.agents out.2 !! "a2"%string = Some agent ∧
    Registry.agents out.2 !! "a1"%string = Some a1 ∧
    Registry.Agent.CreatedAt agent = 2000.
Proof.
  intros a1 info st out. eexists. split; [reflexivity|].
  destruct (RegisterAgent_success_stores_returned_row (fun _ => Ok tt) 2000
              None st "10.0.0.2" info "key" _
              ltac:(intros id agent H; subst st; simpl in H;
                    apply lookup_singleton_Some in H as [<- <-]; reflexivity)
              eq_refl) as (Hrow & _ & Hframe & _ & Hnew).
  split; [exact Hrow|]. split.
  - fold out in Hframe. rewrite (Hframe "a1"%string ltac:(discriminate)).
    apply lookup_singleton_eq.
  - apply Hnew. apply lookup_singleton_ne. discriminate.
Defined.

(** ** Metric ingestion *)

Section IngestMore.

Import protocol models Ingest.

(** A frame whose payload does not decode at the type of its kind returns
    the decoding error and leaves everything as it was: no row, no write
    attempted, nothing logged.  A frame of an unknown kind is not an error:
    it stores nothing and leaves a warning in the log. *)
Theorem HandleMetricData_rejected_frames now st agent metricType data :
  (∀ e, decodeError metricType data = Some e ->
        HandleMetricData now st agent metricType data = (Returned (Err e), st))
  ∧ (∀ name, metricType = MetricTypeOther name ->
       (HandleMetricData now st agent metricType data).1 = Returned (Ok tt) ∧
       rows (HandleMetricData now st agent metricType data).2 = rows st ∧
       faults (HandleMetricData now st agent metricType data).2 = faults st ∧
       length (logs (HandleMetricData now st agent metricType data).2)
       = S (length (logs st))).
Proof.
  split.
  - intros e. destruct metricType; simpl;
      try (match goal with
           | |- context [match ?r with Ok _ => None | Err _ => _ end] =>
               destruct r
           end; [discriminate|by intros [= ->]]).
    discriminate.
  - intros name ->. simpl. rewrite length_app. simpl. repeat split. lia.
Qed.

(** For a kind that carries a single value, exactly one write is attempted;
    unlike an element of an array frame, a refused write is the error of
    the frame, and then no row is stored; nothing is logged either way. *)
Theorem HandleMetricData_single_value_kinds now st agent metricType data row :
  scalarRow now agent metricType data = Ok row ->
  let out := HandleMetricData now st agent metricType data in
  faults out.2 = tl (faults st) ∧ logs out.2 = logs st ∧
  match hd None (faults st) with
  | Some e => out.1 = Returned (Err e) ∧ rows out.2 = rows st
  | None => out.1 = Returned (Ok tt) ∧ rows out.2 = rows st ++ [row]
  end.
Proof.
  intros Hrow out. subst out.
  assert (Hsave : ∀ r : MetricRow,
    let out := (let '(res, st1) := Save r st in (Returned res, st1)) in
    faults out.2 = tl (faults st) ∧ logs out.2 = logs st ∧
    match hd None (faults st) with
    | Some e => out.1 = Returned (Err e) ∧ rows out.2 = rows st
    | None => out.1 = Returned (Ok tt) ∧ rows out.2 = rows st ++ [r]
    end).
  { intros r. rewrite Save_spec. simpl.
    destruct (hd None (faults st)); simpl; by rewrite ?app_nil_r. }
  destruct metricType; simpl in Hrow; try discriminate Hrow; simpl.
  - destruct (asCPUData data); [|discriminate]. injection Hrow as <-. apply Hsave.
  - destruct (asMemoryData data); [|discriminate]. injection Hrow as <-. apply Hsave.
  - destruct (asNetworkConnectionData data); [|discriminate].
    injection Hrow as <-. apply Hsave.
  - destruct (asHostInfoData data); [|discriminate]. injection Hrow as <-. apply Hsave.
Qed.

(** Every row a frame stores is attributed to the agent the caller names,
    whatever the payload says. *)
Theorem HandleMetricData_rows_carry_agentID now st agent metricType data :
  ∃ new,
    rows (HandleMetricData now st agent metricType data).2 = rows st ++ new ∧
    Forall (fun row => agentID row = agent) new.
Proof.
  assert (Hnil : ∀ P : MetricRow -> Prop,
            ∃ new, rows st = rows st ++ new ∧ Forall P new).
  { intros P. exists []. by rewrite app_nil_r. }
  destruct metricType; unfold HandleMetricData.
  - destruct (asCPUData data); [|apply Hnil].
    destruct (Save_rows (fun r => agentID r = agent)
                (CPURow (cpuMetric now agent a)) st eq_refl) as (new & E & F).
    exists new. by destruct (Save _ st).
  - destruct (asMemoryData data); [|apply Hnil].
    destruct (Save_rows (fun r => agentID r = agent)
                (MemoryRow (memoryMetric now agent a)) st eq_refl) as (new & E & F).
    exists new. by destruct (Save _ st).
  - destruct (asDiskDataList data); [|apply Hnil]. by apply saveEach_rows.
  - destruct (asNetworkDataList data); [|apply Hnil]. by apply saveEach_rows.
  - destruct (asNetworkConnectionData data); [|apply Hnil].
    destruct (Save_rows (fun r => agentID r = agent)
                (NetworkConnectionRow (networkConnectionMetric now agent a))
                st eq_refl) as (new & E & F).
    exists new. by destruct (Save _ st).
  - destruct (asDiskIODataList data) as [l|]; [|apply Hnil].
    destruct (saveEachPtr_rows (fun r => agentID r = agent)
                (fun d => DiskIORow (diskIOMetric now agent d))
                "failed to save disk io metric" l st ltac:(done))
      as (new & E & F).
    exists new. by destruct (saveEachPtr _ _ l st) as [[] ?].
  - destruct (asHostInfoData data); [|apply Hnil].
    destruct (Save_rows (fun r => agentID r = agent)
                (HostRow (hostMetric now agent a)) st eq_refl) as (new & E & F).
    exists new. by destruct (Save _ st).
  - destruct (asGPUDataList data); [|apply Hnil]. by apply saveEach_rows.
  - destruct (asTemperatureDataList data); [|apply Hnil]. by apply saveEach_rows.
  - destruct (asMonitorDataList data) as [l|]; [|apply Hnil]. by apply saveEach_rows.
  - apply Hnil.
Qed.

Lemma accepted_refused_length fs l :
  (length (accepted fs l) + refusedCount fs (length l))%nat = length l.
Proof.
  revert fs. induction l as [|r l IH]; intros fs.
  - reflexivity.
  - cbn [length]. rewrite accepted_step, refusedCount_step, length_app.
    specialize (IH (tl fs)). destruct (hd None fs); simpl; lia.
Qed.

(** In an array frame every element is accounted for: the rows stored and
    the failures logged add up to the number of elements. *)
Theorem HandleMetricData_array_stored_or_logged now st agent metricType data l :
  isArrayKind metricType = true ->
  elementRows now agent metricType data = Ok (map Some l) ->
  let out := HandleMetricData now st agent metricType data in
  (length (rows out.2) - length (rows st)
   + (length (logs out.2) - length (logs st)))%nat = length l.
Proof.
  intros Hk He out. subst out.
  assert (Hloop : ∀ (D : Type) (mkRow : D -> MetricRow) msg (l0 : list D),
    map (fun d => Some (mkRow d)) l0 = map Some l ->
    let st' := saveEach mkRow msg l0 st in
    (length (rows st') - length (rows st)
     + (length (logs st') - length (logs st)))%nat = length l).
  { intros D mkRow msg l0 H. rewrite <- (map_map mkRow Some) in H.
    apply map_Some_inj in H as <-.
    destruct (saveEach_spec mkRow msg l0 st) as (Hr & _ & Hl).
    cbv zeta. rewrite Hr, Hl, length_app.
    pose proof (accepted_refused_length (faults st) (map mkRow l0)) as Hsum.
    rewrite length_map in Hsum |- *. lia. }
  destruct metricType; try discriminate Hk;
    unfold elementRows in He; unfold HandleMetricData.
  - destruct (asDiskDataList data); [|discriminate]. injection He as He.
    by apply Hloop.
  - destruct (asNetworkDataList data); [|discriminate]. injection He as He.
    by apply Hloop.
  - destruct (asDiskIODataList data) as [l0|]; [|discriminate].
    injection He as He. apply map_fmap_Some in He as (l' & -> & ->).
    rewrite saveEachPtr_Some. apply Hloop. by rewrite <- (map_map _ Some).
  - destruct (asGPUDataList data); [|discriminate]. injection He as He.
    by apply Hloop.
  - destruct (asTemperatureDataList data); [|discriminate]. injection He as He.
    by apply Hloop.
  - destruct (asMonitorDataList data); [|discriminate]. injection He as He.
    by apply Hloop.
Qed.

Lemma saveEachPtr_nil_element {D : Type} (mkRow : D -> MetricRow) msg
    (pre : list D) (rest : list (option D)) st :
  saveEachPtr mkRow msg (map Some pre ++ None :: rest) st
  = (false, saveEach mkRow msg pre st).
Proof.
  revert st. induction pre as [|d pre IH]; intros st; simpl; [done|apply IH].
Qed.

(** A disk I/O payload decodes into pointers.  When an element is nil, the
    call panics at that element: the elements before it have been written
    as usual, the elements after it are never processed, and no result is
    returned. *)
Theorem HandleMetricData_diskIO_nil_element now st agent data pre rest :
  asDiskIODataList data = Ok (map Some pre ++ None :: rest) ->
  let out := HandleMetricData now st agent MetricTypeDiskIO data in
  out.1 = Panicked ∧
  rows out.2
  = rows st ++ accepted (faults st)
                 (map (fun d => DiskIORow (diskIOMetric now agent d)) pre) ∧
  faults out.2 = drop (length pre) (faults st).
Proof.
  intros Hd out. subst out. unfold HandleMetricData. rewrite Hd.
  rewrite saveEachPtr_nil_element. simpl.
  destruct (saveEach_spec (fun d => DiskIORow (diskIOMetric now agent d))
              "failed to save disk io metric" pre st) as (Hr & Hf & _).
  by rewrite Hr, Hf.
Qed.

End IngestMore.

(** A CPU frame whose write the database refuses. *)
Lemma HandleMetricData_single_value_kinds_witness :
  let cpu := protocol.CPUData.mk 42 8 4 "cpu-model" in
  let data :=
    protocol.mkRawMessage (Ok cpu) (Err "json") (Err "json") (Err "json")
      (Err "json") (Err "json") (Err "json") (Err "json") (Err "json")
      (Err "json") in
  let st := Ingest.mkState [] [Some "database is locked"%string] [] in
  let out := Ingest.HandleMetricData 5000 st "a1" protocol.MetricTypeCPU data in
  out.1 = Ingest.Returned (Err "database is locked") ∧
  Ingest.rows out.2 = [].
Proof.
  intros cpu data st out.
  destruct (HandleMetricData_single_value_kinds 5000 st "a1"
              protocol.MetricTypeCPU data
              (models.CPURow (Ingest.cpuMetric 5000 "a1" cpu)) eq_refl)
    as (_ & _ & H).
  exact H.
Defined.

Lemma HandleMetricData_array_stored_or_logged_witness :
  let d1 := protocol.DiskData.mk "/" 100 40 60 40 in
  let d2 := protocol.DiskData.mk "/data" 200 50 150 25 in
  let data :=
    protocol.mkRawMessage (Err "json") (Err "json") (Ok [d1; d2]) (Err "json")
      (Err "json") (Err "json") (Err "json") (Err "json") (Err "json")
      (Err "json") in
  let st := Ingest.mkState [] [Some "database is locked"%string] [] in
  let out := Ingest.HandleMetricData 5000 st "a1" protocol.MetricTypeDisk data in
  (length (Ingest.rows out.2) + length (Ingest.logs out.2))%nat = 2%nat.
Proof.
  intros d1 d2 data st out.
  pose proof (HandleMetricData_array_stored_or_logged 5000 st "a1"
                protocol.MetricTypeDisk data
                [models.DiskRow (Ingest.diskMetric 5000 "a1" d1);
                 models.DiskRow (Ingest.diskMetric 5000 "a1" d2)]
                eq_refl eq_refl) as H.
  exact H.
Defined.

(** A disk I/O frame [[{sda}, null, {sdb}]]: the row of [sda] is stored,
    the call panics, [sdb] is never looked at. *)
Lemma HandleMetricData_diskIO_nil_element_witness :
  let sda := protocol.DiskIOData.mk "sda" 1 2 3 4 5 6 7 8 9 10 in
  let sdb := protocol.DiskIOData.mk "sdb" 1 2 3 4 5 6 7 8 9 10 in
  let data :=
    protocol.mkRawMessage (Err "json") (Err "json") (Err "json") (Err "json")
      (Err "json") (Ok [Some sda; None; Some sdb]) (Err "json") (Err "json")
      (Err "json") (Err "json") in
  let out :=
    Ingest.HandleMetricData 5000 (Ingest.mkState [] [] []) "a1"
      protocol.MetricTypeDiskIO data in
  out.1 = Ingest.Panicked ∧
  Ingest.rows out.2 = [models.DiskIORow (Ingest.diskIOMetric 5000 "a1" sda)].
Proof.
  intros sda sdb data out.
  destruct (HandleMetricData_diskIO_nil_element 5000 (Ingest.mkState [] [] [])
              "a1" data [sda] [Some sdb] eq_refl) as (Hp & Hr & _).
  split; [exact Hp|exact Hr].
Defined.

(** ** Property store *)

Section PropertyMore.

Import PropertyStore.

Lemma Get_coherent now st id :
  coherent st ->
  (Get now st id).1 = FindById st id ∧
  table (Get now st id).2 = table st ∧
  coherent (Get now st id).2.
Proof.
  intros Hc. unfold Get, cacheGet, FindById.
  destruct (cache st !! id) as [[p expiry]|] eqn:Hcache.
  - pose proof (Hc _ _ _ Hcache) as Ht.
    destruct (now <? expiry); rewrite Ht; simpl; [done|].
    split; [done|]. split; [done|].
    intros id' p' e'. simpl. destruct (decide (id' = id)) as [->|Hne].
    + rewrite lookup_insert_eq. by intros [= <- <-].
    + rewrite lookup_insert_ne by done. apply Hc.
  - destruct (table st !! id) as [p|] eqn:Ht; simpl; [|done].
    split; [done|]. split; [done|].
    intros id' p' e'. simpl. destruct (decide (id' = id)) as [->|Hne].
    + rewrite lookup_insert_eq. by intros [= <- <-].
    + rewrite lookup_insert_ne by done. apply Hc.
Qed.

Lemma Set_coherent {V : Type} (marshal : V -> result string) now1 now2 fault
    st id name value :
  coherent st ->
  coherent (Set_ marshal now1 now2 fault st id name value).2.
Proof.
  intros Hc. unfold Set_, Save.
  destruct (marshal value) as [jsonValue|]; [|exact Hc].
  destruct fault; [exact Hc|]. simpl.
  intros id' p' e'. simpl. destruct (decide (id' = id)) as [->|Hne].
  - by rewrite lookup_delete_eq.
  - rewrite lookup_delete_ne, lookup_insert_ne by done. apply Hc.
Qed.

(** Reads through [Get] are never stale as long as the table is written
    through [Set] only: if every cache entry is the row of the table, [Get]
    answers exactly what the table holds, and [Get] and [Set] keep that
    true. *)
Theorem Get_Set_keep_cache_coherent st :
  coherent st ->
  (∀ now id,
     (Get now st id).1 = FindById st id ∧
     table (Get now st id).2 = table st ∧
     coherent (Get now st id).2) ∧
  (∀ (V : Type) (marshal : V -> result string) now1 now2 fault id name value,
     coherent (Set_ marshal now1 now2 fault st id name value).2).
Proof.
  intros Hc. split.
  - intros now id. by apply Get_coherent.
  - intros V marshal now1 now2 fault id name value. by apply Set_coherent.
Qed.

(** A read that misses the cache and finds the row caches it for one hour:
    until then every [Get] answers with that row without looking at the
    table (a row changed behind the cache stays invisible), and once the
    hour is over [Get] reads the table again. *)
Theorem Get_caches_for_an_hour now st id property :
  cacheGet now st id = None ->
  table st !! id = Some property ->
  let st1 := (Get now st id).2 in
  (Get now st id).1 = Ok property ∧
  ∀ tbl now',
    let st2 := mkState tbl (cache st1) in
    (now' < now + 3600000 -> Get now' st2 id = (Ok property, st2)) ∧
    (now + 3600000 < now' -> (Get now' st2 id).1 = FindById st2 id).
Proof.
  intros Hmiss Ht.
  assert (E : Get now st id = (Ok property, cacheSet now st id property hour)).
  { unfold Get, FindById. by rewrite Hmiss, Ht. }
  rewrite E. simpl. split; [done|].
  intros tbl now'. unfold Get, cacheGet. simpl.
  rewrite lookup_insert_eq. unfold hour. split; intros Hn.
  - destruct (Z.ltb_spec now' (now + 3600000)); [done|lia].
  - destruct (Z.ltb_spec now' (now + 3600000)); [lia|].
    unfold FindById. simpl. by destruct (tbl !! id).
Qed.

(** A key that is neither cached nor stored is an error, and the miss is
    not cached: the state is left as it was. *)
Theorem Get_missing_key now st id :
  cache st !! id = None ->
  table st !! id = None ->
  Get now st id = (Err "record not found", st).
Proof.
  intros Hc Ht. unfold Get, cacheGet, FindById. by rewrite Hc, Ht.
Qed.

(** [Set] touches nothing but its own key: a failed [Set] (a value that
    does not marshal, a refused write) leaves the whole state as it was,
    and a successful one leaves every other row and every other cache entry
    in place. *)
Theorem Set_touches_only_its_key {V : Type} (marshal : V -> result string)
    now1 now2 fault st id name value :
  let out := Set_ marshal now1 now2 fault st id name value in
  (isOk out.1 = false -> out.2 = st) ∧
  ∀ id', id' ≠ id ->
    table out.2 !! id' = table st !! id' ∧ cache out.2 !! id' = cache st !! id'.
Proof.
  unfold Set_, Save. destruct (marshal value) as [jsonValue|]; simpl; [|done].
  destruct fault; simpl; [done|].
  split; [discriminate|]. intros id' Hne.
  by rewrite lookup_insert_ne, lookup_delete_ne.
Qed.

Section Initialize.

Context {V : Type}.
Variable marshal : V -> result string.

Lemma initializeProperty_spec env st config :
  let out := initializeProperty marshal env st config in
  (∀ id property,
     table st !! id = Some property -> table out.2 !! id = Some property) ∧
  (isOk out.1 = true ->
   is_Some (table out.2 !! defaultPropertyConfig.ID config)) ∧
  (existsFault env = None ->
   is_Some (table st !! defaultPropertyConfig.ID config) ->
   out = (Ok tt, st)).
Proof.
  unfold initializeProperty, ExistsById.
  destruct (existsFault env); simpl; [by repeat split|].
  destruct (bool_decide_reflect
              (is_Some (table st !! defaultPropertyConfig.ID config)))
    as [Hsome|Hnone]; simpl; [by repeat split|].
  unfold Set_, Save.
  destruct (marshal (defaultPropertyConfig.Value config)); simpl;
    [|by repeat split].
  destruct (saveFault env); simpl; [by repeat split|].
  split; [|split; [|done]].
  - intros id property Hl.
    destruct (decide (id = defaultPropertyConfig.ID config)) as [->|Hne].
    + exfalso. apply Hnone. by exists property.
    + by rewrite lookup_insert_ne.
  - intros _. rewrite lookup_insert_eq. by eexists.
Qed.

Lemma initializeEach_spec env st configs :
  let out := initializeEach marshal env st configs in
  (∀ id property,
     table st !! id = Some property -> table out.2 !! id = Some property) ∧
  (isOk out.1 = true ->
   ∀ config, config ∈ configs ->
     is_Some (table out.2 !! defaultPropertyConfig.ID config)).
Proof.
  revert st. induction configs as [|config rest IH]; intros st; simpl.
  - split; [done|]. intros _ config Hin. by apply elem_of_nil in Hin.
  - destruct (initializeProperty_spec
                (env (defaultPropertyConfig.ID config)) st config)
      as (Hkeep & Hpresent & _).
    destruct (initializeProperty marshal _ st config) as [[[]|e] st1];
      simpl in *; [|split; [exact Hkeep|discriminate]].
    destruct (IH st1) as [Hkeep' Hall]. split.
    + intros id property Hl. by apply Hkeep', Hkeep.
    + intros Hok c Hin. apply elem_of_cons in Hin as [->|Hin];
        [|by apply Hall].
      destruct (Hpresent eq_refl) as [p Hp]. exists p. by apply Hkeep'.
Qed.

Lemma initializeEach_all_present env st configs :
  (∀ id, existsFault (env id) = None) ->
  (∀ config, config ∈ configs ->
     is_Some (table st !! defaultPropertyConfig.ID config)) ->
  initializeEach marshal env st configs = (Ok tt, st).
Proof.
  intros Hread. induction configs as [|config rest IH]; intros Hall; simpl;
    [done|].
  destruct (initializeProperty_spec
              (env (defaultPropertyConfig.ID config)) st config)
    as (_ & _ & Hnoop).
  rewrite (Hnoop (Hread _) (Hall config ltac:(left))).
  apply IH. intros c Hin. apply Hall. by right.
Qed.

(** Initialising the defaults never overwrites a stored property: every
    row the table held before is still there, unchanged, whether the
    initialisation succeeds or stops at an error. *)
Theorem InitializeDefaultConfigs_never_overwrites valueOf env st id property :
  table st !! id = Some property ->
  table (InitializeDefaultConfigs marshal valueOf env st).2 !! id
  = Some property.
Proof.
  intros Hl. unfold InitializeDefaultConfigs.
  by apply (initializeEach_spec env st (defaultConfigs valueOf)).
Qed.

(** When the initialisation succeeds, each of the six keys it knows has a
    row, and running it again changes nothing (as long as the database
    answers the existence checks). *)
Theorem InitializeDefaultConfigs_complete_idempotent valueOf env st :
  (InitializeDefaultConfigs marshal valueOf env st).1 = Ok tt ->
  let st' := (InitializeDefaultConfigs marshal valueOf env st).2 in
  (∀ id,
     id ∈ ["system_config"; "public_ip_config"; "notification_channels";
           "alert_config"; "dns_providers"; "agent_install_config"]%string ->
     is_Some (table st' !! id)) ∧
  ∀ valueOf' env',
    (∀ id, existsFault (env' id) = None) ->
    InitializeDefaultConfigs marshal valueOf' env' st' = (Ok tt, st').
Proof.
  intros Hok st'. unfold InitializeDefaultConfigs in *.
  destruct (initializeEach_spec env st (defaultConfigs valueOf)) as [_ Hall].
  rewrite Hok in Hall. specialize (Hall eq_refl). fold st' in Hall.
  assert (Hsix : ∀ id,
    id ∈ ["system_config"; "public_ip_config"; "notification_channels";
          "alert_config"; "dns_providers"; "agent_install_config"]%string ->
    is_Some (table st' !! id)).
  { assert (Hf : Forall (fun c => is_Some (table st' !! defaultPropertyConfig.ID c))
                     (defaultConfigs valueOf))
      by (apply Forall_forall; exact Hall).
    unfold defaultConfigs in Hf. rewrite !Forall_cons in Hf. simpl in Hf.
    destruct Hf as (H1 & H2 & H3 & H4 & H5 & H6 & _).
    intros id Hin. rewrite !elem_of_cons, elem_of_nil in Hin.
    destruct Hin as [->|[->|[->|[->|[->|[->|[]]]]]]]; assumption. }
  split; [exact Hsix|].
  intros valueOf' env' Hread. apply initializeEach_all_present; [exact Hread|].
  intros config Hin. apply Hsix. unfold defaultConfigs in Hin.
  rewrite !elem_of_cons, elem_of_nil in Hin. rewrite !elem_of_cons.
  destruct Hin as [->|[->|[->|[->|[->|[->|[]]]]]]]; simpl; tauto.
Qed.

End Initialize.

End PropertyMore.

(** A store whose only cache entry is the row of the table. *)
Lemma Get_Set_keep_cache_coherent_witness :
  let p := PropertyStore.Property.mk "alert_config" "alerts" "{}" 10 10 in
  let st :=
    PropertyStore.mkState {["alert_config"%string := p]}
      {["alert_config"%string := (p, 50)]} in
  (PropertyStore.Get 100 st "alert_config").1 = Ok p ∧
  PropertyStore.coherent (PropertyStore.Get 100 st "alert_config").2.
Proof.
  intros p st.
  destruct (Get_Set_keep_cache_coherent st) as [HGet _].
  - intros id property expiry H. subst st. simpl in *.
    apply lookup_singleton_Some in H as [<- [= <- <-]].
    apply lookup_singleton_eq.
  - destruct (HGet 100 "alert_config"%string) as (Hr & _ & Hc).
    split; [exact Hr|exact Hc].
Defined.

(** A row read at 1000 ms and deleted behind the cache is still answered
    one second later, and no longer after the hour. *)
Lemma Get_caches_for_an_hour_witness :
  let p := PropertyStore.Property.mk "alert_config" "alerts" "{}" 10 10 in
  let st := PropertyStore.mkState {["alert_config"%string := p]} ∅ in
  let st1 := (PropertyStore.Get 1000 st "alert_config").2 in
  let st2 := PropertyStore.mkState ∅ (PropertyStore.cache st1) in
  (PropertyStore.Get 2000 st2 "alert_config").1 = Ok p ∧
  (PropertyStore.Get 3601001 st2 "alert_config").1 = Err "record not found".
Proof.
  intros p st st1 st2.
  destruct (Get_caches_for_an_hour 1000 st "alert_config" p eq_refl
              ltac:(apply lookup_singleton_eq)) as [_ H].
  destruct (H ∅ 2000) as [Hin _]. destruct (H ∅ 3601001) as [_ Hout].
  split.
  - fold st1 st2 in Hin. by rewrite (Hin ltac:(lia)).
  - fold st1 st2 in Hout. by rewrite (Hout ltac:(lia)).
Defined.

(** A store that already holds an alert configuration of the operator's. *)
Lemma InitializeDefaultConfigs_never_overwrites_witness :
  let marshal : Z -> result string := fun _ => Ok "0"%string in
  let env : string -> PropertyStore.InitEnv :=
    fun _ => PropertyStore.mkInitEnv None None 20 20 in
  let p := PropertyStore.Property.mk "alert_config" "alerts" "{}" 10 10 in
  let st := PropertyStore.mkState {["alert_config"%string := p]} ∅ in
  PropertyStore.table
    (PropertyStore.InitializeDefaultConfigs marshal (fun _ => 0) env st).2
    !! "alert_config"%string = Some p.
Proof.
  intros marshal env p st.
  apply (InitializeDefaultConfigs_never_overwrites marshal (fun _ => 0) env st).
  apply lookup_singleton_eq.
Defined.

Lemma InitializeDefaultConfigs_complete_idempotent_witness :
  let marshal : Z -> result string := fun _ => Ok "0"%string in
  let env : string -> PropertyStore.InitEnv :=
    fun _ => PropertyStore.mkInitEnv None None 20 20 in
  let st := PropertyStore.mkState ∅ ∅ in
  let st' :=
    (PropertyStore.InitializeDefaultConfigs marshal (fun _ => 0) env st).2 in
  is_Some (PropertyStore.table st' !! "dns_providers"%string) ∧
  PropertyStore.InitializeDefaultConfigs marshal (fun _ => 1) env st'
  = (Ok tt, st').
Proof.
  intros marshal env st st'.
  destruct (InitializeDefaultConfigs_complete_idempotent marshal (fun _ => 0)
              env st eq_refl) as [Hsix Hagain].
  split.
  - apply Hsix. rewrite !elem_of_cons. tauto.
  - apply Hagain. reflexivity.
Defined.

(** ** Alert notification defaults *)

Section AlertMore.

Import PropertyStore.

Variable unmarshalObject : string -> result (gmap string string).

(** [applyAlertNotificationDefaults] changes nothing but the notification
    switches, and it only ever switches on: a switch that decoding left on
    stays on. *)
Theorem applyAlertNotificationDefaults_only_enables config rawValue :
  let config' := applyAlertNotificationDefaults unmarshalObject config rawValue in
  let n := AlertConfig.Notifications config in
  let n' := AlertConfig.Notifications config' in
  AlertConfig.Enabled config' = AlertConfig.Enabled config ∧
  AlertConfig.MaskIP config' = AlertConfig.MaskIP config ∧
  AlertConfig.Rules config' = AlertConfig.Rules config ∧
  (AlertNotifications.TrafficEnabled n = true ->
   AlertNotifications.TrafficEnabled n' = true) ∧
  (AlertNotifications.SSHLoginSuccessEnabled n = true ->
   AlertNotifications.SSHLoginSuccessEnabled n' = true) ∧
  (AlertNotifications.TamperEventEnabled n = true ->
   AlertNotifications.TamperEventEnabled n' = true).
Proof.
  unfold applyAlertNotificationDefaults.
  destruct (String.eqb rawValue ""); simpl; [by repeat split|].
  destruct (unmarshalObject rawValue) as [raw|]; simpl; [|by repeat split].
  destruct (raw !! "notifications"%string) as [nraw|]; simpl;
    [|by repeat split].
  destruct (String.length nraw =? 0)%nat; simpl; [by repeat split|].
  destruct (unmarshalObject nraw) as [m|]; simpl; [|by repeat split].
  repeat split;
    match goal with |- context [m !! ?k] => by destruct (m !! k) end.
Qed.

(** A notification switch is read as off only when the stored JSON names
    it: the stored value is an object whose ["notifications"] member is an
    object holding the switch's key (and decoding left the switch off).
    An empty value, a value that does not parse, a missing or unparsable
    ["notifications"] member or a missing key all read as on. *)
Theorem applyAlertNotificationDefaults_off_only_if_named config rawValue :
  let config' := applyAlertNotificationDefaults unmarshalObject config rawValue in
  let n := AlertConfig.Notifications config in
  let n' := AlertConfig.Notifications config' in
  (AlertNotifications.TrafficEnabled n' = false ->
   namesFlag unmarshalObject rawValue "trafficEnabled" ∧
   AlertNotifications.TrafficEnabled n = false) ∧
  (AlertNotifications.SSHLoginSuccessEnabled n' = false ->
   namesFlag unmarshalObject rawValue "sshLoginSuccessEnabled" ∧
   AlertNotifications.SSHLoginSuccessEnabled n = false) ∧
  (AlertNotifications.TamperEventEnabled n' = false ->
   namesFlag unmarshalObject rawValue "tamperEventEnabled" ∧
   AlertNotifications.TamperEventEnabled n = false).
Proof.
  unfold applyAlertNotificationDefaults, namesFlag.
  destruct (String.eqb_spec rawValue "") as [|Hne]; simpl;
    [by repeat split|].
  destruct (unmarshalObject rawValue) as [raw|] eqn:Hraw; simpl;
    [|by repeat split].
  destruct (raw !! "notifications"%string) as [nraw|] eqn:Hn; simpl;
    [|by repeat split].
  destruct (String.length nraw =? 0)%nat; simpl; [by repeat split|].
  destruct (unmarshalObject nraw) as [m|] eqn:Hm; simpl; [|by repeat split].
  repeat split; try exact Hne;
    match goal with
    | H : match m !! ?k with Some _ => _ | None => _ end = false |- _ =>
        destruct (m !! k) eqn:Hk; [|discriminate H]
    end;
    try exact H; exists raw, nraw, m; rewrite ?Hk; eauto.
Qed.

End AlertMore.

(** ** DNS providers *)

Section DNSMore.

Import PropertyStore.

Context {C : Type}.
Implicit Types (providers : list (DNSProviderConfig.t C))
  (newProvider : DNSProviderConfig.t C).

Lemma replaceProvider_spec providers newProvider :
  let out := replaceProvider providers newProvider in
  map DNSProviderConfig.Provider out.1 = map DNSProviderConfig.Provider providers ∧
  (out.2 = true ->
   findProvider out.1 (DNSProviderConfig.Provider newProvider) = Some newProvider) ∧
  (out.2 = false ->
   out.1 = providers ∧
   findProvider providers (DNSProviderConfig.Provider newProvider) = None ∧
   DNSProviderConfig.Provider newProvider
     ∉ map DNSProviderConfig.Provider providers) ∧
  (∀ t, t ≠ DNSProviderConfig.Provider newProvider ->
        findProvider out.1 t = findProvider providers t).
Proof.
  induction providers as [|p rest IH]; simpl.
  - split; [done|]. split; [discriminate|]. split; [|done].
    intros _. split; [done|]. split; [done|]. apply not_elem_of_nil.
  - destruct (String.eqb_spec (DNSProviderConfig.Provider p)
                (DNSProviderConfig.Provider newProvider)) as [Heq|Hne]; simpl.
    + split; [by rewrite Heq|]. split.
      { intros _. by rewrite String.eqb_refl. }
      split; [discriminate|]. intros t Ht.
      destruct (String.eqb_spec (DNSProviderConfig.Provider newProvider) t);
        [congruence|].
      destruct (String.eqb_spec (DNSProviderConfig.Provider p) t);
        [congruence|done].
    + destruct (replaceProvider rest newProvider) as [rest' found].
      simpl in *. destruct IH as (Hmap & Hfound & Hnot & Hother).
      split; [by rewrite Hmap|]. split.
      { intros Hf. destruct (String.eqb_spec (DNSProviderConfig.Provider p)
                               (DNSProviderConfig.Provider newProvider));
          [done|by apply Hfound]. }
      split.
      { intros Hf. destruct (Hnot Hf) as (-> & Hnone & Hnin).
        split; [done|]. split.
        - by destruct (String.eqb_spec (DNSProviderConfig.Provider p)
                         (DNSProviderConfig.Provider newProvider)).
        - rewrite not_elem_of_cons. split; [congruence|done]. }
      intros t Ht. destruct (String.eqb (DNSProviderConfig.Provider p) t);
        [done|by apply Hother].
Qed.

Lemma findProvider_app providers newProvider t :
  findProvider (providers ++ [newProvider]) t =
  match findProvider providers t with
  | Some p => Some p
  | None =>
      if String.eqb (DNSProviderConfig.Provider newProvider) t
      then Some newProvider else None
  end.
Proof.
  induction providers as [|p rest IH]; simpl; [done|].
  by destruct (String.eqb (DNSProviderConfig.Provider p) t).
Qed.

(** What [UpsertDNSProvider] writes: afterwards a lookup of the new
    provider's type finds the new provider, every other type is looked up
    as before, and a list with one provider per type stays one. *)
Theorem upserted_one_provider_per_type providers newProvider :
  let providers' := upserted providers newProvider in
  findProvider providers' (DNSProviderConfig.Provider newProvider)
  = Some newProvider ∧
  (∀ t, t ≠ DNSProviderConfig.Provider newProvider ->
        findProvider providers' t = findProvider providers t) ∧
  (NoDup (map DNSProviderConfig.Provider providers) ->
   NoDup (map DNSProviderConfig.Provider providers')).
Proof.
  unfold upserted.
  destruct (replaceProvider_spec providers newProvider)
    as (Hmap & Hfound & Hnot & Hother).
  destruct (replaceProvider providers newProvider) as [l found]. simpl in *.
  destruct found.
  - split; [by apply Hfound|]. split; [exact Hother|]. by rewrite Hmap.
  - destruct (Hnot eq_refl) as (-> & Hnone & Hnin).
    split; [by rewrite findProvider_app, Hnone, String.eqb_refl|]. split.
    + intros t Ht. rewrite findProvider_app.
      destruct (findProvider providers t); [done|].
      by destruct (String.eqb_spec (DNSProviderConfig.Provider newProvider) t);
        [congruence|].
    + intros Hnd. rewrite map_app. simpl. apply NoDup_app. split; [done|].
      split; [|apply NoDup_singleton].
      intros x Hx Hx'. apply list_elem_of_singleton in Hx' as ->. by apply Hnin.
Qed.

Variable marshalProviders : list (DNSProviderConfig.t C) -> result string.
Variable unmarshalProviders :
  string -> list (DNSProviderConfig.t C) -> result (list (DNSProviderConfig.t C)).

(** Reading the provider list back after a write that went through. *)
Lemma GetDNSProviderConfigs_after_Set now1 now2 fault st providers st1 now :
  providersRoundTrip marshalProviders unmarshalProviders ->
  SetDNSProviderConfigs marshalProviders now1 now2 fault st providers
  = (Ok tt, st1) ->
  (GetDNSProviderConfigs unmarshalProviders now st1).1 = Ok providers.
Proof.
  intros Hrt HSet. unfold SetDNSProviderConfigs in HSet.
  destruct (Set_invalidates _ _ _ _ _ _ _ _ _ HSet) as (jsonValue & Hm & Hc & Ht).
  destruct (Hrt _ _ Hm) as [Hne Hu].
  unfold GetDNSProviderConfigs, GetValue, Get, cacheGet, FindById.
  rewrite Hc, Ht. simpl.
  destruct (String.eqb_spec jsonValue ""); [done|]. by rewrite Hu.
Qed.

(** Upsert, then look up: when [UpsertDNSProvider] succeeds, a following
    [GetDNSProviderByType] for the new provider's type returns the new
    provider, also when there was no provider list before. *)
Theorem UpsertDNSProvider_then_lookup now now1 now2 fault st newProvider st1
    now' :
  providersRoundTrip marshalProviders unmarshalProviders ->
  UpsertDNSProvider marshalProviders unmarshalProviders now now1 now2 fault st
    newProvider = (Ok tt, st1) ->
  (GetDNSProviderByType unmarshalProviders now' st1
     (DNSProviderConfig.Provider newProvider)).1 = Ok newProvider.
Proof.
  intros Hrt Hup. unfold UpsertDNSProvider in Hup.
  assert (Hread : ∃ providers,
    (GetDNSProviderConfigs unmarshalProviders now' st1).1
    = Ok (upserted providers newProvider)).
  { destruct (GetDNSProviderConfigs unmarshalProviders now st) as [[l|e] st0].
    - exists l. by eapply GetDNSProviderConfigs_after_Set.
    - destruct (negb _); [discriminate|].
      exists []. by eapply GetDNSProviderConfigs_after_Set. }
  destruct Hread as [providers Hread]. unfold GetDNSProviderByType.
  destruct (GetDNSProviderConfigs unmarshalProviders now' st1) as [r st2].
  simpl in Hread. subst r.
  destruct (upserted_one_provider_per_type providers newProvider) as [Hfind _].
  cbv zeta in Hfind. by rewrite Hfind.
Qed.

Lemma findProvider_filter_out providers t :
  findProvider
    (filter (fun provider => DNSProviderConfig.Provider provider ≠ t) providers)
    t = None.
Proof.
  induction providers as [|p rest IH]; [done|].
  destruct (decide (DNSProviderConfig.Provider p = t)) as [Heq|Hne].
  - by rewrite filter_cons_False by (intros H; by apply H).
  - rewrite filter_cons_True by done. simpl.
    by destruct (String.eqb_spec (DNSProviderConfig.Provider p) t).
Qed.

(** Delete, then look up: when [DeleteDNSProvider] succeeds, a following
    [GetDNSProviderByType] for the deleted type reports that no such
    provider is configured. *)
Theorem DeleteDNSProvider_then_lookup now now1 now2 fault st providerType st1
    now' :
  providersRoundTrip marshalProviders unmarshalProviders ->
  DeleteDNSProvider marshalProviders unmarshalProviders now now1 now2 fault st
    providerType = (Ok tt, st1) ->
  (GetDNSProviderByType unmarshalProviders now' st1 providerType).1
  = Err ("未找到 DNS 服务商配置: " ++ providerType).
Proof.
  intros Hrt Hdel. unfold DeleteDNSProvider in Hdel.
  destruct (GetDNSProviderConfigs unmarshalProviders now st) as [[l|e] st0];
    [|discriminate].
  pose proof (GetDNSProviderConfigs_after_Set _ _ _ _ _ _ now' Hrt Hdel) as Hread.
  unfold GetDNSProviderByType.
  destruct (GetDNSProviderConfigs unmarshalProviders now' st1) as [r st2].
  simpl in Hread. subst r. by rewrite findProvider_filter_out.
Qed.

End DNSMore.

Section DNSExamples.

Import PropertyStore.

Let cloudflare : DNSProviderConfig.t unit :=
  DNSProviderConfig.mk "cloudflare" true tt.
Let aliyun : DNSProviderConfig.t unit :=
  DNSProviderConfig.mk "aliyun" true tt.

(** A codec on the lists the examples write: the one-provider list of
    [cloudflare] is encoded, every other list is refused. *)
Let marshalProviders (providers : list (DNSProviderConfig.t unit))
    : result string :=
  match providers with
  | [provider] =>
      if String.eqb (DNSProviderConfig.Provider provider) "cloudflare"
         && DNSProviderConfig.Enabled provider
      then Ok "[cloudflare]"%string else Err "unsupported"%string
  | _ => Err "unsupported"%string
  end.
Let unmarshalProviders (jsonValue : string)
    (target : list (DNSProviderConfig.t unit))
    : result (list (DNSProviderConfig.t unit)) :=
  if String.eqb jsonValue "[aliyun,cloudflare]" then Ok [aliyun; cloudflare]
  else Ok [cloudflare].

Lemma exampleProvidersRoundTrip :
  providersRoundTrip marshalProviders unmarshalProviders.
Proof.
  intros providers jsonValue H.
  destruct providers as [|[n e []] [|]]; try discriminate H.
  simpl in H. destruct (String.eqb_spec n "cloudflare") as [->|]; destruct e;
    simpl in H; try discriminate H.
  injection H as <-. split; [discriminate|reflexivity].
Defined.

(** On a store without a provider list, upserting [cloudflare] creates the
    list, and the lookup finds it. *)
Lemma UpsertDNSProvider_then_lookup_witness :
  let st := mkState ∅ ∅ in
  let st1 :=
    (UpsertDNSProvider marshalProviders unmarshalProviders 10 20 20 None st
       cloudflare).2 in
  (GetDNSProviderByType unmarshalProviders 30 st1 "cloudflare").1
  = Ok cloudflare.
Proof.
  intros st st1.
  exact (UpsertDNSProvider_then_lookup marshalProviders unmarshalProviders
           10 20 20 None st cloudflare st1 30 exampleProvidersRoundTrip
           eq_refl).
Defined.

(** Deleting [aliyun] from a stored list of two leaves no [aliyun] to look
    up. *)
Lemma DeleteDNSProvider_then_lookup_witness :
  let row :=
    Property.mk "dns_providers" "DNS 服务商配置" "[aliyun,cloudflare]" 5 5 in
  let st := mkState {["dns_providers"%string := row]} ∅ in
  let st1 :=
    (DeleteDNSProvider marshalProviders unmarshalProviders 10 20 20 None st
       "aliyun").2 in
  (GetDNSProviderByType unmarshalProviders 30 st1 "aliyun").1
  = Err "未找到 DNS 服务商配置: aliyun"%string.
Proof.
  intros row st st1.
  exact (DeleteDNSProvider_then_lookup marshalProviders unmarshalProviders
           10 20 20 None st "aliyun" st1 30 exampleProvidersRoundTrip
           eq_refl).
Defined.

End DNSExamples.

(** ** Public IP collection schedule *)

Section PublicIPMore.

Import PropertyStore PublicIP.

Variable marshal : PublicIPConfigData.t -> result string.
Variable sendFault : string -> option string.

Lemma pushed_cons config agentID agentIDs m :
  pushed marshal sendFault config agentIDs m -> pushed marshal sendFault config (agentID :: agentIDs) m.
Proof.
  intros (Hin & H). split; [|exact H]. by apply list_elem_of_further.
Qed.

Lemma sendEach_spec config agentIDs out :
  ∃ new,
    delivered (sendEach marshal sendFault config agentIDs out)
    = delivered out ++ new ∧
    Forall (pushed marshal sendFault config agentIDs) new.
Proof.
  revert out. induction agentIDs as [|agentID rest IH]; intros out;
    cbn [sendEach].
  - exists []. by rewrite app_nil_r.
  - assert (Hskip : ∀ out0, delivered out0 = delivered out ->
      ∃ new, delivered (sendEach marshal sendFault config rest out0)
             = delivered out ++ new ∧
             Forall (pushed marshal sendFault config (agentID :: rest)) new).
    { intros out0 H0. destruct (IH out0) as (new & Hd & Hall).
      exists new. rewrite Hd, H0. split; [done|].
      eapply Forall_impl; [exact Hall|]. intros m. apply pushed_cons. }
    destruct (String.eqb_spec agentID "") as [|Hne]; [by apply Hskip|].
    destruct (negb (IsIPv4Target (Some config) agentID)
              && negb (IsIPv6Target (Some config) agentID)) eqn:Ht;
      [by apply Hskip|].
    destruct (marshal (dataFor config agentID)) as [msgData|e] eqn:Hm;
      [|exists []; simpl; by rewrite app_nil_r].
    destruct (sendFault agentID) eqn:Hs; [by apply Hskip|].
    destruct (IH (mkOutbox (delivered out ++ [(agentID, msgData)])
                    (logs out))) as (new & Hd & Hall).
    exists ((agentID, msgData) :: new). rewrite Hd. simpl.
    rewrite <- app_assoc. split; [done|].
    apply Forall_cons. split.
    + unfold pushed. cbn [fst snd]. split; [apply list_elem_of_here|].
      split; [done|]. split; [done|]. split; [|done].
      destruct (IsIPv4Target (Some config) agentID); [by left|].
      destruct (IsIPv6Target (Some config) agentID); [by right|done].
    + eapply Forall_impl; [exact Hall|]. intros m. apply pushed_cons.
Qed.

Lemma sendConfigToOnlineAgents_spec config agentIDs out :
  ∃ new,
    delivered (sendConfigToOnlineAgents marshal sendFault config agentIDs out)
    = delivered out ++ new ∧
    Forall (pushed marshal sendFault config agentIDs) new.
Proof.
  unfold sendConfigToOnlineAgents.
  destruct (length agentIDs =? 0)%nat.
  - exists []. by rewrite app_nil_r.
  - apply sendEach_spec.
Qed.

(** A push delivers only what it should: every message
    [sendConfigToOnlineAgents] adds to the delivered ones goes to a
    connected agent whose ID is not empty and that the configuration
    targets for IPv4 or IPv6, and it encodes the data built for that agent,
    whose two family switches are the agent's targets. *)
Theorem sendConfigToOnlineAgents_recipients config agentIDs out :
  ∃ new,
    delivered (sendConfigToOnlineAgents marshal sendFault config agentIDs out)
    = delivered out ++ new ∧
    Forall (fun m =>
      pushed marshal sendFault config agentIDs m ∧
      PublicIPConfigData.IPv4Enabled (dataFor config m.1)
      = IsIPv4Target (Some config) m.1 ∧
      PublicIPConfigData.IPv6Enabled (dataFor config m.1)
      = IsIPv6Target (Some config) m.1) new.
Proof.
  destruct (sendConfigToOnlineAgents_spec config agentIDs out)
    as (new & Hd & Hall).
  exists new. split; [done|].
  eapply Forall_impl; [exact Hall|]. by intros m Hm.
Qed.

Lemma sendEach_reaches config agentIDs out agentID msgData :
  (∀ id, isOk (marshal (dataFor config id)) = true) ->
  agentID ∈ agentIDs ->
  agentID ≠ ""%string ->
  IsIPv4Target (Some config) agentID = true ∨
  IsIPv6Target (Some config) agentID = true ->
  sendFault agentID = None ->
  marshal (dataFor config agentID) = Ok msgData ->
  (agentID, msgData) ∈ delivered (sendEach marshal sendFault config agentIDs out).
Proof.
  intros Hok Hin Hne Ht Hs Hm. revert out.
  induction agentIDs as [|a rest IH]; intros out; [by inversion Hin|].
  cbn [sendEach]. destruct (decide (a = agentID)) as [->|Hneq].
  - destruct (String.eqb_spec agentID ""); [done|].
    assert (negb (IsIPv4Target (Some config) agentID)
            && negb (IsIPv6Target (Some config) agentID) = false) as ->.
    { by destruct Ht as [-> | ->]; [|rewrite andb_false_r]. }
    rewrite Hm, Hs.
    destruct (sendEach_spec config rest
                (mkOutbox (delivered out ++ [(agentID, msgData)]) (logs out)))
      as (new & -> & _).
    simpl. rewrite !elem_of_app. left. right. apply list_elem_of_here.
  - apply elem_of_cons in Hin as [->|Hin]; [done|].
    destruct (String.eqb a ""); [by apply IH|].
    destruct (negb _ && negb _); [by apply IH|].
    specialize (Hok a). destruct (marshal (dataFor config a)); [|done].
    destruct (sendFault a); by apply IH.
Qed.

(** A push reaches every target: when the messages encode, each connected
    agent with a non-empty ID that the configuration targets, and to which
    the connection manager can send, is delivered the message built for
    it; a failed send to one agent does not keep the others from theirs. *)
Theorem sendConfigToOnlineAgents_reaches_targets config agentIDs out agentID
    msgData :
  (∀ id, isOk (marshal (dataFor config id)) = true) ->
  agentID ∈ agentIDs ->
  agentID ≠ ""%string ->
  IsIPv4Target (Some config) agentID = true ∨
  IsIPv6Target (Some config) agentID = true ->
  sendFault agentID = None ->
  marshal (dataFor config agentID) = Ok msgData ->
  (agentID, msgData)
    ∈ delivered (sendConfigToOnlineAgents marshal sendFault config agentIDs out).
Proof.
  intros Hok Hin Hne Ht Hs Hm. unfold sendConfigToOnlineAgents.
  destruct agentIDs as [|a rest]; [by inversion Hin|].
  change (length (a :: rest) =? 0)%nat with false. cbv iota.
  by apply sendEach_reaches.
Qed.

Lemma pushInterval_floor config : 30 * second <= pushInterval config.
Proof.
  unfold pushInterval, minute, second.
  destruct (wrap64 _ <=? 0) eqn:H0;
    destruct (_ <? _) eqn:H30; lia.
Qed.

Lemma pushInterval_small config :
  0 < PublicIPConfig.IntervalSeconds config <= 9223372036 ->
  pushInterval config = Z.max 30 (PublicIPConfig.IntervalSeconds config) * second.
Proof.
  intros H. unfold pushInterval, minute.
  rewrite wrap64_small by (unfold second; lia). unfold second.
  destruct (_ <=? 0) eqn:H0; [lia|].
  destruct (_ <? _) eqn:H30; lia.
Qed.

(** How long [Run] sleeps between two turns: never less than 30 seconds,
    one minute after a failed read of the configuration and 30 seconds
    while collection is switched off; and after a push, for a configuration
    whose interval is at most 9223372036 seconds, the configured interval
    raised to 30 seconds. *)
Theorem RunTurn_sleep unmarshal now st agentIDs out :
  let sleep := (RunTurn marshal sendFault unmarshal now st agentIDs out).1.1 in
  let read := (GetPublicIPConfig unmarshal now st).1 in
  30 * second <= sleep ∧
  (isOk read = false -> sleep = minute) ∧
  (∀ config, read = Ok config ->
     (PublicIPConfig.Enabled config
      && (PublicIPConfig.IPv4Enabled config
          || PublicIPConfig.IPv6Enabled config) = false ->
      sleep = 30 * second) ∧
     (PublicIPConfig.Enabled config
      && (PublicIPConfig.IPv4Enabled config
          || PublicIPConfig.IPv6Enabled config) = true ->
      PublicIPConfig.IntervalSeconds config <= 9223372036 ->
      sleep = Z.max 30 (PublicIPConfig.IntervalSeconds config) * second)).
Proof.
  unfold RunTurn.
  assert (Hpos : ∀ config, (GetPublicIPConfig unmarshal now st).1 = Ok config ->
                           0 < PublicIPConfig.IntervalSeconds config).
  { unfold GetPublicIPConfig. intros config.
    destruct (GetValue unmarshal now st PropertyIDPublicIPConfig
                PublicIPConfig.zero) as [[c|e] st0]; simpl; [|discriminate].
    intros [= <-].
    destruct (applyPublicIPConfigDefaults_fields c) as (-> & _).
    destruct (_ <=? 0) eqn:H; lia. }
  destruct (GetPublicIPConfig unmarshal now st) as [[config|e] st0];
    cbn [fst snd isOk] in *.
  - specialize (Hpos config eq_refl).
    assert (Hcond :
      negb (PublicIPConfig.Enabled config)
      || (negb (PublicIPConfig.IPv4Enabled config)
          && negb (PublicIPConfig.IPv6Enabled config))
      = negb (PublicIPConfig.Enabled config
              && (PublicIPConfig.IPv4Enabled config
                  || PublicIPConfig.IPv6Enabled config))).
    { by destruct (PublicIPConfig.Enabled config),
        (PublicIPConfig.IPv4Enabled config),
        (PublicIPConfig.IPv6Enabled config). }
    rewrite Hcond.
    destruct (PublicIPConfig.Enabled config
              && (PublicIPConfig.IPv4Enabled config
                  || PublicIPConfig.IPv6Enabled config)) eqn:Hon;
      cbn [negb fst].
    + split; [apply pushInterval_floor|]. split; [discriminate|].
      intros c Hc. injection Hc as <-. rewrite Hon.
      split; [discriminate|]. intros _ Hle. by apply pushInterval_small.
    + split; [unfold second; lia|]. split; [discriminate|].
      intros c Hc. injection Hc as <-. rewrite Hon.
      split; [done|discriminate].
  - split; [unfold minute, second; lia|]. split; [done|]. discriminate.
Qed.

(** A turn of [Run] that cannot read the configuration, or reads one with
    collection or both families switched off, delivers nothing; and every
    message a turn delivers is built from the configuration just read,
    with collection switched on in it. *)
Theorem RunTurn_pushes_enabled_config unmarshal now st agentIDs out :
  let out' := (RunTurn marshal sendFault unmarshal now st agentIDs out).2 in
  ∃ new,
    delivered out' = delivered out ++ new ∧
    (new ≠ [] ->
     ∃ config,
       (GetPublicIPConfig unmarshal now st).1 = Ok config ∧
       PublicIPConfig.Enabled config = true ∧
       Forall (fun m =>
         pushed marshal sendFault config agentIDs m ∧
         PublicIPConfigData.Enabled (dataFor config m.1) = true) new).
Proof.
  unfold RunTurn.
  destruct (GetPublicIPConfig unmarshal now st) as [[config|e] st0]; simpl.
  - destruct (PublicIPConfig.Enabled config) eqn:He; simpl.
    + destruct (negb (PublicIPConfig.IPv4Enabled config)
                && negb (PublicIPConfig.IPv6Enabled config)); simpl.
      * exists []. by rewrite app_nil_r.
      * destruct (sendConfigToOnlineAgents_spec config agentIDs out)
          as (new & Hd & Hall).
        exists new. split; [done|]. intros _. exists config.
        split; [done|]. split; [done|].
        eapply Forall_impl; [exact Hall|]. by intros m Hm.
    + exists []. by rewrite app_nil_r.
  - exists []. by rewrite app_nil_r.
Qed.

End PublicIPMore.

(** Three agents are connected, one without an ID; IPv4 is collected from
    ["a2"] alone, and the send to ["a1"] would fail: ["a2"] gets its
    message. *)
Lemma sendConfigToOnlineAgents_reaches_targets_witness :
  let config :=
    PropertyStore.PublicIPConfig.mk true 60 "custom" ["a2"%string] "all" [] true false
      ["https://4.example"%string] [] in
  ("a2"%string, "config"%string)
    ∈ PublicIP.delivered
        (PublicIP.sendConfigToOnlineAgents (fun _ => Ok "config"%string)
           (fun id => if String.eqb id "a1" then Some "closed"%string else None)
           config ["a1"%string; ""%string; "a2"%string] (PublicIP.mkOutbox [] [])).
Proof.
  intros config.
  apply (sendConfigToOnlineAgents_reaches_targets
           (fun _ => Ok "config"%string)
           (fun id => if String.eqb id "a1" then Some "closed"%string else None)
           config ["a1"%string; ""%string; "a2"%string] (PublicIP.mkOutbox [] [])
           "a2" "config").
  - intros id. reflexivity.
  - do 2 apply list_elem_of_further. apply list_elem_of_here.
  - discriminate.
  - left. reflexivity.
  - reflexivity.
  - reflexivity.
Defined.
